(** * The read-through cache layer of the finance-tracker API

    A shallow embedding of [middleware/cache.js] (the caching middleware and
    the invalidation helpers), of the route tables that attach it, and of
    the controllers that invalidate it, together with the properties the
    specification states about them. *)

From Stdlib Require Import ZArith Ascii String.
From stdpp Require Import base numbers option list strings pretty gmap fin_maps.

Open Scope Z_scope.

(** ** Strings as the code builds them *)

(** Does the character [c] occur in [s]? *)
Fixpoint occurs (c : ascii) (s : string) : bool :=
  match s with
  | EmptyString => false
  | String a s' => if decide (a = c) then true else occurs c s'
  end.

Definition colon : ascii := ":"%char.

(** ** Requests and principals *)

(** The value found under [req.user.id]: the users table issues numbers,
    a hand-made principal may carry a string. *)
Inductive js_id :=
| IdNumber (n : Z)
| IdString (s : string).

Record user := { user_id : js_id; user_role : string }.

Record request := {
  method : string;
  originalUrl : string;       (* path and query string *)
  req_user : option user      (* set by authenticateToken, else undefined *)
}.

(** JavaScript truthiness of an id, as [||] tests it. *)
Definition truthy_id (i : js_id) : bool :=
  match i with
  | IdNumber n => negb (n =? 0)
  | IdString s => negb (String.eqb s EmptyString)
  end.

(** What a template literal prints for an id. *)
Definition id_to_string (i : js_id) : string :=
  match i with
  | IdNumber n => pretty n
  | IdString s => s
  end.

(** [req.user?.id || 'anonymous'] *)
Definition principal_segment (u : option user) : string :=
  match u with
  | Some u => if truthy_id (user_id u) then id_to_string (user_id u)
              else "anonymous"
  | None => "anonymous"
  end.

(** [`cache:${req.originalUrl}:${req.user?.id || 'anonymous'}`] *)
Definition cacheKey (req : request) : string :=
  "cache:" +:+ originalUrl req +:+ ":" +:+ principal_segment (req_user req).

(** The principal of a request, as the specification speaks of it. *)
Definition principal (req : request) : option js_id :=
  user_id <$> req_user req.

(** Principals the users table can issue: none, or a non-zero integer. *)
Definition table_principal (req : request) : Prop :=
  match principal req with
  | None => True
  | Some (IdNumber n) => n ≠ 0
  | Some (IdString _) => False
  end.

(** ** Responses and the JSON codec of the runtime *)

(** [JSON.stringify] and [JSON.parse] belong to the runtime, not to the
    repository: the layer is stated over any codec.  [JSON_parse] gives
    [None] where the runtime raises a [SyntaxError]. *)
Class JsonCodec (payload : Type) := {
  JSON_stringify : payload → string;
  JSON_parse : string → option payload
}.

(** What [res.status(s).json(d)] hands to the caller; the bytes on the wire
    are [JSON_stringify d]. *)
Record response (payload : Type) := Response {
  status : Z;
  sent : payload
}.
Arguments Response {payload} _ _.
Arguments status {payload} _.
Arguments sent {payload} _.

Definition body `{JsonCodec payload} (r : response payload) : string :=
  JSON_stringify (sent r).

(** ** The key-value store behind [client] *)

Record entry := Entry {
  e_value : string;
  e_expiry : Z                 (* the second at which the entry lapses *)
}.

Record redis := Redis {
  isOpen : bool;
  db : gmap string entry
}.

(** Remote failures, chosen by the environment: which commands are
    rejected, and whether the connection is lost while the downstream
    handler works. *)
Record faults := Faults {
  get_fails : string → bool;
  setEx_fails : string → bool;
  keys_fails : string → bool;
  del_fails : list string → bool;
  drops_midway : bool
}.

Definition no_faults : faults :=
  Faults (λ _, false) (λ _, false) (λ _, false) (λ _, false) false.

(** The statements the controllers send to [pool.query], with the
    parameters the cache layer depends on. *)
Inductive statement :=
| SELECT_user (id : Z)
| SELECT_category (id : Z)
| INSERT_transaction (user_id category_id : Z)
| SELECT_transaction_owner (id : Z) (user_id : option Z)
| UPDATE_transaction (id category_id : Z)
| DELETE_transaction (id : Z)
| SELECT_category_by_name (name : string)
| INSERT_category (name : string)
| SELECT_other_category_by_name (name : string) (id : Z)
| UPDATE_category (id : Z) (name : string)
| COUNT_transactions_of_category (id : Z)
| DELETE_category (id : Z)
| DELETE_user (id : Z).

(** INSERT, UPDATE and DELETE statements. *)
Definition writes (q : statement) : bool :=
  match q with
  | INSERT_transaction _ _ | UPDATE_transaction _ _ | DELETE_transaction _
  | INSERT_category _ | UPDATE_category _ _ | DELETE_category _
  | DELETE_user _ => true
  | _ => false
  end.

Inductive log_line :=
| LogSkipCache                          (* Redis not connected - skipping cache *)
| LogHit (k : string)
| LogCached (k : string)
| LogSetError
| LogMiddlewareError
| LogSkipClear                          (* Redis not connected - skipping cache clear *)
| LogCleared (n : nat) (pattern : string)
| LogClearError
| LogControllerError.

(** What a run does, in order. *)
Inductive event :=
| Get (k : string)
| SetEx (k : string) (ttl : Z) (v : string)
| Keys (pattern : string)
| Del (ks : list string)
| Next                                  (* the downstream handler runs *)
| Commit (q : statement)             (* a writing statement went through *)
| ClearCache (pattern : string)         (* clearCache is entered *)
| Log (l : log_line).

Record world := World {
  now : Z;
  client : redis;
  env : faults;
  trace : list event
}.

(** A JavaScript value returned by a helper: a number or [undefined]. *)
Inductive js_value :=
| JsUndefined
| JsNumber (n : Z).

(** ** Effects: state, trace and exceptions *)

Inductive outcome (A : Type) :=
| Returned (a : A)
| Thrown.
Arguments Returned {A} _.
Arguments Thrown {A}.

Definition M (A : Type) : Type := world → outcome A * world.

#[global] Instance M_ret : MRet M := λ A a w, (Returned a, w).

#[global] Instance M_bind : MBind M := λ A B f m w,
  match m w with
  | (Returned a, w') => f a w'
  | (Thrown, w') => (Thrown, w')
  end.

Definition throw {A} : M A := λ w, (Thrown, w).

(** [try { body } catch (error) { handler }] *)
Definition try_catch {A} (body handler : M A) : M A := λ w,
  match body w with
  | (Returned a, w') => (Returned a, w')
  | (Thrown, w') => handler w'
  end.

Definition emit (e : event) : M unit := λ w,
  (Returned (), World (now w) (client w) (env w) (trace w ++ [e])).

Definition console (l : log_line) : M unit := emit (Log l).

Definition set_client (c : redis) : M unit := λ w,
  (Returned (), World (now w) c (env w) (trace w)).

Definition ask {A} (f : world → A) : M A := λ w, (Returned (f w), w).

(** [client.isOpen] *)
Definition client_isOpen : M bool := ask (λ w, isOpen (client w)).

Definition live (t : Z) (e : entry) : bool := t <? e_expiry e.

(** The value a reader sees under [k] at second [t]. *)
Definition lookup_live (t : Z) (c : redis) (k : string) : option string :=
  match db c !! k with
  | Some e => if live t e then Some (e_value e) else None
  | None => None
  end.

(** Modelled from the spec: the store's commands ([client] is the redis
    library's handle, built in config/redis.js).  [get] answers the stored
    value or absent; a closed or failing connection rejects. *)
Definition client_get (k : string) : M (option string) :=
  emit (Get k);;
  w ← ask id;
  if negb (isOpen (client w)) || get_fails (env w) k then throw
  else mret (lookup_live (now w) (client w) k).

(** Modelled from the spec: [setEx(key, ttl, value)] stores the value, to
    lapse [ttl] seconds from now. *)
Definition client_setEx (k : string) (ttl : Z) (v : string) : M unit :=
  emit (SetEx k ttl v);;
  w ← ask id;
  if negb (isOpen (client w)) || setEx_fails (env w) k then throw
  else set_client (Redis (isOpen (client w))
                         (<[k := Entry v (now w + ttl)]> (db (client w)))).

(** Modelled from the spec: glob patterns with the [*] wildcard, which
    stands for any run of characters. *)
Fixpoint glob_match (p s : string) : bool :=
  match p with
  | EmptyString => bool_decide (s = EmptyString)
  | String c p' =>
      if decide (c = "*"%char) then
        (fix star (s : string) : bool :=
           glob_match p' s ||
           match s with
           | EmptyString => false
           | String _ s' => star s'
           end) s
      else
        match s with
        | EmptyString => false
        | String c' s' => bool_decide (c = c') && glob_match p' s'
        end
  end.

(** Modelled from the spec: [keys(pattern)] lists the live keys that match. *)
Definition matching_keys (t : Z) (c : redis) (pattern : string) : list string :=
  filter (λ k, glob_match pattern k = true ∧ is_Some (lookup_live t c k))
         (map_to_list (db c)).*1.

Definition client_keys (pattern : string) : M (list string) :=
  emit (Keys pattern);;
  w ← ask id;
  if negb (isOpen (client w)) || keys_fails (env w) pattern then throw
  else mret (matching_keys (now w) (client w) pattern).

(** Modelled from the spec: [del(keys)] removes the keys and answers how
    many it removed. *)
Definition client_del (ks : list string) : M nat :=
  emit (Del ks);;
  w ← ask id;
  if negb (isOpen (client w)) || del_fails (env w) ks then throw
  else
    set_client (Redis (isOpen (client w)) (foldr delete (db (client w)) ks));;
    mret (length (filter (λ k, is_Some (db (client w) !! k)) ks)).

(** ** middleware/cache.js *)

(** The downstream handler, reached through [next()]: it answers with a
    status and a payload.  The connection may be lost while it works. *)
Definition invoke {payload} (handler : request → response payload)
    (req : request) : M (response payload) :=
  emit Next;;
  w ← ask id;
  set_client (Redis (isOpen (client w) && negb (drops_midway (env w)))
                    (db (client w)));;
  mret (handler req).

Definition truthy_string (s : option string) : bool :=
  match s with
  | Some s => negb (String.eqb s EmptyString)
  | None => false
  end.

Section Middleware.
Context `{JsonCodec payload}.

Definition parse_or_throw (s : string) : M payload :=
  match JSON_parse s with
  | Some d => mret d
  | None => throw
  end.

(** The replacement for [res.json] installed on a miss: write the
    payload to the store if it is connected, then send it unchanged. *)
Definition caching_json (cacheKey : string) (ttl : Z)
    (r : response payload) : M (response payload) :=
  open ← client_isOpen;
  (if open : bool then
     try_catch (client_setEx cacheKey ttl (JSON_stringify (sent r));;
                console (LogCached cacheKey))
               (console LogSetError)
   else mret ());;
  mret r.

Definition cacheMiddleware (ttl : Z) (handler : request → response payload)
    (req : request) : M (response payload) :=
  let next := invoke handler req in
  if negb (String.eqb (method req) "GET") then next
  else
    try_catch
      (open ← client_isOpen;
       if negb (open : bool) then console LogSkipCache;; next
       else
         let cacheKey := cacheKey req in
         cachedData ← client_get cacheKey;
         if truthy_string cachedData then
           console (LogHit cacheKey);;
           d ← parse_or_throw (default EmptyString cachedData);
           mret (Response 200 d)
         else
           r ← next;
           caching_json cacheKey ttl r)
      (console LogMiddlewareError;; next).

(** [cacheMiddleware()]: the TTL defaults to 15 minutes. *)
Definition cacheMiddleware_default := cacheMiddleware 900.

(** Every non-empty value in the store is one the codec can read. *)
Definition decodable (c : redis) : Prop :=
  ∀ k e, db c !! k = Some e → e_value e ≠ EmptyString → is_Some (JSON_parse (e_value e)).
End Middleware.

Definition clearCache (pattern : string) : M js_value :=
  emit (ClearCache pattern);;
  try_catch
    (open ← client_isOpen;
     if negb (open : bool) then console LogSkipClear;; mret JsUndefined
     else
       keys ← client_keys pattern;
       (if decide (0 < length keys)%nat then
          client_del keys;;
          console (LogCleared (length keys) pattern)
        else mret ());;
       mret JsUndefined)
    (console LogClearError;; mret JsUndefined).

(** [clearUserCache(userId)] *)
Definition clearUserCache (userId : Z) : M js_value :=
  clearCache ("cache:*:" +:+ pretty userId).

(** [clearAnalyticsCache(userId)]; the default argument ['*'] is [None]. *)
Definition clearAnalyticsCache (userId : option Z) : M js_value :=
  clearCache ("cache:*/analytics*:" +:+ from_option pretty "*" userId).

(** [clearTransactionCache(userId)] *)
Definition clearTransactionCache (userId : option Z) : M js_value :=
  clearCache ("cache:*/transactions*:" +:+ from_option pretty "*" userId).

(** Running a program from a fresh trace. *)
Definition run {A} (m : M A) (t : Z) (c : redis) (f : faults) : outcome A * world :=
  m (World t c f []).

(** ** Route tables *)

(** One line of a router: verb, path, and the TTL handed to
    [cacheMiddleware] when the route is cached. *)
Record route := Route {
  r_verb : string;
  r_path : string;
  r_ttl : option Z
}.

Inductive router := Transactions | Analytics | CategoriesRouter | Admin.

(** routes/transactions.js *)
Definition transaction_routes : list route :=
  [ Route "GET" "/" (Some 300);
    Route "GET" "/summary" (Some 900);
    Route "GET" "/:id" (Some 600);
    Route "POST" "/" None;
    Route "PUT" "/:id" None;
    Route "DELETE" "/:id" None ].

(** The analytics router. *)
Definition analytics_routes : list route :=
  [ Route "GET" "/monthly" (Some 900);
    Route "GET" "/yearly" (Some 900);
    Route "GET" "/categories" (Some 900);
    Route "GET" "/trends" (Some 900);
    Route "GET" "/dashboard" (Some 900) ].

(** The categories router. *)
Definition category_routes : list route :=
  [ Route "GET" "/" (Some 3600);
    Route "GET" "/stats" (Some 900);
    Route "GET" "/:id" (Some 3600);
    Route "POST" "/" None;
    Route "PUT" "/:id" None;
    Route "DELETE" "/:id" None ].

(** routes/admin.js *)
Definition admin_routes : list route :=
  [ Route "POST" "/users" None;
    Route "GET" "/users" (Some 300);
    Route "GET" "/stats" (Some 600);
    Route "GET" "/users/:id" (Some 600);
    Route "PUT" "/users/:id/role" None;
    Route "DELETE" "/users/:id" None;
    Route "POST" "/users/:userId/transactions" None;
    Route "GET" "/transactions" (Some 300) ].

Definition routes_of (r : router) : list route :=
  match r with
  | Transactions => transaction_routes
  | Analytics => analytics_routes
  | CategoriesRouter => category_routes
  | Admin => admin_routes
  end.

(** The TTL of the first route of [r] with that verb and path. *)
Definition ttl_of (r : router) (verb path : string) : option Z :=
  match filter (λ x, r_verb x = verb ∧ r_path x = path) (routes_of r) with
  | x :: _ => r_ttl x
  | [] => None
  end.

(** The resource classes of the TTL convention. *)
Inductive resource_class :=
| TransactionsList
| SingleItem
| Categories
| AnalyticsAggregate
| AdminListing.

Definition slash : ascii := "/"%char.

(** The text after the last slash of a path. *)
Fixpoint last_segment (path : string) : string :=
  match path with
  | EmptyString => EmptyString
  | String a rest =>
      if occurs slash rest then last_segment rest
      else if decide (a = slash) then rest else path
  end.

(** A route parameter, as in [/:id]. *)
Definition is_parameter (segment : string) : bool :=
  match segment with
  | String a _ => bool_decide (a = colon)
  | EmptyString => false
  end.

(** The classes of the convention, read off the router and the shape of
    the path: the list of the transactions router; a lookup by a route
    parameter; the routes of the categories router; the routes of the
    analytics router and every summary or statistics; the routes of the
    admin router.  A route may belong to several classes. *)
Definition in_class (c : resource_class) (r : router) (path : string) : bool :=
  match c with
  | TransactionsList =>
      match r with Transactions => bool_decide (path = "/") | _ => false end
  | SingleItem => is_parameter (last_segment path)
  | Categories =>
      match r with CategoriesRouter => true | _ => false end
  | AnalyticsAggregate =>
      match r with
      | Analytics => true
      | _ => bool_decide (path = "/summary" ∨ path = "/stats")
      end
  | AdminListing =>
      match r with Admin => true | _ => false end
  end.

(** The cached routes of a router, in the order of its table: path and
    TTL of every GET that goes through [cacheMiddleware]. *)
Definition cached (r : router) : list (string * Z) :=
  omap (λ x, if decide (r_verb x = "GET")
             then (λ ttl, (r_path x, ttl)) <$> r_ttl x
             else None)
       (routes_of r).

Definition conventional (c : resource_class) (ttl : Z) : Prop :=
  match c with
  | TransactionsList => ttl = 300
  | SingleItem => ttl = 600
  | Categories => ttl = 3600
  | AnalyticsAggregate => ttl = 900
  | AdminListing => 300 ≤ ttl ≤ 600
  end.

(** ** JSON documents

    The documents the handlers answer with, and a codec for them that
    prints as the runtime does (no white space, members in order). *)

#[warnings="-register-all"]
Inductive json :=
| JNull
| JBool (b : bool)
| JNumber (n : Z)
| JString (s : string)
| JArray (l : list json)
| JObject (l : list (string * json)).

Definition dquote : ascii := "034"%char.
Definition backslash : ascii := "092"%char.

Fixpoint escape (s : string) : string :=
  match s with
  | EmptyString => EmptyString
  | String c s' =>
      if decide (c = dquote ∨ c = backslash)
      then String backslash (String c (escape s'))
      else String c (escape s')
  end.

Definition quoted (s : string) : string :=
  String dquote (escape s +:+ String dquote EmptyString).

(** The items of an array or object, printed with [f] and separated by
    commas. *)
Definition joined {A} (f : A → string) : list A → string :=
  fix go (l : list A) : string :=
    match l with
    | [] => EmptyString
    | [x] => f x
    | x :: l' => f x +:+ "," +:+ go l'
    end.

Fixpoint json_stringify (j : json) : string :=
  match j with
  | JNull => "null"
  | JBool true => "true"
  | JBool false => "false"
  | JNumber n => pretty n
  | JString s => quoted s
  | JArray l => "[" +:+ joined json_stringify l +:+ "]"
  | JObject l =>
      "{" +:+
      joined (λ kv, quoted kv.1 +:+ ":" +:+ json_stringify kv.2) l +:+ "}"
  end.

(** The number of nodes of a document. *)
Fixpoint json_size (j : json) : nat :=
  match j with
  | JArray l => S (sum_list_with json_size l)
  | JObject l => S (sum_list_with (λ kv, json_size kv.2) l)
  | _ => 1%nat
  end.

Fixpoint strip_prefix (p s : string) : option string :=
  match p, s with
  | EmptyString, _ => Some s
  | String a p', String b s' => if decide (a = b) then strip_prefix p' s' else None
  | String _ _, EmptyString => None
  end.

(** The text of a string literal, read after its opening quote. *)
Fixpoint read_string (s : string) : option (string * string) :=
  match s with
  | EmptyString => None
  | String c s' =>
      if decide (c = dquote) then Some (EmptyString, s')
      else if decide (c = backslash) then
        match s' with
        | String d s'' =>
            match read_string s'' with
            | Some (t, r) => Some (String d t, r)
            | None => None
            end
        | EmptyString => None
        end
      else
        match read_string s' with
        | Some (t, r) => Some (String c t, r)
        | None => None
        end
  end.

Definition digit_of (c : ascii) : option N :=
  let n := N_of_ascii c in
  if decide (48 ≤ n ∧ n ≤ 57)%N then Some (n - 48)%N else None.

Definition is_Some_bool {A} (o : option A) : bool :=
  match o with Some _ => true | None => false end.

Fixpoint read_digits (acc : N) (s : string) : N * string :=
  match s with
  | EmptyString => (acc, EmptyString)
  | String c s' =>
      match digit_of c with
      | Some d => read_digits (10 * acc + d)%N s'
      | None => (acc, s)
      end
  end.

Definition starts_with_digit (s : string) : bool :=
  match s with
  | String c _ => is_Some_bool (digit_of c)
  | EmptyString => false
  end.

Definition read_natural (s : string) : option (N * string) :=
  match s with
  | String c _ =>
      if is_Some_bool (digit_of c) then Some (read_digits 0%N s) else None
  | EmptyString => None
  end.

Definition read_number (s : string) : option (Z * string) :=
  match strip_prefix "-" s with
  | Some s' => prod_map (λ n, - Z.of_N n) id <$> read_natural s'
  | None => prod_map Z.of_N id <$> read_natural s
  end.

(** The elements of an array, read after the opening bracket (the array
    is not empty), each with [parse]; at most [k] of them. *)
Fixpoint parse_elems (parse : string → option (json * string))
    (k : nat) (r : string) : option (list json * string) :=
  match k with
  | O => None
  | S k' =>
      match parse r with
      | Some (v, String d r') =>
          if decide (d = ","%char) then
            prod_map (cons v) id <$> parse_elems parse k' r'
          else if decide (d = "]"%char) then Some ([v], r')
          else None
      | _ => None
      end
  end.

(** The members of an object, read after the opening brace. *)
Fixpoint parse_members (parse : string → option (json * string))
    (k : nat) (r : string) : option (list (string * json) * string) :=
  match k with
  | O => None
  | S k' =>
      match strip_prefix (String dquote EmptyString) r with
      | Some r0 =>
          match read_string r0 with
          | Some (key, String d r1) =>
              if decide (d = ":"%char) then
                match parse r1 with
                | Some (v, String e r2) =>
                    if decide (e = ","%char) then
                      prod_map (cons (key, v)) id <$> parse_members parse k' r2
                    else if decide (e = "}"%char) then Some ([(key, v)], r2)
                    else None
                | _ => None
                end
              else None
          | _ => None
          end
      | None => None
      end
  end.

Fixpoint parse_value (fuel : nat) (s : string) : option (json * string) :=
  match fuel with
  | O => None
  | S fuel' =>
      match s with
      | EmptyString => None
      | String c r =>
          if decide (c = "n"%char) then pair JNull <$> strip_prefix "ull" r
          else if decide (c = "t"%char) then pair (JBool true) <$> strip_prefix "rue" r
          else if decide (c = "f"%char) then pair (JBool false) <$> strip_prefix "alse" r
          else if decide (c = dquote) then prod_map JString id <$> read_string r
          else if decide (c = "["%char) then
            match strip_prefix "]" r with
            | Some r' => Some (JArray [], r')
            | None => prod_map JArray id <$> parse_elems (parse_value fuel') fuel' r
            end
          else if decide (c = "{"%char) then
            match strip_prefix "}" r with
            | Some r' => Some (JObject [], r')
            | None => prod_map JObject id <$> parse_members (parse_value fuel') fuel' r
            end
          else prod_map JNumber id <$> read_number s
      end
  end.

(** What may follow a document for the reader to stop there: after a
    number, anything but a digit. *)
Definition stops (v : json) (rest : string) : Prop :=
  match v with
  | JNumber _ => starts_with_digit rest = false
  | _ => True
  end.

Definition json_parse (s : string) : option json :=
  match parse_value (S (String.length s)) s with
  | Some (v, EmptyString) => Some v
  | _ => None
  end.

#[global] Instance json_codec : JsonCodec json :=
  {| JSON_stringify := json_stringify; JSON_parse := json_parse |}.

(** [{ success, message }], the shape of the controllers' short answers. *)
Definition answer (success : bool) (message : string) : json :=
  JObject [("success", JBool success); ("message", JString message)].

(** ** The database behind [pool] *)

(** A row, as the driver hands it over: a JSON object. *)
Definition row : Type := list (string * json).

(** The database is an opaque collaborator: it answers each statement with
    rows, or rejects it ([None]). *)
Definition database : Type := statement → option (list row).

Definition pool_query (pool : database) (q : statement) : M (list row) :=
  match pool q with
  | Some rows => (if writes q then emit (Commit q) else mret ());; mret rows
  | None => throw
  end.

Fixpoint field (k : string) (o : row) : option json :=
  match o with
  | [] => None
  | (k', v) :: o' => if decide (k' = k) then Some v else field k o'
  end.

Definition field_number (k : string) (o : row) : option Z :=
  match field k o with
  | Some (JNumber n) => Some n
  | _ => None
  end.

Definition field_string (k : string) (o : row) : option string :=
  match field k o with
  | Some (JString s) => Some s
  | _ => None
  end.

(** [{ ...o, k: v }] *)
Fixpoint set_field (k : string) (v : json) (o : row) : row :=
  match o with
  | [] => [(k, v)]
  | (k', v') :: o' =>
      if decide (k' = k) then (k, v) :: o' else (k', v') :: set_field k v o'
  end.

Definition spread (o : option row) (extra : row) : row :=
  foldl (λ acc kv, set_field kv.1 kv.2 acc) (default [] o) extra.

(** ** Controllers *)

(** What a controller reads from the request.  Ids arrive as integers
    ([parseInt] of a route parameter or of [user_id]); [m_target] is the
    body's [user_id] when it is present and truthy. *)
Record mutation_request := MutationRequest {
  m_user_id : Z;                  (* req.user.id *)
  m_role : string;                (* req.user.role *)
  m_param_id : Z;                 (* parseInt(req.params.id) *)
  m_errors : list json;           (* validationResult(req).array() *)
  m_type : string;                (* body.type *)
  m_category_id : Z;              (* body.category_id *)
  m_target : option Z;            (* body.user_id *)
  m_name : string                 (* body.name *)
}.

Definition validation_failed (errors : list json) : response json :=
  Response 400 (JObject [("success", JBool false);
                         ("message", JString "Validation failed");
                         ("errors", JArray errors)]).

Definition internal_error : response json :=
  Response 500 (answer false "Internal server error").

(** The category check shared by createTransaction and updateTransaction:
    the category exists and has the type of the transaction. *)
Definition check_category (pool : database) (req : mutation_request)
    (k : M (response json)) : M (response json) :=
  categoryResult ← pool_query pool (SELECT_category (m_category_id req));
  match categoryResult with
  | [] => mret (Response 400 (answer false "Invalid category ID"))
  | category :: _ =>
      if decide (field_string "type" category = Some (m_type req)) then k
      else mret (Response 400 (answer false
             ("Category type (" +:+ default "undefined" (field_string "type" category)
              +:+ ") does not match transaction type (" +:+ m_type req +:+ ")")))
  end.

(** controllers/transactionController.js, createTransaction *)
Definition createTransaction (pool : database) (req : mutation_request)
    : M (response json) :=
  try_catch
    (match m_errors req with
     | _ :: _ => mret (validation_failed (m_errors req))
     | [] =>
         (* the rest of the body, once the owner of the new row is known *)
         let insert (targetUserId : Z) : M (response json) :=
           check_category pool req
             (result ← pool_query pool
                         (INSERT_transaction targetUserId (m_category_id req));
              let newTransaction := head result in
              clearTransactionCache (Some targetUserId);;
              clearAnalyticsCache (Some targetUserId);;
              mret (Response 201
                (JObject
                   [("success", JBool true);
                    ("message", JString "Transaction created successfully");
                    ("data", JObject
                       [("transaction", JObject
                           (spread newTransaction
                              [("category_id", JNumber (m_category_id req));
                               ("user_id", JNumber targetUserId)]))])])))
         in
         match m_target req with
         | Some targetUserId =>
             if String.eqb (m_role req) "admin" then
               userExists ← pool_query pool (SELECT_user targetUserId);
               match userExists with
               | [] => mret (Response 400 (answer false "Target user not found"))
               | _ :: _ => insert targetUserId
               end
             else insert (m_user_id req)
         | None => insert (m_user_id req)
         end
     end)
    (console LogControllerError;; mret internal_error).

(** The row a user may touch: admins any, others their own. *)
Definition owner_filter (req : mutation_request) : option Z :=
  if String.eqb (m_role req) "admin" then None else Some (m_user_id req).

(** updateTransaction *)
Definition updateTransaction (pool : database) (req : mutation_request)
    : M (response json) :=
  try_catch
    (match m_errors req with
     | _ :: _ => mret (validation_failed (m_errors req))
     | [] =>
         let transactionId := m_param_id req in
         existingTransaction ← pool_query pool
           (SELECT_transaction_owner transactionId (owner_filter req));
         match existingTransaction with
         | [] => mret (Response 404
                   (answer false "Transaction not found or access denied"))
         | _ :: _ =>
             check_category pool req
               (result ← pool_query pool
                           (UPDATE_transaction transactionId (m_category_id req));
                match result with
                | [] => throw        (* reading user_id of undefined *)
                | updatedTransaction :: _ =>
                    let transactionUserId :=
                      field_number "user_id" updatedTransaction in
                    clearTransactionCache transactionUserId;;
                    clearAnalyticsCache transactionUserId;;
                    mret (Response 200
                      (JObject
                         [("success", JBool true);
                          ("message", JString "Transaction updated successfully");
                          ("data", JObject
                             [("transaction", JObject
                                 (spread (Some updatedTransaction)
                                    [("category_id",
                                      JNumber (m_category_id req))]))])]))
                end)
         end
     end)
    (console LogControllerError;; mret internal_error).

(** deleteTransaction *)
Definition deleteTransaction (pool : database) (req : mutation_request)
    : M (response json) :=
  try_catch
    (let transactionId := m_param_id req in
     existingTransaction ← pool_query pool
       (SELECT_transaction_owner transactionId (owner_filter req));
     match existingTransaction with
     | [] => mret (Response 404
               (answer false "Transaction not found or access denied"))
     | found :: _ =>
         let transactionUserId := field_number "user_id" found in
         pool_query pool (DELETE_transaction transactionId);;
         clearTransactionCache transactionUserId;;
         clearAnalyticsCache transactionUserId;;
         mret (Response 200 (answer true "Transaction deleted successfully"))
     end)
    (console LogControllerError;; mret internal_error).

Definition category_payload (message : string) (category : option row) : json :=
  JObject [("success", JBool true);
           ("message", JString message);
           ("data", JObject
              (match category with
               | Some c => [("category", JObject c)]
               | None => []
               end))].

(** The category controller, createCategory *)
Definition createCategory (pool : database) (req : mutation_request)
    : M (response json) :=
  try_catch
    (match m_errors req with
     | _ :: _ => mret (validation_failed (m_errors req))
     | [] =>
         existingCategory ← pool_query pool (SELECT_category_by_name (m_name req));
         match existingCategory with
         | _ :: _ => mret (Response 409
                       (answer false "Category with this name already exists"))
         | [] =>
             result ← pool_query pool (INSERT_category (m_name req));
             clearCache "cache:*/categories*";;
             mret (Response 201
                     (category_payload "Category created successfully"
                                       (head result)))
         end
     end)
    (console LogControllerError;; mret internal_error).

(** updateCategory *)
Definition updateCategory (pool : database) (req : mutation_request)
    : M (response json) :=
  try_catch
    (match m_errors req with
     | _ :: _ => mret (validation_failed (m_errors req))
     | [] =>
         let categoryId := m_param_id req in
         existingCategory ← pool_query pool (SELECT_category categoryId);
         match existingCategory with
         | [] => mret (Response 404 (answer false "Category not found"))
         | _ :: _ =>
             duplicateCategory ← pool_query pool
               (SELECT_other_category_by_name (m_name req) categoryId);
             match duplicateCategory with
             | _ :: _ => mret (Response 409
                 (answer false "Another category with this name already exists"))
             | [] =>
                 result ← pool_query pool (UPDATE_category categoryId (m_name req));
                 clearCache "cache:*/categories*";;
                 mret (Response 200
                         (category_payload "Category updated successfully"
                                           (head result)))
             end
         end
     end)
    (console LogControllerError;; mret internal_error).

(** [parseInt(transactionCount.rows[0].count) > 0]; a missing row raises. *)
Definition positive_count (rows : list row) : M bool :=
  match rows with
  | [] => throw
  | r :: _ =>
      mret (match field "count" r with
            | Some (JNumber n) => bool_decide (0 < n)
            | Some (JString s) =>
                match read_number s with
                | Some (n, _) => bool_decide (0 < n)
                | None => false
                end
            | _ => false
            end)
  end.

(** deleteCategory *)
Definition deleteCategory (pool : database) (req : mutation_request)
    : M (response json) :=
  try_catch
    (let categoryId := m_param_id req in
     existingCategory ← pool_query pool (SELECT_category categoryId);
     match existingCategory with
     | [] => mret (Response 404 (answer false "Category not found"))
     | _ :: _ =>
         transactionCount ← pool_query pool
           (COUNT_transactions_of_category categoryId);
         used ← positive_count transactionCount;
         if used : bool then
           mret (Response 409 (answer false
             "Cannot delete category that is being used in transactions"))
         else
           pool_query pool (DELETE_category categoryId);;
           clearCache "cache:*/categories*";;
           mret (Response 200 (answer true "Category deleted successfully"))
     end)
    (console LogControllerError;; mret internal_error).

(** The admin controller, deleteUser *)
Definition deleteUser (pool : database) (req : mutation_request)
    : M (response json) :=
  try_catch
    (let userId := m_param_id req in
     existingUser ← pool_query pool (SELECT_user userId);
     match existingUser with
     | [] => mret (Response 404 (answer false "User not found"))
     | _ :: _ =>
         if decide (userId = m_user_id req) then
           mret (Response 400 (answer false "You cannot delete your own account"))
         else
           pool_query pool (DELETE_user userId);;
           mret (Response 200 (answer true "User deleted successfully"))
     end)
    (console LogControllerError;; mret internal_error).


(** The mutations of the transaction and category controllers. *)
Inductive mutation :=
| CreateTransaction
| UpdateTransaction
| DeleteTransaction
| CreateCategory
| UpdateCategory
| DeleteCategory.

Definition mutate (op : mutation) : database → mutation_request → M (response json) :=
  match op with
  | CreateTransaction => createTransaction
  | UpdateTransaction => updateTransaction
  | DeleteTransaction => deleteTransaction
  | CreateCategory => createCategory
  | UpdateCategory => updateCategory
  | DeleteCategory => deleteCategory
  end.

(** ** Shapes of the world after a run *)

(** The world after the downstream handler ran. *)
Definition after_next (w : world) (more : list event) : world :=
  World (now w)
        (Redis (isOpen (client w) && negb (drops_midway (env w)))
               (db (client w)))
        (env w) (trace w ++ more).

(** The ways a request passes the middleware, each with the answer and
    the world it leaves. *)
Inductive middleware_case `{JsonCodec payload} (ttl : Z)
    (handler : request → response payload) (req : request) (w : world)
    : outcome (response payload) * world → Prop :=
| case_not_GET :
    method req ≠ "GET" →
    middleware_case ttl handler req w
      (Returned (handler req), after_next w [Next])
| case_closed :
    method req = "GET" → isOpen (client w) = false →
    middleware_case ttl handler req w
      (Returned (handler req), after_next w [Log LogSkipCache; Next])
| case_get_fails :
    method req = "GET" → isOpen (client w) = true →
    get_fails (env w) (cacheKey req) = true →
    middleware_case ttl handler req w
      (Returned (handler req),
       after_next w [Get (cacheKey req); Log LogMiddlewareError; Next])
| case_hit s d :
    method req = "GET" → isOpen (client w) = true →
    get_fails (env w) (cacheKey req) = false →
    lookup_live (now w) (client w) (cacheKey req) = Some s → s ≠ EmptyString →
    JSON_parse s = Some d →
    middleware_case ttl handler req w
      (Returned (Response 200 d),
       World (now w) (client w) (env w)
             (trace w ++ [Get (cacheKey req); Log (LogHit (cacheKey req))]))
| case_corrupt s :
    method req = "GET" → isOpen (client w) = true →
    get_fails (env w) (cacheKey req) = false →
    lookup_live (now w) (client w) (cacheKey req) = Some s → s ≠ EmptyString →
    JSON_parse s = None →
    middleware_case ttl handler req w
      (Returned (handler req),
       after_next w [Get (cacheKey req); Log (LogHit (cacheKey req));
                     Log LogMiddlewareError; Next])
| case_miss_dropped :
    method req = "GET" → isOpen (client w) = true →
    get_fails (env w) (cacheKey req) = false →
    truthy_string (lookup_live (now w) (client w) (cacheKey req)) = false →
    drops_midway (env w) = true →
    middleware_case ttl handler req w
      (Returned (handler req), after_next w [Get (cacheKey req); Next])
| case_miss_set_fails :
    method req = "GET" → isOpen (client w) = true →
    get_fails (env w) (cacheKey req) = false →
    truthy_string (lookup_live (now w) (client w) (cacheKey req)) = false →
    drops_midway (env w) = false →
    setEx_fails (env w) (cacheKey req) = true →
    middleware_case ttl handler req w
      (Returned (handler req),
       after_next w [Get (cacheKey req); Next;
                     SetEx (cacheKey req) ttl (body (handler req));
                     Log LogSetError])
| case_miss_stored :
    method req = "GET" → isOpen (client w) = true →
    get_fails (env w) (cacheKey req) = false →
    truthy_string (lookup_live (now w) (client w) (cacheKey req)) = false →
    drops_midway (env w) = false →
    setEx_fails (env w) (cacheKey req) = false →
    middleware_case ttl handler req w
      (Returned (handler req),
       World (now w)
             (Redis true
                (<[cacheKey req := Entry (body (handler req)) (now w + ttl)]>
                   (db (client w))))
             (env w)
             (trace w ++ [Get (cacheKey req); Next;
                          SetEx (cacheKey req) ttl (body (handler req));
                          Log (LogCached (cacheKey req))])).

(** The cache-related errors a request can meet: the store is
    unreachable, [get] is rejected, the stored text does not decode, the
    write is rejected, or the connection is lost before the write. *)
Inductive cache_error `{JsonCodec payload} (req : request)
    (t : Z) (c : redis) (f : faults) : Prop :=
| store_unreachable :
    isOpen c = false → cache_error req t c f
| get_rejected :
    isOpen c = true → get_fails f (cacheKey req) = true →
    cache_error req t c f
| decode_failed s :
    isOpen c = true → get_fails f (cacheKey req) = false →
    lookup_live t c (cacheKey req) = Some s → s ≠ EmptyString →
    JSON_parse s = None →
    cache_error req t c f
| set_rejected :
    isOpen c = true → get_fails f (cacheKey req) = false →
    truthy_string (lookup_live t c (cacheKey req)) = false →
    setEx_fails f (cacheKey req) = true →
    cache_error req t c f
| connection_lost :
    isOpen c = true → get_fails f (cacheKey req) = false →
    truthy_string (lookup_live t c (cacheKey req)) = false →
    drops_midway f = true →
    cache_error req t c f.

(** ** Reading a trace *)

Definition is_store_command (e : event) : bool :=
  match e with
  | Get _ | SetEx _ _ _ | Keys _ | Del _ => true
  | _ => false
  end.

Definition is_next (e : event) : bool :=
  match e with Next => true | _ => false end.

Definition is_log (e : event) : bool :=
  match e with Log _ => true | _ => false end.

(** The commands sent to the store during a run. *)
Definition store_commands (tr : list event) : list event :=
  filter (λ e, is_store_command e = true) tr.

(** How often the downstream handler ran. *)
Definition handler_calls (tr : list event) : nat :=
  length (filter (λ e, is_next e = true) tr).

(** Everything but the console output. *)
Definition actions (tr : list event) : list event :=
  filter (λ e, is_log e = false) tr.

(** The key a store command reads or writes. *)
Definition command_key (e : event) : option string :=
  match e with
  | Get k | SetEx k _ _ => Some k
  | _ => None
  end.

(** The patterns handed to [clearCache], in order. *)
Definition clear_calls (tr : list event) : list string :=
  omap (λ e, match e with ClearCache p => Some p | _ => None end) tr.

(** The writing statements that went through, in order. *)
Definition commits (tr : list event) : list statement :=
  omap (λ e, match e with Commit q => Some q | _ => None end) tr.

(** What happened before the first write went through. *)
Fixpoint before_commit (tr : list event) : list event :=
  match tr with
  | [] => []
  | Commit _ :: _ => []
  | e :: tr' => e :: before_commit tr'
  end.

(** ** What a mutation is expected to invalidate *)

(** The patterns of [clearTransactionCache] and [clearAnalyticsCache]. *)
Definition transaction_patterns (owner : option Z) : list string :=
  [ "cache:*/transactions*:" +:+ from_option pretty "*" owner;
    "cache:*/analytics*:" +:+ from_option pretty "*" owner ].

(** The owner of the transaction a mutation touches: the target of a
    creation, the [user_id] of the row the database hands back for an
    update or a deletion. *)
Definition touched_owner (op : mutation) (pool : database)
    (req : mutation_request) : option Z :=
  match op with
  | CreateTransaction =>
      match m_target req with
      | Some target =>
          if String.eqb (m_role req) "admin" then Some target
          else Some (m_user_id req)
      | None => Some (m_user_id req)
      end
  | UpdateTransaction =>
      match pool (UPDATE_transaction (m_param_id req) (m_category_id req)) with
      | Some (updated :: _) => field_number "user_id" updated
      | _ => None
      end
  | DeleteTransaction =>
      match pool (SELECT_transaction_owner (m_param_id req) (owner_filter req)) with
      | Some (found :: _) => field_number "user_id" found
      | _ => None
      end
  | _ => None
  end.

Definition invalidations (op : mutation) (pool : database)
    (req : mutation_request) : list string :=
  match op with
  | CreateTransaction | UpdateTransaction | DeleteTransaction =>
      transaction_patterns (touched_owner op pool req)
  | CreateCategory | UpdateCategory | DeleteCategory =>
      ["cache:*/categories*"]
  end.

(** An UPDATE of a transaction hands back the row it wrote; the other
    writing statements need not. *)
Definition row_returned (pool : database) (q : statement) : bool :=
  match q with
  | UPDATE_transaction _ _ =>
      match pool q with
      | Some (_ :: _) => true
      | _ => false
      end
  | _ => true
  end.

(** ** Sample requests, stores and handlers *)

Definition alice : user := {| user_id := IdNumber 1; user_role := "user" |}.
Definition bob : user := {| user_id := IdNumber 2; user_role := "user" |}.
Definition zero : user := {| user_id := IdNumber 0; user_role := "user" |}.

Definition get_as (url : string) (u : option user) : request :=
  {| method := "GET"; originalUrl := url; req_user := u |}.

Definition post_as (url : string) (u : option user) : request :=
  {| method := "POST"; originalUrl := url; req_user := u |}.

Definition empty_store : redis := Redis true ∅.
Definition closed_store : redis := Redis false ∅.

(** [{success:true,data:{categories:[...]}}] *)
Definition categories_payload : json :=
  JObject [("success", JBool true);
           ("data", JObject
              [("categories",
                JArray [JObject [("id", JNumber 1); ("name", JString "Food");
                                 ("type", JString "expense")];
                        JObject [("id", JNumber 2); ("name", JString "Salary");
                                 ("type", JString "income")]])])].

Definition getCategories_stub (_ : request) : response json :=
  Response 200 categories_payload.

(** A handler that answers each principal with its own id. *)
Definition whoami_stub (req : request) : response json :=
  Response 200
    (JObject [("success", JBool true);
              ("user", match req_user req with
                       | Some u => JString (id_to_string (user_id u))
                       | None => JNull
                       end)]).

(** A store whose every command is rejected. *)
Definition all_fail : faults :=
  Faults (λ _, true) (λ _, true) (λ _, true) (λ _, true) false.


(** A store that already holds the categories answer for anonymous
    readers, written at second 0 for an hour. *)
Definition warm_store : redis :=
  Redis true {[ "cache:/api/categories:anonymous"
                := Entry (json_stringify categories_payload) 3600 ]}.

(** A store with entries of two principals in three resource areas,
    all written at second 0. *)
Definition busy_store : redis :=
  Redis true
    (list_to_map
       [("cache:/api/transactions?page=1:7", Entry "{}" 300);
        ("cache:/api/transactions/12:7", Entry "{}" 600);
        ("cache:/api/analytics/monthly:7", Entry "{}" 900);
        ("cache:/api/categories:7", Entry "{}" 3600);
        ("cache:/api/transactions?page=1:8", Entry "{}" 300)]).

(** A database with users, one expense category, and room for rows. *)
Definition ledger : database := λ q,
  match q with
  | SELECT_user id => Some [[("id", JNumber id)]]
  | SELECT_category id =>
      Some [[("id", JNumber id); ("type", JString "expense")]]
  | INSERT_transaction _ _ => Some [[("id", JNumber 55)]]
  | DELETE_user _ => Some []
  | _ => None
  end.

(** Principal 7 records an expense of their own. *)
Definition expense_of_7 : mutation_request :=
  {| m_user_id := 7; m_role := "user"; m_param_id := 0; m_errors := [];
     m_type := "expense"; m_category_id := 1; m_target := None;
     m_name := EmptyString |}.

(** The administrator (principal 1) removes the account of principal 7. *)
Definition removal_of_7 : mutation_request :=
  {| m_user_id := 1; m_role := "admin"; m_param_id := 7; m_errors := [];
     m_type := EmptyString; m_category_id := 0; m_target := None;
     m_name := EmptyString |}.


(** * More of the cache layer, the controllers, the guards and the listings *)

(** ** More of the cache layer: patterns and keys *)

Definition star : ascii := "*"%char.

(** Does [s] hold [frag] somewhere? *)
Fixpoint infix (frag s : string) : bool :=
  is_Some_bool (strip_prefix frag s) ||
  match s with
  | EmptyString => false
  | String _ s' => infix frag s'
  end.

(** [`cache:*:${userId}`], the pattern of [clearUserCache]. *)
Definition user_pattern (userId : Z) : string :=
  "cache:*:" +:+ pretty userId.

(** [`cache:*${fragment}*:${userId}`], the pattern of [clearAnalyticsCache]
    (fragment [/analytics]) and [clearTransactionCache] ([/transactions]);
    the default argument ['*'] is [None]. *)
Definition area_pattern (fragment : string) (userId : option Z) : string :=
  "cache:*" +:+ fragment +:+ "*:" +:+ from_option pretty "*" userId.

(** A store with one page of principal 7 and one of principal 17. *)
Definition two_principals : redis :=
  Redis true
    (list_to_map
       [("cache:/api/transactions?page=1:7", Entry "{}" 300);
        ("cache:/api/transactions?page=1:17", Entry "{}" 300)]).

Definition carol : user := {| user_id := IdNumber 7; user_role := "user" |}.
Definition dave : user := {| user_id := IdNumber 17; user_role := "user" |}.

(** A lookup that fails: the handler answers 404. *)
Definition not_found_stub (_ : request) : response json :=
  Response 404 (answer false "Category not found").

(** ** More controllers *)

(** [{ ...o, k: v }] where [v] may be undefined: a key whose value is
    undefined is left out when the answer is serialised. *)
Definition set_optional (k : string) (v : option json) (o : row) : row :=
  match v with
  | Some v => set_field k v o
  | None => filter (λ kv, kv.1 ≠ k) o
  end.

(** The admin controller, createTransactionForUser; the target is
    [parseInt(req.params.userId)], read here from [m_param_id]. *)
Definition createTransactionForUser (pool : database) (req : mutation_request)
    : M (response json) :=
  try_catch
    (match m_errors req with
     | _ :: _ => mret (validation_failed (m_errors req))
     | [] =>
         let targetUserId := m_param_id req in
         userExists ← pool_query pool (SELECT_user targetUserId);
         match userExists with
         | [] => mret (Response 404 (answer false "Target user not found"))
         | found :: _ =>
             categoryResult ← pool_query pool (SELECT_category (m_category_id req));
             match categoryResult with
             | [] => mret (Response 400 (answer false "Invalid category ID"))
             | category :: _ =>
                 if decide (field_string "type" category = Some (m_type req)) then
                   result ← pool_query pool
                     (INSERT_transaction targetUserId (m_category_id req));
                   let newTransaction := head result in
                   clearTransactionCache (Some targetUserId);;
                   clearAnalyticsCache (Some targetUserId);;
                   mret (Response 201
                     (JObject
                        [("success", JBool true);
                         ("message", JString
                            ("Transaction created successfully for user "
                             +:+ default "undefined"
                                   (field_string "username" found)));
                         ("data", JObject
                            [("transaction", JObject
                                (set_optional "username" (field "username" found)
                                   (set_field "user_id" (JNumber targetUserId)
                                      (set_optional "category_name"
                                         (field "name" category)
                                         (spread newTransaction
                                            [("category_id",
                                              JNumber (m_category_id req))])))))])]))
                 else mret (Response 400 (answer false
                   ("Category type ("
                    +:+ default "undefined" (field_string "type" category)
                    +:+ ") does not match transaction type ("
                    +:+ m_type req +:+ ")")))
             end
         end
     end)
    (console LogControllerError;; mret internal_error).

(** The status a mutation answers when it went through: 201 for a
    creation, the default 200 otherwise. *)
Definition success_status (op : mutation) : Z :=
  match op with
  | CreateTransaction | CreateCategory => 201
  | _ => 200
  end.

(** A database in which transaction 12 belongs to principal 7, and
    category 1 is in use. *)
Definition books : database := λ q,
  match q with
  | SELECT_transaction_owner 12 None
  | SELECT_transaction_owner 12 (Some 7) => Some [[("user_id", JNumber 7)]]
  | SELECT_transaction_owner _ _ => Some []
  | SELECT_category id =>
      Some [[("id", JNumber id); ("type", JString "expense");
             ("name", JString "Food")]]
  | UPDATE_transaction id _ => Some [[("id", JNumber id); ("user_id", JNumber 7)]]
  | DELETE_transaction _ => Some []
  | SELECT_user id => Some [[("id", JNumber id); ("username", JString "carol")]]
  | INSERT_transaction _ _ => Some [[("id", JNumber 56)]]
  | COUNT_transactions_of_category 1 => Some [[("count", JString "3")]]
  | COUNT_transactions_of_category _ => Some [[("count", JString "0")]]
  | SELECT_category_by_name _ => Some []
  | SELECT_other_category_by_name _ _ => Some []
  | INSERT_category _ | UPDATE_category _ _ => Some [[("id", JNumber 9)]]
  | DELETE_category _ | DELETE_user _ => Some []
  end.

(** What user 7 sends about transaction 12 and category 2. *)
Definition change_12_as_7 : mutation_request :=
  {| m_user_id := 7; m_role := "user"; m_param_id := 12; m_errors := [];
     m_type := "expense"; m_category_id := 2; m_target := None;
     m_name := EmptyString |}.

(** User 8 records an expense and names user 7 as its owner. *)
Definition expense_of_8_for_7 : mutation_request :=
  {| m_user_id := 8; m_role := "user"; m_param_id := 0; m_errors := [];
     m_type := "expense"; m_category_id := 1; m_target := Some 7;
     m_name := EmptyString |}.

(** The administrator, user 1, addresses the resource with id [id]: a
    user to remove or to book an expense for, or a category to rename
    or to remove. *)
Definition admin_on (id : Z) : mutation_request :=
  {| m_user_id := 1; m_role := "admin"; m_param_id := id; m_errors := [];
     m_type := "expense"; m_category_id := 1; m_target := None;
     m_name := "Travel" |}.

(** ** middleware/auth.js *)

(** What a middleware of a route does with a request: it calls [next()],
    or it answers itself. *)
Inductive verdict :=
| Pass
| Answer (r : response json).

(** [s.split(sep)] for a separator of one character. *)
Fixpoint split_on (sep : ascii) (s : string) : list string :=
  match s with
  | EmptyString => [EmptyString]
  | String a s' =>
      if decide (a = sep) then EmptyString :: split_on sep s'
      else match split_on sep s' with
           | piece :: pieces => String a piece :: pieces
           | [] => [String a EmptyString]
           end
  end.

Definition space : ascii := " "%char.

(** [authHeader && authHeader.split(' ')[1]], when it is truthy. *)
Definition token_of (authHeader : option string) : option string :=
  match authHeader with
  | None => None
  | Some header =>
      match split_on space header !! 1%nat with
      | Some token => if decide (token = EmptyString) then None else Some token
      | None => None
      end
  end.

(** What [jwt.verify] makes of a token; the library and the secret are
    collaborators. *)
Inductive verified :=
| Decoded (userId : Z)
| JsonWebTokenError
| TokenExpiredError
| OtherError.

(** How authenticateToken ends: [req.user] is set and [next()] called, or
    the request is answered; [logged] tells whether console.error ran. *)
Inductive authentication :=
| Authenticated (req_user : row)
| Rejected (r : response json) (logged : bool).

(** authenticateToken; [users id] is the answer of the pool to the SELECT
    of the user with that id, [None] when the query fails. *)
Definition authenticateToken (verify : string → verified)
    (users : Z → option (list row)) (authHeader : option string)
    : authentication :=
  match token_of authHeader with
  | None => Rejected (Response 401 (answer false "Access token required")) false
  | Some token =>
      match verify token with
      | Decoded userId =>
          match users userId with
          | Some [] => Rejected (Response 401 (answer false "User not found")) false
          | Some (found :: _) => Authenticated found
          | None =>
              Rejected (Response 500 (answer false "Authentication error")) true
          end
      | JsonWebTokenError =>
          Rejected (Response 403 (answer false "Invalid token")) false
      | TokenExpiredError =>
          Rejected (Response 403 (answer false "Token expired")) false
      | OtherError =>
          Rejected (Response 500 (answer false "Authentication error")) true
      end
  end.

(** [l.join(sep)] *)
Fixpoint join_with (sep : string) (l : list string) : string :=
  match l with
  | [] => EmptyString
  | [x] => x
  | x :: l' => x +:+ sep +:+ join_with sep l'
  end.

(** requireRole; [req_user] is [req.user], a row of the users table. *)
Definition requireRole (allowedRoles : list string) (req_user : option row)
    : verdict :=
  match req_user with
  | None => Answer (Response 401 (answer false "Authentication required"))
  | Some u =>
      if match field_string "role" u with
         | Some role => bool_decide (role ∈ allowedRoles)
         | None => false
         end
      then Pass
      else Answer (Response 403 (answer false
             ("Access denied. Required roles: "
              +:+ join_with ", " allowedRoles)))
  end.

(** requireWriteAccess *)
Definition requireWriteAccess (req_user : option row) : verdict :=
  match req_user with
  | None => Answer (Response 401 (answer false "Authentication required"))
  | Some u =>
      if decide (field_string "role" u = Some "read-only") then
        Answer (Response 403 (answer false "Read-only users cannot modify data"))
      else Pass
  end.

(** The role guard a router puts between authenticateToken and the
    handler of a route. *)
Inductive guard :=
| NoGuard
| WriteAccess                   (* requireWriteAccess *)
| Role (allowedRoles : list string).   (* requireRole(allowedRoles) *)

Definition guard_verdict (g : guard) (req_user : option row) : verdict :=
  match g with
  | NoGuard => Pass
  | WriteAccess => requireWriteAccess req_user
  | Role allowedRoles => requireRole allowedRoles req_user
  end.

(** The guards of the routes, in the order of the route tables. *)
Definition transaction_guards : list (string * string * guard) :=
  [ ("GET", "/", NoGuard);
    ("GET", "/summary", NoGuard);
    ("GET", "/:id", NoGuard);
    ("POST", "/", WriteAccess);
    ("PUT", "/:id", WriteAccess);
    ("DELETE", "/:id", WriteAccess) ].

Definition analytics_guards : list (string * string * guard) :=
  [ ("GET", "/monthly", NoGuard);
    ("GET", "/yearly", NoGuard);
    ("GET", "/categories", NoGuard);
    ("GET", "/trends", NoGuard);
    ("GET", "/dashboard", NoGuard) ].

Definition category_guards : list (string * string * guard) :=
  [ ("GET", "/", NoGuard);
    ("GET", "/stats", Role ["admin"]);
    ("GET", "/:id", NoGuard);
    ("POST", "/", Role ["admin"]);
    ("PUT", "/:id", Role ["admin"]);
    ("DELETE", "/:id", Role ["admin"]) ].

Definition admin_guards : list (string * string * guard) :=
  [ ("POST", "/users", Role ["admin"]);
    ("GET", "/users", Role ["admin"]);
    ("GET", "/stats", Role ["admin"]);
    ("GET", "/users/:id", Role ["admin"]);
    ("PUT", "/users/:id/role", Role ["admin"]);
    ("DELETE", "/users/:id", Role ["admin"]);
    ("POST", "/users/:userId/transactions", Role ["admin"]);
    ("GET", "/transactions", Role ["admin"]) ].

Definition guards_of (r : router) : list (string * string * guard) :=
  match r with
  | Transactions => transaction_guards
  | Analytics => analytics_guards
  | CategoriesRouter => category_guards
  | Admin => admin_guards
  end.

(** The guard of the first route of [r] with that verb and path. *)
Definition guard_of (r : router) (verb path : string) : guard :=
  match filter (λ x, x.1.1 = verb ∧ x.1.2 = path) (guards_of r) with
  | x :: _ => x.2
  | [] => NoGuard
  end.

(** A route as Express runs it: authenticateToken, the role guard, the
    rate limiter (a collaborator, which passes or answers), then the
    rest of the chain, which reads [req.user]. *)
Definition serve (verify : string → verified) (users : Z → option (list row))
    (g : guard) (limiter : verdict) (rest : row → M (response json))
    (authHeader : option string) : M (response json) :=
  match authenticateToken verify users authHeader with
  | Rejected r _ => mret r
  | Authenticated u =>
      match guard_verdict g (Some u) with
      | Answer r => mret r
      | Pass =>
          match limiter with
          | Answer r => mret r
          | Pass => rest u
          end
      end
  end.

(** A verifier that accepts the token tok-7 as user 7 and tok-1 as user 1,
    and a users table with a read-only user 7 and an administrator 1. *)
Definition sample_verify (token : string) : verified :=
  if decide (token = "tok-7") then Decoded 7
  else if decide (token = "tok-1") then Decoded 1
  else JsonWebTokenError.

Definition sample_users (id : Z) : option (list row) :=
  if decide (id = 7) then
    Some [[("id", JNumber 7); ("role", JString "read-only")]]
  else if decide (id = 1) then
    Some [[("id", JNumber 1); ("role", JString "admin")]]
  else Some [].

(** ** Listings: pages, filters and sorting *)

(** [parseInt(x) || d]: [parsed] is what parseInt made of the query
    parameter, [None] for NaN; NaN and 0 are falsy. *)
Definition or_default (parsed : option Z) (d : Z) : Z :=
  match parsed with
  | Some n => if decide (n = 0) then d else n
  | None => d
  end.

Record page_window := PageWindow {
  w_page : Z;
  w_limit : Z;
  w_offset : Z
}.

(** getTransactions and getUsers: page, limit and offset from
    [parseInt(req.query.page)] and [parseInt(req.query.limit)]. *)
Definition page_window_of (page limit : option Z) : page_window :=
  let page := or_default page 1 in
  let limit := Z.min (or_default limit 10) 100 in
  PageWindow page limit ((page - 1) * limit).

(** getAllTransactions: pageNum, limitNum and offset from
    [parseInt(page)] and [parseInt(limit)]; Math.max and Math.min hand a
    NaN on, and so does the product. *)
Definition clamped_window (page limit : option Z) : option page_window :=
  let pageNum := Z.max 1 <$> page in
  let limitNum := Z.min 100 <$> (Z.max 1 <$> limit) in
  p ← pageNum; l ← limitNum; Some (PageWindow p l ((p - 1) * l)).

(** [Math.ceil(a / b)] on integers, [b] not 0. *)
Definition ceil_div (a b : Z) : Z := - ((- a) / b).

Record pagination := Pagination {
  currentPage : Z;
  totalPages : Z;
  totalItems : Z;
  itemsPerPage : Z;
  hasNextPage : bool;
  hasPrevPage : bool
}.

(** The pagination object of getTransactions, getUsers and
    getAllTransactions. *)
Definition pagination_of (w : page_window) (totalItems : Z) : pagination :=
  let totalPages := ceil_div totalItems (w_limit w) in
  Pagination (w_page w) totalPages totalItems (w_limit w)
             (bool_decide (w_page w < totalPages))
             (bool_decide (w_page w > 1)).

(** A parameter of a statement. *)
Inductive sql_param :=
| PNumber (n : option Z)        (* a number, [None] for NaN *)
| PText (s : string).

(** The three variables of the code that builds a WHERE clause;
    [paramCount] is called paramIndex in getAllTransactions. *)
Record where_builder := WhereBuilder {
  whereConditions : list string;
  queryParams : list sql_param;
  paramCount : nat
}.

(** [$${paramCount}] *)
Definition placeholder (n : nat) : string := "$" +:+ pretty n.

(** [paramCount++; whereConditions.push(text); queryParams.push(v)] *)
Definition push (text : string → string) (v : sql_param) (b : where_builder)
    : where_builder :=
  let paramCount := S (paramCount b) in
  WhereBuilder (whereConditions b ++ [text (placeholder paramCount)])
               (queryParams b ++ [v]) paramCount.

(** [whereConditions.push(text); queryParams.push(v); paramIndex++] *)
Definition push_then_count (text : string → string) (v : sql_param)
    (b : where_builder) : where_builder :=
  WhereBuilder (whereConditions b ++ [text (placeholder (paramCount b))])
               (queryParams b ++ [v]) (S (paramCount b)).

(** The conditions of getTransactions, by the placeholder they use. *)
Definition by_user (p : string) : string := "t.user_id = " +:+ p.
Definition by_type (p : string) : string := "t.type = " +:+ p.
Definition by_category (p : string) : string := "t.category_id = " +:+ p.
Definition from_date (p : string) : string := "t.transaction_date >= " +:+ p.
Definition to_date (p : string) : string := "t.transaction_date <= " +:+ p.
Definition by_search (p : string) : string :=
  "(t.description ILIKE " +:+ p +:+ " OR c.name ILIKE " +:+ p +:+ ")".

Definition newline : string := String (ascii_of_nat 10) EmptyString.

(** The search condition of getAllTransactions, as its template lays it
    out. *)
Definition by_search_all (p : string) : string :=
  "(" +:+ newline
  +:+ "        t.description ILIKE " +:+ p +:+ " OR " +:+ newline
  +:+ "        c.name ILIKE " +:+ p +:+ " OR " +:+ newline
  +:+ "        u.username ILIKE " +:+ p +:+ " OR" +:+ newline
  +:+ "        u.first_name ILIKE " +:+ p +:+ " OR" +:+ newline
  +:+ "        u.last_name ILIKE " +:+ p +:+ newline
  +:+ "      )".

Definition transaction_conditions : list (string → string) :=
  [by_user; by_type; by_category; from_date; to_date; by_search].

Definition all_transaction_conditions : list (string → string) :=
  [by_search_all; by_type; by_category; by_user; from_date; to_date].

(** What a listing reads from [req.query]; a parameter that is absent
    is [None]. *)
Record listing_query := ListingQuery {
  q_user_id : option string;
  q_type : option string;
  q_category_id : option string;
  q_start_date : option string;
  q_end_date : option string;
  q_search : option string;
  q_sort_by : option string;
  q_sort_order : option string
}.

Section Listings.
(** The string functions of the runtime. *)
Variable parseInt : string → option Z.
Variable trim : string → string.
Variable toLowerCase : string → string.

Definition given (s : option string) : string := default EmptyString s.

(** getTransactions and getTransactionSummary: whose rows are listed. *)
Definition listed_user (role : string) (own : Z) (q : listing_query)
    : option Z :=
  if String.eqb role "admin" && truthy_string (q_user_id q)
  then parseInt (given (q_user_id q))
  else Some own.

(** getTransactions: the WHERE clause and its parameters. *)
Definition getTransactions_where (role : string) (own : Z) (q : listing_query)
    : where_builder :=
  let b := WhereBuilder ["t.user_id = $1"]
                        [PNumber (listed_user role own q)] 1 in
  let b := if truthy_string (q_type q)
              && bool_decide (given (q_type q) ∈ ["income"; "expense"])
           then push by_type (PText (given (q_type q))) b else b in
  let b := if truthy_string (q_category_id q)
           then push by_category
                     (PNumber (parseInt (given (q_category_id q)))) b
           else b in
  let b := if truthy_string (q_start_date q)
           then push from_date (PText (given (q_start_date q))) b else b in
  let b := if truthy_string (q_end_date q)
           then push to_date (PText (given (q_end_date q))) b else b in
  let b := if truthy_string (q_search q)
           then push by_search
                     (PText ("%" +:+ given (q_search q) +:+ "%")) b
           else b in
  b.

(** What a listing sends with its second statement: the number of the
    LIMIT placeholder, that of the OFFSET placeholder, and the
    parameters. *)
Record page_statement := PageStatement {
  limit_placeholder : nat;
  offset_placeholder : nat;
  sent_params : list sql_param
}.

(** getTransactions: [LIMIT $${paramCount + 1} OFFSET $${paramCount + 2}]
    and [queryParams.push(limit, offset)]. *)
Definition getTransactions_page (b : where_builder) (w : page_window)
    : page_statement :=
  PageStatement (paramCount b + 1) (paramCount b + 2)
                (queryParams b ++ [PNumber (Some (w_limit w));
                                   PNumber (Some (w_offset w))]).

(** [!isNaN(parseInt(s))] *)
Definition is_number (s : string) : bool := is_Some_bool (parseInt s).

(** getAllTransactions: the WHERE clause and its parameters; a parameter
    that is absent counts as the empty string. *)
Definition getAllTransactions_where (q : listing_query) : where_builder :=
  let b := WhereBuilder [] [] 1 in
  let b := if negb (String.eqb (trim (given (q_search q))) EmptyString)
           then push_then_count by_search_all
                  (PText ("%" +:+ trim (given (q_search q)) +:+ "%")) b
           else b in
  let b := if truthy_string (q_type q)
              && bool_decide (given (q_type q) ∈ ["income"; "expense"])
           then push_then_count by_type (PText (given (q_type q))) b else b in
  let b := if truthy_string (q_category_id q)
              && is_number (given (q_category_id q))
           then push_then_count by_category
                  (PNumber (parseInt (given (q_category_id q)))) b
           else b in
  let b := if truthy_string (q_user_id q) && is_number (given (q_user_id q))
           then push_then_count by_user
                  (PNumber (parseInt (given (q_user_id q)))) b
           else b in
  let b := if truthy_string (q_start_date q)
           then push_then_count from_date (PText (given (q_start_date q))) b
           else b in
  let b := if truthy_string (q_end_date q)
           then push_then_count to_date (PText (given (q_end_date q))) b
           else b in
  b.

(** getAllTransactions: [LIMIT $${paramIndex} OFFSET $${paramIndex + 1}]
    and [queryParams.push(limitNum, offset)]. *)
Definition getAllTransactions_page (b : where_builder) (w : page_window)
    : page_statement :=
  PageStatement (paramCount b) (paramCount b + 1)
                (queryParams b ++ [PNumber (Some (w_limit w));
                                   PNumber (Some (w_offset w))]).

(** getAllTransactions: the ORDER BY clause, from [sort_by] (by default
    transaction_date) and [sort_order] (by default desc). *)
Definition order_by (q : listing_query) : string :=
  let sort_by := default "transaction_date" (q_sort_by q) in
  let sort_order := default "desc" (q_sort_order q) in
  let validSortFields :=
    ["transaction_date"; "amount"; "type"; "category_name"; "username"] in
  let sortField :=
    if bool_decide (sort_by ∈ validSortFields) then sort_by
    else "transaction_date" in
  let sortDirection :=
    if String.eqb (toLowerCase sort_order) "asc" then "ASC" else "DESC" in
  let sortClause :=
    if String.eqb sortField "category_name" then "c.name"
    else if String.eqb sortField "username" then "u.username"
    else "t." +:+ sortField in
  sortClause +:+ " " +:+ sortDirection.

End Listings.

(** The conditions and the parameters of a builder are aligned: there
    are as many of the one as of the other, the counter is [first] plus
    their number, and the condition at position [i] (from 0) is one of
    [texts] with the placeholder [i + 1]. *)
Definition aligned (texts : list (string → string)) (first : nat)
    (b : where_builder) : Prop :=
  length (whereConditions b) = length (queryParams b)
  ∧ paramCount b = (first + length (queryParams b))%nat
  ∧ ∀ i text, whereConditions b !! i = Some text →
              ∃ g, g ∈ texts ∧ text = g (placeholder (S i)).

(** What parseInt makes of the strings of the samples. *)
Definition sample_parseInt (s : string) : option Z :=
  match read_number s with
  | Some (n, _) => Some n
  | None => None
  end.

Definition all_filters : listing_query :=
  ListingQuery (Some "7") (Some "expense") (Some "3") (Some "2024-01-01")
               (Some "2024-12-31") (Some "rent") (Some "amount") (Some "ASC").

(** ** The paginate helper *)

(** [items.slice(start, end)] for integers: a negative index counts from
    the end, and both are kept within the array. *)
Definition slice {A} (items : list A) (start finish : Z) : list A :=
  let len := Z.of_nat (length items) in
  let within k := if decide (k < 0) then Z.max (len + k) 0 else Z.min k len in
  let from := within start in
  let to := within finish in
  take (Z.to_nat (to - from)) (drop (Z.to_nat from) items).

(** paginate, for integers and a limit that is not 0. *)
Definition paginate {A} (items : list A) (page limit : Z)
    : list A * pagination :=
  let totalItems := Z.of_nat (length items) in
  let totalPages := ceil_div totalItems limit in
  let currentPage := Z.max 1 (Z.min page totalPages) in
  let startIndex := (currentPage - 1) * limit in
  let endIndex := startIndex + limit in
  (slice items startIndex endIndex,
   Pagination currentPage totalPages totalItems limit
              (bool_decide (currentPage < totalPages))
              (bool_decide (currentPage > 1))).

(** ** Facts about strings and decimal numerals *)

Lemma occurs_app c s t : occurs c (s +:+ t) = occurs c s || occurs c t.
Proof.
  induction s as [|a s IH]; simpl; [done|].
  destruct (decide (a = c)); [done|apply IH].
Qed.

Lemma pretty_N_char_no_colon x : pretty_N_char x ≠ colon.
Proof. unfold pretty_N_char, colon. by repeat case_match. Qed.

Lemma pretty_N_go_no_colon x s :
  occurs colon s = false → occurs colon (pretty_N_go x s) = false.
Proof.
  revert s. induction (N.lt_wf_0 x) as [x _ IH]; intros s Hs.
  assert (x = 0 ∨ 0 < x)%N as [->|Hx] by lia.
  - by rewrite pretty_N_go_0.
  - rewrite pretty_N_go_step by done. apply IH.
    + by apply N.div_lt.
    + simpl. destruct (decide _) as [E|_]; [|done].
      by destruct (pretty_N_char_no_colon _ E).
Qed.

Lemma pretty_N_no_colon (x : N) : occurs colon (pretty x) = false.
Proof.
  unfold pretty, pretty_N. case_decide; [done|].
  by apply pretty_N_go_no_colon.
Qed.

Lemma pretty_Z_no_colon (z : Z) : occurs colon (pretty z) = false.
Proof.
  destruct z as [|p|p]; unfold pretty, pretty_Z; [done|..].
  - apply pretty_N_no_colon.
  - rewrite occurs_app. simpl. apply pretty_N_no_colon.
Qed.

(** A decimal numeral never starts with the letter of the sentinel. *)
Lemma pretty_N_go_head x s :
  (0 < x)%N → ∃ c t, pretty_N_go x s = String c t ∧ c ≠ "a"%char.
Proof.
  revert s. induction (N.lt_wf_0 x) as [x _ IH]; intros s Hx.
  rewrite pretty_N_go_step by done.
  destruct (decide (x `div` 10 = 0)%N) as [->|Hd].
  - rewrite pretty_N_go_0. eexists _, _; split; [done|].
    unfold pretty_N_char. by repeat case_match.
  - apply IH; [by apply N.div_lt|by apply N.neq_0_lt_0].
Qed.

Lemma pretty_Z_not_anonymous (z : Z) : pretty z ≠ "anonymous".
Proof.
  destruct z as [|p|p]; unfold pretty, pretty_Z; [done|..].
  - unfold pretty, pretty_positive, pretty, pretty_N. case_decide; [done|].
    destruct (pretty_N_go_head (N.pos p) EmptyString) as (c & t & -> & Hc); [lia|].
    intros [= -> _]. done.
  - done.
Qed.

Lemma occurs_colon_mid u p : occurs colon (u +:+ ":" +:+ p) = true.
Proof. rewrite occurs_app. simpl. apply orb_true_r. Qed.

(** Splitting at the last colon is unambiguous. *)
Lemma split_last_colon u1 u2 p1 p2 :
  occurs colon p1 = false → occurs colon p2 = false →
  u1 +:+ ":" +:+ p1 = u2 +:+ ":" +:+ p2 → u1 = u2 ∧ p1 = p2.
Proof.
  intros H1 H2. revert u2.
  induction u1 as [|a u1 IH]; intros [|b u2] E.
  - by injection E.
  - injection E as _ E. change (EmptyString +:+ p1) with p1 in E.
    pose proof (occurs_colon_mid u2 p2). congruence.
  - injection E as _ E. change (EmptyString +:+ p2) with p2 in E.
    pose proof (occurs_colon_mid u1 p1). congruence.
  - injection E as -> E. destruct (IH _ E) as [-> ->]. done.
Qed.

(** ** The JSON codec reads back what it prints *)

Lemma string_app_cons c s t : String c s +:+ t = String c (s +:+ t).
Proof. reflexivity. Qed.

Lemma string_app_nil_l t : EmptyString +:+ t = t.
Proof. reflexivity. Qed.

Lemma string_app_assoc s t u : (s +:+ t) +:+ u = s +:+ t +:+ u.
Proof.
  induction s as [|c s IH]; [done|]. by rewrite !string_app_cons, IH.
Qed.

Lemma read_string_escape s rest :
  read_string (escape s +:+ String dquote rest) = Some (s, rest).
Proof.
  induction s as [|c s IH]; [done|].
  cbn [escape]. destruct (decide (c = dquote ∨ c = backslash)) as [Hc|Hc].
  - rewrite !string_app_cons. cbn [read_string].
    destruct (decide (backslash = dquote)); [done|].
    destruct (decide (backslash = backslash)); [|done]. by rewrite IH.
  - rewrite string_app_cons. cbn [read_string].
    destruct (decide (c = dquote)); [tauto|].
    destruct (decide (c = backslash)); [tauto|]. by rewrite IH.
Qed.

Lemma digit_of_pretty_N_char d :
  (d < 10)%N → digit_of (pretty_N_char d) = Some d.
Proof.
  intros Hd.
  assert (d = 0 ∨ d = 1 ∨ d = 2 ∨ d = 3 ∨ d = 4 ∨ d = 5 ∨ d = 6 ∨ d = 7
          ∨ d = 8 ∨ d = 9)%N as Hcases by lia.
  repeat (destruct Hcases as [->|Hcases]; [reflexivity|]). by subst.
Qed.

Lemma pretty_N_go_app x s rest :
  pretty_N_go x (s +:+ rest) = pretty_N_go x s +:+ rest.
Proof.
  revert s. induction (N.lt_wf_0 x) as [x _ IH]; intros s.
  destruct (decide (x = 0)%N) as [->|Hx]; [by rewrite !pretty_N_go_0|].
  rewrite (pretty_N_go_step x s), (pretty_N_go_step x (s +:+ rest)) by lia.
  apply (IH (x `div` 10)%N ltac:(apply N.div_lt; lia) (String _ s)).
Qed.

Lemma read_digits_pretty_N_go x s :
  read_digits 0 (pretty_N_go x s) = read_digits x s.
Proof.
  revert s. induction (N.lt_wf_0 x) as [x _ IH]; intros s.
  destruct (decide (x = 0)%N) as [->|Hx]; [by rewrite pretty_N_go_0|].
  rewrite pretty_N_go_step by lia.
  rewrite IH by (apply N.div_lt; lia).
  cbn [read_digits]. rewrite digit_of_pretty_N_char by (apply N.mod_lt; lia).
  f_equal. pose proof (N.div_mod x 10). lia.
Qed.

Lemma read_digits_stop acc rest :
  starts_with_digit rest = false → read_digits acc rest = (acc, rest).
Proof.
  destruct rest as [|c r]; [done|]. simpl.
  by destruct (digit_of c).
Qed.

Lemma pretty_N_go_digit x s :
  (0 < x)%N → ∃ c r, pretty_N_go x s = String c r ∧ is_Some (digit_of c).
Proof.
  revert s. induction (N.lt_wf_0 x) as [x _ IH]; intros s Hx.
  rewrite pretty_N_go_step by done.
  destruct (decide (x `div` 10 = 0)%N) as [->|Hd].
  - rewrite pretty_N_go_0. eexists _, _; split; [done|].
    rewrite digit_of_pretty_N_char by (apply N.mod_lt; lia). done.
  - apply IH; [apply N.div_lt; lia|by apply N.neq_0_lt_0].
Qed.

Lemma read_natural_digit c r :
  is_Some (digit_of c) →
  read_natural (String c r) = Some (read_digits 0 (String c r)).
Proof. intros [d Hd]. unfold read_natural. by rewrite Hd. Qed.

Lemma read_natural_pretty (x : N) rest :
  starts_with_digit rest = false →
  read_natural (pretty x +:+ rest) = Some (x, rest).
Proof.
  intros Hr. unfold pretty, pretty_N.
  destruct (decide (x = 0)%N) as [->|Hx].
  - rewrite string_app_cons, string_app_nil_l. unfold read_natural. simpl.
    by rewrite read_digits_stop.
  - rewrite <-pretty_N_go_app, string_app_nil_l.
    destruct (pretty_N_go_digit x rest) as (c & r & E & Hc); [lia|].
    rewrite E, read_natural_digit by done.
    rewrite <-E, read_digits_pretty_N_go. by rewrite read_digits_stop.
Qed.

Lemma read_number_pretty (z : Z) rest :
  starts_with_digit rest = false →
  read_number (pretty z +:+ rest) = Some (z, rest).
Proof.
  intros Hr. destruct z as [|p|p]; unfold pretty, pretty_Z.
  - rewrite string_app_cons, string_app_nil_l. unfold read_number, read_natural. simpl.
    by rewrite read_digits_stop.
  - unfold pretty, pretty_positive, read_number.
    pose proof (read_natural_pretty (N.pos p) rest Hr) as E.
    unfold pretty, pretty_N in *. destruct (decide (N.pos p = 0)%N); [done|].
    destruct (pretty_N_go_digit (N.pos p) EmptyString) as (c & r & Ec & [d Hc]); [lia|].
    rewrite Ec in *. rewrite string_app_cons in *.
    assert (strip_prefix "-" (String c (r +:+ rest)) = None) as ->.
    { simpl. destruct (decide _) as [<-|]; [done|done]. }
    rewrite E. done.
  - unfold read_number. rewrite string_app_assoc, string_app_cons, string_app_nil_l.
    simpl. unfold pretty, pretty_positive.
    rewrite (read_natural_pretty (N.pos p) rest Hr). simpl. done.
Qed.

Lemma joined_cons {A} (f : A → string) x l :
  joined f (x :: l)
  = match l with [] => f x | _ :: _ => f x +:+ "," +:+ joined f l end.
Proof. by destruct l. Qed.

Lemma pretty_Z_head (z : Z) :
  ∃ c r, pretty z = String c r ∧ (is_Some (digit_of c) ∨ c = "-"%char).
Proof.
  destruct z as [|p|p]; unfold pretty, pretty_Z.
  - eexists _, _. split; [done|]. left. by eexists.
  - unfold pretty, pretty_positive, pretty, pretty_N.
    destruct (decide (N.pos p = 0)%N); [done|].
    destruct (pretty_N_go_digit (N.pos p) EmptyString) as (c & r & E & Hc); [lia|].
    eexists _, _. split; [done|]. by left.
  - eexists _, _. split; [by rewrite string_app_cons|]. by right.
Qed.

(** The first character tells a number from the other documents. *)
Lemma parse_value_number fuel c r :
  is_Some (digit_of c) ∨ c = "-"%char →
  parse_value (S fuel) (String c r)
  = prod_map JNumber id <$> read_number (String c r).
Proof.
  intros Hc. cbn [parse_value].
  repeat (destruct (decide _) as [->|_];
          [by destruct Hc as [[d Hd]|Hd]; vm_compute in Hd|]).
  done.
Qed.

Lemma json_stringify_head v :
  ∃ c r, json_stringify v = String c r ∧ c ≠ "]"%char ∧ c ≠ "}"%char.
Proof.
  destruct v as [|[]|z|s|l|l]; try by (eexists _, _).
  destruct (pretty_Z_head z) as (c & r & E & Hc).
  exists c, r. split; [done|].
  split; intros ->; by destruct Hc as [[d Hd]|Hd]; vm_compute in Hd.
Qed.

Lemma strip_prefix_head c r a :
  c ≠ a → strip_prefix (String a EmptyString) (String c r) = None.
Proof. intros Hne. simpl. by destruct (decide (a = c)) as [<-|]. Qed.

Lemma stops_separator v c rest :
  c = ","%char ∨ c = "]"%char ∨ c = "}"%char → stops v (String c rest).
Proof. intros Hc. destruct v; try done. by destruct Hc as [->|[->| ->]]. Qed.

Section Loops.
Variable fuel : nat.
Hypothesis parse_item : ∀ v rest,
  (json_size v ≤ fuel)%nat → stops v rest →
  parse_value fuel (json_stringify v +:+ rest) = Some (v, rest).

Lemma parse_elems_joined l k rest :
  l ≠ [] → (length l ≤ k)%nat → Forall (λ v, (json_size v ≤ fuel)%nat) l →
  parse_elems (parse_value fuel) k
    (joined json_stringify l +:+ String "]" rest)
  = Some (l, rest).
Proof.
  revert k. induction l as [|x l IH]; intros k Hne Hk Hall; [done|].
  destruct k as [|k]; [simpl in Hk; lia|].
  apply Forall_cons in Hall as [Hx Hall].
  rewrite joined_cons. cbn [parse_elems]. destruct l as [|y l].
  - rewrite parse_item; [|done|apply stops_separator; tauto].
    destruct (decide ("]"%char = ","%char)); [done|].
    by destruct (decide ("]"%char = "]"%char)).
  - rewrite !string_app_assoc, string_app_cons, string_app_nil_l.
    rewrite parse_item; [|done|apply stops_separator; tauto].
    destruct (decide (","%char = ","%char)); [|done].
    rewrite IH; [done|done|simpl in *; lia|done].
Qed.

Lemma parse_members_joined (l : list (string * json)) k rest :
  l ≠ [] → (length l ≤ k)%nat →
  Forall (λ kv, (json_size kv.2 ≤ fuel)%nat) l →
  parse_members (parse_value fuel) k
    (joined (λ kv, quoted kv.1 +:+ ":" +:+ json_stringify kv.2) l
     +:+ String "}" rest)
  = Some (l, rest).
Proof.
  revert k. induction l as [|[key x] l IH]; intros k Hne Hk Hall; [done|].
  destruct k as [|k]; [simpl in Hk; lia|].
  apply Forall_cons in Hall as [Hx Hall]. simpl in Hx.
  rewrite joined_cons. cbn [parse_members]. destruct l as [|y l].
  - unfold quoted. cbn [fst snd].
    rewrite !string_app_assoc, !string_app_cons, !string_app_assoc, !string_app_cons, string_app_nil_l.
    cbn [strip_prefix]. destruct (decide (dquote = dquote)); [|done].
    rewrite read_string_escape.
    destruct (decide (":"%char = ":"%char)); [|done].
    rewrite ?string_app_nil_l.
    rewrite parse_item; [|done|apply stops_separator; tauto].
    destruct (decide ("}"%char = ","%char)); [done|].
    by destruct (decide ("}"%char = "}"%char)).
  - unfold quoted at 1. cbn [fst snd].
    rewrite !string_app_assoc, !string_app_cons, !string_app_assoc, !string_app_cons, !string_app_nil_l.
    cbn [strip_prefix]. destruct (decide (dquote = dquote)); [|done].
    rewrite read_string_escape.
    destruct (decide (":"%char = ":"%char)); [|done].
    rewrite ?string_app_nil_l, ?string_app_assoc, ?string_app_cons, ?string_app_nil_l.
    rewrite parse_item; [|done|apply stops_separator; tauto].
    destruct (decide (","%char = ","%char)); [|done].
    rewrite IH; [done|done|simpl in *; lia|done].
Qed.
End Loops.

Lemma sum_list_with_bound {A} (f : A → nat) l n :
  (sum_list_with f l ≤ n)%nat → Forall (λ x, (f x ≤ n)%nat) l.
Proof.
  revert n. induction l as [|x l IH]; intros n Hn; [constructor|].
  simpl in Hn. constructor; [lia|]. apply IH. lia.
Qed.

Lemma json_size_pos v : (0 < json_size v)%nat.
Proof. destruct v; simpl; lia. Qed.

Lemma sum_list_with_length {A} (f : A → nat) l :
  (∀ x, 0 < f x)%nat → (length l ≤ sum_list_with f l)%nat.
Proof.
  intros Hf. induction l as [|x l IH]; simpl; [lia|].
  specialize (Hf x). lia.
Qed.

(** Reading back what was printed. *)
Lemma parse_value_stringify fuel v rest :
  (json_size v ≤ fuel)%nat → stops v rest →
  parse_value fuel (json_stringify v +:+ rest) = Some (v, rest).
Proof.
  revert v rest. induction fuel as [|fuel IH]; intros v rest Hsize Hstop.
  { pose proof (json_size_pos v). lia. }
  destruct v as [|[]|z|s|l|l]; try reflexivity.
  - destruct (pretty_Z_head z) as (c & r & E & Hc).
    cbn [json_stringify]. rewrite E, string_app_cons, parse_value_number by done.
    rewrite <-string_app_cons, <-E, read_number_pretty by done. done.
  - cbn [json_stringify]. unfold quoted.
    rewrite string_app_cons, string_app_assoc, string_app_cons, string_app_nil_l.
    cbn [parse_value].
    repeat (destruct (decide _) as [Hd|_]; [by vm_compute in Hd|]).
    destruct (decide (dquote = dquote)); [|done].
    by rewrite read_string_escape.
  - cbn [json_stringify]. simpl in Hsize.
    rewrite !string_app_assoc, !string_app_cons, !string_app_nil_l.
    cbn [parse_value].
    repeat (destruct (decide ("["%char = _)) as [Hd|_]; [by vm_compute in Hd|]).
    destruct l as [|x l]; [done|].
    destruct (json_stringify_head x) as (c & r & E & Hc & _).
    rewrite joined_cons.
    assert (∀ tail, strip_prefix "]" (json_stringify x +:+ tail) = None) as Hno.
    { intros tail. rewrite E, string_app_cons. by apply strip_prefix_head. }
    assert (strip_prefix "]"
              (match l with
               | [] => json_stringify x
               | _ :: _ => json_stringify x +:+ "," +:+ joined json_stringify l
               end +:+ String "]" rest) = None) as ->.
    { destruct l; [apply Hno|]. rewrite string_app_assoc. apply Hno. }
    rewrite <-joined_cons.
    rewrite (parse_elems_joined fuel IH); [done|done| |].
    + pose proof (sum_list_with_length json_size (x :: l) json_size_pos). lia.
    + apply sum_list_with_bound. lia.
  - cbn [json_stringify]. simpl in Hsize.
    rewrite !string_app_assoc, !string_app_cons, !string_app_nil_l.
    cbn [parse_value].
    repeat (destruct (decide ("{"%char = _)) as [Hd|_]; [by vm_compute in Hd|]).
    destruct l as [|[key x] l]; [done|].
    assert (strip_prefix "}"
              (joined (λ kv, quoted kv.1 +:+ ":" +:+ json_stringify kv.2)
                 ((key, x) :: l) +:+ String "}" rest) = None) as ->.
    { rewrite joined_cons. unfold quoted at 1 2.
      destruct l; rewrite ?string_app_assoc, !string_app_cons; by apply strip_prefix_head. }
    rewrite (parse_members_joined fuel IH); [done|done| |].
    + pose proof (sum_list_with_length (λ kv : string * json, json_size kv.2)
                    ((key, x) :: l) (λ kv, json_size_pos kv.2)). lia.
    + apply sum_list_with_bound. lia.
Qed.

Lemma string_app_nil_r s : s +:+ EmptyString = s.
Proof. induction s as [|c s IH]; [done|]. by rewrite string_app_cons, IH. Qed.

Lemma string_length_app s t :
  String.length (s +:+ t) = (String.length s + String.length t)%nat.
Proof. induction s as [|c s IH]; [done|]. rewrite string_app_cons. simpl. by rewrite IH. Qed.

Lemma sum_le_length_joined {A} (g : A → nat) (f : A → string) l :
  Forall (λ x, (g x ≤ String.length (f x))%nat) l →
  (sum_list_with g l ≤ String.length (joined f l))%nat.
Proof.
  induction 1 as [|x l Hx Hl IH]; [done|].
  rewrite joined_cons. simpl sum_list_with. destruct l as [|y l].
  - simpl in *. lia.
  - rewrite !string_length_app. simpl String.length at 2. lia.
Qed.

Lemma json_size_le_length v :
  (json_size v ≤ String.length (json_stringify v))%nat.
Proof.
  remember (json_size v) as n eqn:Hn.
  assert (json_size v ≤ n)%nat as Hle by lia. rewrite Hn. clear Hn.
  revert v Hle. induction n as [|n IH]; intros v Hle.
  { pose proof (json_size_pos v). lia. }
  destruct v as [|[]|z|s|l|l]; try (simpl; lia).
  - destruct (pretty_Z_head z) as (c & r & E & _). simpl. rewrite E. simpl. lia.
  - cbn [json_size json_stringify]. simpl in Hle.
    rewrite !string_length_app. simpl String.length at 1.
    pose proof (sum_le_length_joined json_size json_stringify l) as Hs.
    assert (sum_list_with json_size l ≤ String.length (joined json_stringify l))%nat; [|lia].
    apply Hs. eapply Forall_impl; [apply (sum_list_with_bound json_size l n); lia|].
    intros x Hx. by apply IH.
  - cbn [json_size json_stringify]. simpl in Hle.
    rewrite !string_length_app. simpl String.length at 1.
    assert (sum_list_with (λ kv : string * json, json_size kv.2) l
            ≤ String.length
                (joined (λ kv, quoted kv.1 +:+ ":" +:+ json_stringify kv.2) l))%nat;
      [|lia].
    apply sum_le_length_joined.
    eapply Forall_impl;
      [apply (sum_list_with_bound (λ kv : string * json, json_size kv.2) l n); lia|].
    intros [key x] Hx. simpl in *. rewrite !string_length_app.
    specialize (IH x Hx). lia.
Qed.

(** The codec reads back every document it printed. *)
Lemma json_parse_stringify v : json_parse (json_stringify v) = Some v.
Proof.
  unfold json_parse.
  rewrite <-(string_app_nil_r (json_stringify v)) at 2.
  rewrite parse_value_stringify; [done| |by destruct v].
  pose proof (json_size_le_length v). lia.
Qed.

Lemma json_stringify_nonempty v : json_stringify v ≠ EmptyString.
Proof. by destruct (json_stringify_head v) as (c & r & -> & _). Qed.

(** ** How the middleware runs, case by case *)

Arguments cacheKey : simpl never.
Arguments glob_match : simpl never.

(** An event that differs from every event of an explicit trace. *)
Ltac not_in_trace :=
  let Hin := fresh "Hin" in
  intros; intros Hin; simpl in Hin;
  repeat (apply elem_of_cons in Hin as [?|Hin]; [done|]);
  by apply elem_of_nil in Hin.

Ltac run_M :=
  unfold cacheMiddleware, caching_json, parse_or_throw, invoke, clearCache,
    client_get, client_setEx, client_keys, client_del, client_isOpen,
    pool_query, console, emit, ask, set_client, throw, try_catch,
    mbind, M_bind, mret, M_ret;
  simpl.

Section MiddlewareRuns.
Context `{JsonCodec payload}.
Variables (ttl : Z) (handler : request → response payload).

Lemma run_not_GET req w :
  method req ≠ "GET" →
  cacheMiddleware ttl handler req w
  = (Returned (handler req), after_next w [Next]).
Proof.
  intros Hm. unfold cacheMiddleware.
  destruct (String.eqb_spec (method req) "GET") as [E|_]; [done|].
  reflexivity.
Qed.

Lemma run_closed req w :
  method req = "GET" → isOpen (client w) = false →
  cacheMiddleware ttl handler req w
  = (Returned (handler req), after_next w [Log LogSkipCache; Next]).
Proof.
  intros Hm Ho. destruct w as [t [o m] f tr]; simpl in *; subst o.
  run_M. rewrite Hm. simpl. unfold after_next. simpl.
  by rewrite <-app_assoc.
Qed.

Lemma run_get_fails req w :
  method req = "GET" → isOpen (client w) = true →
  get_fails (env w) (cacheKey req) = true →
  cacheMiddleware ttl handler req w
  = (Returned (handler req),
     after_next w [Get (cacheKey req); Log LogMiddlewareError; Next]).
Proof.
  intros Hm Ho Hf. destruct w as [t [o m] f tr]; simpl in *; subst o.
  run_M. rewrite Hm. simpl. rewrite Hf. simpl. unfold after_next. simpl.
  by rewrite <-!app_assoc.
Qed.

Lemma run_hit req w s d :
  method req = "GET" → isOpen (client w) = true →
  get_fails (env w) (cacheKey req) = false →
  lookup_live (now w) (client w) (cacheKey req) = Some s → s ≠ EmptyString →
  JSON_parse s = Some d →
  cacheMiddleware ttl handler req w
  = (Returned (Response 200 d),
     World (now w) (client w) (env w)
           (trace w ++ [Get (cacheKey req); Log (LogHit (cacheKey req))])).
Proof.
  intros Hm Ho Hf Hl Hs Hp. destruct w as [t [o m] f tr]; simpl in *; subst o.
  run_M. rewrite Hm. simpl. rewrite Hf. simpl. rewrite Hl. simpl.
  destruct (String.eqb_spec s EmptyString) as [|_]; [done|]. simpl.
  rewrite Hp. by rewrite <-!app_assoc.
Qed.
Lemma run_corrupt req w s :
  method req = "GET" → isOpen (client w) = true →
  get_fails (env w) (cacheKey req) = false →
  lookup_live (now w) (client w) (cacheKey req) = Some s → s ≠ EmptyString →
  JSON_parse s = None →
  cacheMiddleware ttl handler req w
  = (Returned (handler req),
     after_next w [Get (cacheKey req); Log (LogHit (cacheKey req));
                   Log LogMiddlewareError; Next]).
Proof.
  intros Hm Ho Hf Hl Hs Hp. destruct w as [t [o m] f tr]; simpl in *; subst o.
  run_M. rewrite Hm. simpl. rewrite Hf. simpl. rewrite Hl. simpl.
  destruct (String.eqb_spec s EmptyString) as [|_]; [done|]. simpl.
  rewrite Hp. unfold after_next. simpl. by rewrite <-!app_assoc.
Qed.

(** A miss: nothing live under the key, or the empty string. *)
Lemma run_miss_dropped req w :
  method req = "GET" → isOpen (client w) = true →
  get_fails (env w) (cacheKey req) = false →
  truthy_string (lookup_live (now w) (client w) (cacheKey req)) = false →
  drops_midway (env w) = true →
  cacheMiddleware ttl handler req w
  = (Returned (handler req), after_next w [Get (cacheKey req); Next]).
Proof.
  intros Hm Ho Hf Hl Hd. destruct w as [t [o m] f tr]; simpl in *; subst o.
  run_M. rewrite Hm. simpl. rewrite Hf. simpl. rewrite Hl. simpl.
  rewrite Hd. simpl. unfold after_next. simpl. rewrite Hd.
  by rewrite <-!app_assoc.
Qed.

Lemma run_miss_set_fails req w :
  method req = "GET" → isOpen (client w) = true →
  get_fails (env w) (cacheKey req) = false →
  truthy_string (lookup_live (now w) (client w) (cacheKey req)) = false →
  drops_midway (env w) = false →
  setEx_fails (env w) (cacheKey req) = true →
  cacheMiddleware ttl handler req w
  = (Returned (handler req),
     after_next w [Get (cacheKey req); Next;
                   SetEx (cacheKey req) ttl (body (handler req));
                   Log LogSetError]).
Proof.
  intros Hm Ho Hf Hl Hd Hx. destruct w as [t [o m] f tr]; simpl in *; subst o.
  run_M. rewrite Hm. simpl. rewrite Hf. simpl. rewrite Hl. simpl.
  rewrite Hd. simpl. rewrite Hx. simpl. unfold after_next. simpl. rewrite Hd.
  by rewrite <-!app_assoc.
Qed.

Lemma run_miss_stored req w :
  method req = "GET" → isOpen (client w) = true →
  get_fails (env w) (cacheKey req) = false →
  truthy_string (lookup_live (now w) (client w) (cacheKey req)) = false →
  drops_midway (env w) = false →
  setEx_fails (env w) (cacheKey req) = false →
  cacheMiddleware ttl handler req w
  = (Returned (handler req),
     World (now w)
           (Redis true (<[cacheKey req := Entry (body (handler req)) (now w + ttl)]>
                          (db (client w))))
           (env w)
           (trace w ++ [Get (cacheKey req); Next;
                        SetEx (cacheKey req) ttl (body (handler req));
                        Log (LogCached (cacheKey req))])).
Proof.
  intros Hm Ho Hf Hl Hd Hx. destruct w as [t [o m] f tr]; simpl in *; subst o.
  run_M. rewrite Hm. simpl. rewrite Hf. simpl. rewrite Hl. simpl.
  rewrite Hd. simpl. rewrite Hx. simpl.
  by rewrite <-!app_assoc.
Qed.
Lemma truthy_string_Some (o : option string) :
  truthy_string o = true → ∃ s, o = Some s ∧ s ≠ EmptyString.
Proof.
  destruct o as [s|]; [|done]. simpl.
  destruct (String.eqb_spec s EmptyString); [done|]. eauto.
Qed.

(** Every run is one of the cases. *)
Lemma cacheMiddleware_cases req w :
  middleware_case ttl handler req w (cacheMiddleware ttl handler req w).
Proof.
  destruct (decide (method req = "GET")) as [Hm|Hm];
    [|rewrite run_not_GET by done; by constructor].
  destruct (isOpen (client w)) eqn:Ho;
    [|rewrite run_closed by done; by constructor].
  destruct (get_fails (env w) (cacheKey req)) eqn:Hg;
    [rewrite run_get_fails by done; by constructor|].
  destruct (truthy_string (lookup_live (now w) (client w) (cacheKey req)))
    eqn:Ht.
  - destruct (truthy_string_Some _ Ht) as (s & Hl & Hs).
    destruct (JSON_parse s) as [d|] eqn:Hp.
    + rewrite (run_hit req w s d) by done. by econstructor.
    + rewrite (run_corrupt req w s) by done. by econstructor.
  - destruct (drops_midway (env w)) eqn:Hd;
      [rewrite run_miss_dropped by done; by constructor|].
    destruct (setEx_fails (env w) (cacheKey req)) eqn:Hx.
    + rewrite run_miss_set_fails by done. by constructor.
    + rewrite run_miss_stored by done. by constructor.
Qed.
End MiddlewareRuns.

(** ** The cache key *)

(** The key format: [cache:<path-and-query>:<principal or anonymous>]. *)
Example cacheKey_of_principal_1 :
  cacheKey (get_as "/api/categories" (Some alice)) = "cache:/api/categories:1".
Proof. reflexivity. Qed.

Example cacheKey_of_nobody :
  cacheKey (get_as "/api/transactions?page=2" None)
  = "cache:/api/transactions?page=2:anonymous".
Proof. reflexivity. Qed.

Lemma principal_segment_principal r1 r2 :
  principal r1 = principal r2 →
  principal_segment (req_user r1) = principal_segment (req_user r2).
Proof.
  unfold principal. destruct (req_user r1) as [u1|], (req_user r2) as [u2|];
    simpl; intros E; try done.
  injection E as E. by rewrite E.
Qed.

Lemma cacheKey_same r1 r2 :
  originalUrl r1 = originalUrl r2 → principal r1 = principal r2 →
  cacheKey r1 = cacheKey r2.
Proof.
  intros Hu Hp. unfold cacheKey.
  by rewrite Hu, (principal_segment_principal _ _ Hp).
Qed.

Lemma principal_segment_no_colon r :
  table_principal r → occurs colon (principal_segment (req_user r)) = false.
Proof.
  unfold table_principal, principal.
  destruct (req_user r) as [[[n|s] ?]|]; simpl; try done.
  intros Hn. destruct (Z.eqb_spec n 0); [done|]. simpl.
  apply pretty_Z_no_colon.
Qed.

Lemma principal_segment_inj r1 r2 :
  table_principal r1 → table_principal r2 →
  principal_segment (req_user r1) = principal_segment (req_user r2) →
  principal r1 = principal r2.
Proof.
  unfold table_principal, principal.
  destruct (req_user r1) as [[[n1|s1] ?]|], (req_user r2) as [[[n2|s2] ?]|];
    simpl; try done.
  - intros H1 H2. destruct (Z.eqb_spec n1 0), (Z.eqb_spec n2 0); try done.
    simpl. intros E. by apply (inj pretty) in E as ->.
  - intros H1 _. destruct (Z.eqb_spec n1 0); [done|]. simpl.
    intros E. by destruct (pretty_Z_not_anonymous n1).
  - intros _ H2. destruct (Z.eqb_spec n2 0); [done|]. simpl.
    intros E. by destruct (pretty_Z_not_anonymous n2).
Qed.

(** C2, amended: on requests whose principal is absent or carries a
    non-zero integer id, the key composition is injective on
    (path+query, principal): the keys of two such requests are equal
    exactly when path+query and principal are equal; in particular two
    different such principals asking for the same path+query get
    different keys. *)
Theorem cacheKey_injective_on_table_principals (r1 r2 : request) :
  table_principal r1 → table_principal r2 →
  (cacheKey r1 = cacheKey r2
   ↔ originalUrl r1 = originalUrl r2 ∧ principal r1 = principal r2)
  ∧ (originalUrl r1 = originalUrl r2 → principal r1 ≠ principal r2 →
     cacheKey r1 ≠ cacheKey r2).
Proof.
  intros T1 T2.
  assert (cacheKey r1 = cacheKey r2 →
          originalUrl r1 = originalUrl r2 ∧ principal r1 = principal r2) as Inj.
  { unfold cacheKey. intros E. apply (inj (String.app "cache:")) in E.
    apply split_last_colon in E as [Hu Hp];
      [|by apply principal_segment_no_colon..].
    split; [done|]. by apply principal_segment_inj. }
  split.
  - split; [done|]. intros [Hu Hp]. by apply cacheKey_same.
  - intros _ Hne E. by destruct (Inj E).
Qed.

Lemma cacheKey_injective_on_table_principals_witness :
  table_principal (get_as "/api/transactions" (Some alice))
  ∧ table_principal (get_as "/api/transactions" (Some bob))
  ∧ cacheKey (get_as "/api/transactions" (Some alice))
    ≠ cacheKey (get_as "/api/transactions" (Some bob)).
Proof.
  split; [done|]. split; [done|].
  apply (cacheKey_injective_on_table_principals
           (get_as "/api/transactions" (Some alice))
           (get_as "/api/transactions" (Some bob))); [done|done|done|].
  vm_compute. congruence.
Defined.

(** C2, as stated, fails: a principal with id 0 and no principal at all
    differ, yet their requests to the same path+query share one key. *)
Lemma cacheKey_collision_falsy_id :
  principal (get_as "/api/transactions" (Some zero))
  ≠ principal (get_as "/api/transactions" None)
  ∧ cacheKey (get_as "/api/transactions" (Some zero))
    = cacheKey (get_as "/api/transactions" None).
Proof. split; [done|reflexivity]. Qed.

(** C9: a principal whose id is falsy (the number 0, the empty string) is
    keyed under the ['anonymous'] sentinel, so its requests read and write
    the entries of unauthenticated requests to the same path and query.
    The key is the anonymous one and every store command of a run goes
    to it.  Reading: when the store holds a live entry under the
    anonymous key, the principal's GET is answered with that entry and
    its own handler does not run.  Writing: on a miss the principal's
    answer is stored under the anonymous key, and the unauthenticated GET
    that follows before it lapses is answered with the principal's
    payload, without running the handler.  The run coincides with the
    one of the unauthenticated request whenever the handler answers both
    alike. *)
Theorem falsy_id_shares_anonymous_entries `{JsonCodec payload}
    (ttl : Z) (handler : request → response payload)
    (u : user) (m url : string) (t : Z) (c : redis) (f : faults) :
  truthy_id (user_id u) = false →
  let authenticated := {| method := m; originalUrl := url; req_user := Some u |} in
  let anonymous := {| method := m; originalUrl := url; req_user := None |} in
  let key := "cache:" +:+ url +:+ ":anonymous" in
  cacheKey authenticated = key
  ∧ cacheKey anonymous = key
  ∧ Forall (λ e, command_key e = Some key)
           (store_commands
              (trace (run (cacheMiddleware ttl handler authenticated) t c f).2))
  ∧ (∀ s d, m = "GET" → isOpen c = true → get_fails f key = false →
            lookup_live t c key = Some s → s ≠ EmptyString →
            JSON_parse s = Some d →
            run (cacheMiddleware ttl handler authenticated) t c f
            = (Returned (Response 200 d),
               World t c f [Get key; Log (LogHit key)]))
  ∧ (m = "GET" → isOpen c = true →
     truthy_string (lookup_live t c key) = false →
     let written :=
       run (cacheMiddleware ttl handler authenticated) t c no_faults in
     written.1 = Returned (handler authenticated)
     ∧ store_commands (trace written.2)
       = [Get key; SetEx key ttl (body (handler authenticated))]
     ∧ db (client written.2) !! key
       = Some (Entry (body (handler authenticated)) (t + ttl))
     ∧ ∀ t' d, t' < t + ttl →
               body (handler authenticated) ≠ EmptyString →
               JSON_parse (body (handler authenticated)) = Some d →
               run (cacheMiddleware ttl handler anonymous) t' (client written.2)
                   no_faults
               = (Returned (Response 200 d),
                  World t' (client written.2) no_faults
                        [Get key; Log (LogHit key)]))
  ∧ (handler authenticated = handler anonymous →
     run (cacheMiddleware ttl handler authenticated) t c f
     = run (cacheMiddleware ttl handler anonymous) t c f).
Proof.
  intros Hf authenticated anonymous key.
  assert (cacheKey authenticated = key) as E.
  { unfold cacheKey, authenticated, key. simpl. by rewrite Hf. }
  assert (cacheKey anonymous = key) as E' by reflexivity.
  split; [done|]. split; [done|]. split.
  { unfold run. rewrite <-E.
    destruct (cacheMiddleware_cases ttl handler authenticated
                (World t c f [])); simpl; repeat constructor. }
  split.
  { intros s d -> Ho Hg Hl Hs Hp. unfold run.
    rewrite (run_hit ttl handler authenticated (World t c f []) s d);
      simpl; rewrite ?E; done. }
  split.
  { intros -> Ho Hl written. subst written. unfold run.
    rewrite (run_miss_stored ttl handler authenticated
               (World t c no_faults [])); simpl; rewrite ?E; try done.
    split; [done|]. split; [done|].
    split; [by rewrite lookup_insert_eq|].
    intros t' d Ht Hne Hp.
    rewrite (run_hit ttl handler anonymous _ (body (handler authenticated)) d);
      simpl; rewrite ?E'; try done.
    unfold lookup_live; simpl. rewrite lookup_insert_eq. unfold live; simpl.
    by destruct (Z.ltb_spec t' (t + ttl)); [|lia]. }
  intros Hh. unfold run, cacheMiddleware, invoke. by rewrite E, E', Hh.
Qed.

Lemma falsy_id_shares_anonymous_entries_witness :
  let authenticated := get_as "/api/whoami" (Some zero) in
  let anonymous := get_as "/api/whoami" None in
  let written := run (cacheMiddleware 300 whoami_stub authenticated)
                     10 empty_store no_faults in
  truthy_id (user_id zero) = false
  ∧ whoami_stub authenticated ≠ whoami_stub anonymous
  ∧ db (client written.2) !! "cache:/api/whoami:anonymous"
    = Some (Entry (body (whoami_stub authenticated)) 310)
  ∧ (run (cacheMiddleware 300 whoami_stub anonymous) 20 (client written.2)
         no_faults).1
    = Returned (whoami_stub authenticated).
Proof.
  intros authenticated anonymous written.
  split; [reflexivity|]. split; [intros [=]|].
  destruct (falsy_id_shares_anonymous_entries 300 whoami_stub zero
              "GET" "/api/whoami" 10 empty_store no_faults eq_refl)
    as (_ & _ & _ & _ & Hwrite & _).
  destruct (Hwrite eq_refl eq_refl eq_refl) as (_ & _ & Hdb & Hread).
  split; [exact Hdb|].
  exact (f_equal fst
           (Hread 20 (sent (whoami_stub authenticated))
                  ltac:(lia) ltac:(vm_compute; intros [=]) eq_refl)).
Defined.

(** ** The middleware *)

Lemma handler_calls_app tr1 tr2 :
  handler_calls (tr1 ++ tr2) = (handler_calls tr1 + handler_calls tr2)%nat.
Proof. unfold handler_calls. by rewrite filter_app, length_app. Qed.

(** The middleware always answers: no run ends in an exception. *)
Lemma cacheMiddleware_answers `{JsonCodec payload} ttl
    (handler : request → response payload) req w :
  ∃ r w', cacheMiddleware ttl handler req w = (Returned r, w').
Proof. destruct (cacheMiddleware_cases ttl handler req w); eauto. Qed.

(** C7: a request that is not a GET, and any request while the store
    reports unavailable, passes without a cache read or write: the
    downstream handler is invoked directly and its answer is returned. *)
Theorem bypass_without_cache_access `{JsonCodec payload} (ttl : Z)
    (handler : request → response payload) (req : request)
    (t : Z) (c : redis) (f : faults) :
  method req ≠ "GET" ∨ isOpen c = false →
  ∃ w', run (cacheMiddleware ttl handler req) t c f
        = (Returned (handler req), w')
      ∧ store_commands (trace w') = []
      ∧ actions (trace w') = [Next]
      ∧ db (client w') = db c.
Proof.
  intros Hby. unfold run.
  destruct (decide (method req = "GET")) as [Hm|Hm].
  - destruct Hby as [?|Ho]; [done|].
    rewrite run_closed by done. eexists. split; [done|]. done.
  - rewrite run_not_GET by done. eexists. split; [done|]. done.
Qed.

Lemma bypass_without_cache_access_witness :
  (method (post_as "/api/transactions" (Some alice)) ≠ "GET"
   ∨ isOpen empty_store = false)
  ∧ ∃ w', run (cacheMiddleware 300 getCategories_stub
                 (post_as "/api/transactions" (Some alice)))
              0 empty_store no_faults
          = (Returned (getCategories_stub
                         (post_as "/api/transactions" (Some alice))), w')
        ∧ store_commands (trace w') = []
        ∧ actions (trace w') = [Next]
        ∧ db (client w') = db empty_store.
Proof.
  split; [left; done|].
  apply (bypass_without_cache_access 300 getCategories_stub
           (post_as "/api/transactions" (Some alice)) 0 empty_store no_faults).
  left. done.
Defined.

(** C5: whatever cache-related error a request meets (store unreachable,
    get or set rejected, stored text that does not decode, connection
    lost before the write), the middleware still answers with the
    downstream handler's result, content and status as on the route
    without a cache, and runs the handler once: the error is not
    surfaced as a failure of the request. *)
Theorem cache_errors_fail_open `{JsonCodec payload} (ttl : Z)
    (handler : request → response payload) (req : request)
    (t : Z) (c : redis) (f : faults) :
  cache_error req t c f →
  ∃ w', run (cacheMiddleware ttl handler req) t c f
        = (Returned (handler req), w')
      ∧ (run (invoke handler req) t c f).1 = Returned (handler req)
      ∧ handler_calls (trace w') = 1%nat.
Proof.
  intros E. unfold run.
  destruct (decide (method req = "GET")) as [Hm|Hm];
    [|rewrite run_not_GET by done; eexists; split; [done|]; done].
  destruct E as [Ho|Ho Hg|s Ho Hg Hl Hs Hp|Ho Hg Hl Hx|Ho Hg Hl Hd].
  - rewrite run_closed by done. eexists; split; [done|]; done.
  - rewrite run_get_fails by done. eexists; split; [done|]; done.
  - rewrite (run_corrupt ttl handler req _ s) by done.
    eexists; split; [done|]; done.
  - destruct (drops_midway f) eqn:Hd.
    + rewrite run_miss_dropped by done. eexists; split; [done|]; done.
    + rewrite run_miss_set_fails by done. eexists; split; [done|]; done.
  - rewrite run_miss_dropped by done. eexists; split; [done|]; done.
Qed.

Lemma cache_errors_fail_open_witness :
  cache_error (payload := json) (get_as "/api/categories" (Some alice))
              0 empty_store all_fail
  ∧ ∃ w', run (cacheMiddleware 3600 getCategories_stub
                 (get_as "/api/categories" (Some alice)))
              0 empty_store all_fail
          = (Returned (Response 200 categories_payload), w')
        ∧ (run (invoke getCategories_stub
                  (get_as "/api/categories" (Some alice)))
               0 empty_store all_fail).1
          = Returned (Response 200 categories_payload)
        ∧ handler_calls (trace w') = 1%nat.
Proof.
  assert (cache_error (payload := json)
            (get_as "/api/categories" (Some alice)) 0 empty_store all_fail)
    as E by (apply get_rejected; reflexivity).
  split; [exact E|].
  exact (cache_errors_fail_open 3600 getCategories_stub
           (get_as "/api/categories" (Some alice)) 0 empty_store all_fail E).
Defined.

(** What a run leaves in the store, and which writes it sends. *)
Lemma cacheMiddleware_store `{JsonCodec payload} ttl
    (handler : request → response payload) req t c f :
  let w' := (run (cacheMiddleware ttl handler req) t c f).2 in
  (db (client w') = db c ∧ ∀ k x v, SetEx k x v ∉ actions (trace w'))
  ∨ (method req = "GET" ∧ isOpen c = true
     ∧ get_fails f (cacheKey req) = false
     ∧ truthy_string (lookup_live t c (cacheKey req)) = false
     ∧ actions (trace w')
       = [Get (cacheKey req); Next;
          SetEx (cacheKey req) ttl (body (handler req))]
     ∧ (db (client w') = db c
        ∨ db (client w')
          = <[cacheKey req := Entry (body (handler req)) (t + ttl)]> (db c))).
Proof.
  unfold run. set (w := World t c f []).
  destruct (cacheMiddleware_cases ttl handler req w); simpl;
    try (left; split; [done|]; intros k x v Hin;
         repeat (apply elem_of_cons in Hin as [?|Hin]; [done|]);
         by apply elem_of_nil in Hin).
  - right. repeat split; try done. by left.
  - right. repeat split; try done. by right.
Qed.

Lemma elem_of_actions e tr : e ∈ actions tr ↔ e ∈ tr ∧ is_log e = false.
Proof. unfold actions. by rewrite list_elem_of_filter, (comm and). Qed.

(** C10: a cache hit never rewrites the entry or extends its TTL.  On a
    hit the only store command is the read and the store is left as it
    was; setEx is sent only on the miss path, after the handler answered;
    and every entry found after a run is either the one that was there
    before or the one this run wrote, lapsing [ttl] seconds after the
    write. *)
Theorem hit_never_rewrites `{JsonCodec payload} (ttl : Z)
    (handler : request → response payload) (req : request)
    (t : Z) (c : redis) (f : faults) :
  let w' := (run (cacheMiddleware ttl handler req) t c f).2 in
  (method req = "GET" → isOpen c = true →
   get_fails f (cacheKey req) = false →
   truthy_string (lookup_live t c (cacheKey req)) = true →
   db (client w') = db c ∧ store_commands (trace w') = [Get (cacheKey req)])
  ∧ (∀ k x v, SetEx k x v ∈ trace w' →
     truthy_string (lookup_live t c (cacheKey req)) = false
     ∧ actions (trace w') = [Get (cacheKey req); Next; SetEx k x v]
     ∧ k = cacheKey req ∧ x = ttl)
  ∧ (∀ k e, db (client w') !! k = Some e →
     db c !! k = Some e
     ∨ (SetEx k ttl (e_value e) ∈ trace w' ∧ e_expiry e = t + ttl)).
Proof.
  intros w'.
  pose proof (cacheMiddleware_store ttl handler req t c f) as S.
  cbv zeta in S. fold w' in S.
  destruct S as [[Hdb Hno]|(Hm & Ho & Hg & Hl & Hact & Hdb)].
  - split; [|split].
    + intros Hm Ho Hg Hl. split; [done|]. subst w'. unfold run.
      set (w := World t c f []).
      destruct (truthy_string_Some _ Hl) as (s & Hs & Hne).
      destruct (JSON_parse s) as [d|] eqn:Hp.
      * by rewrite (run_hit ttl handler req w s d).
      * by rewrite (run_corrupt ttl handler req w s).
    + intros k x v Hin. destruct (Hno k x v). by apply elem_of_actions.
    + intros k e He. left. by rewrite <-Hdb.
  - split; [|split].
    + intros _ _ _ Hl'. congruence.
    + intros k x v Hin.
      assert (SetEx k x v ∈ actions (trace w')) as Hin'
        by by apply elem_of_actions.
      rewrite Hact in Hin'.
      repeat (apply elem_of_cons in Hin' as [Heq|Hin']; [try done|]).
      * injection Heq as -> -> ->. done.
      * by apply elem_of_nil in Hin'.
    + intros k e He. destruct Hdb as [Hdb|Hdb]; rewrite Hdb in He; [by left|].
      destruct (decide (cacheKey req = k)) as [<-|Hne].
      * rewrite lookup_insert_eq in He. injection He as <-. right. simpl.
        split; [|done].
        assert (SetEx (cacheKey req) ttl (body (handler req))
                  ∈ actions (trace w')) as Hin by (rewrite Hact; set_solver).
        by apply elem_of_actions in Hin as [? _].
      * rewrite lookup_insert_ne in He by done. by left.
Qed.

Lemma hit_never_rewrites_witness :
  let w' := (run (cacheMiddleware 3600 getCategories_stub
                    (get_as "/api/categories" None))
                 10 warm_store no_faults).2 in
  truthy_string (lookup_live 10 warm_store
                   (cacheKey (get_as "/api/categories" None))) = true
  ∧ db (client w') = db warm_store
  ∧ store_commands (trace w')
    = [Get (cacheKey (get_as "/api/categories" None))].
Proof.
  intros w'.
  assert (truthy_string (lookup_live 10 warm_store
            (cacheKey (get_as "/api/categories" None))) = true) as Hl
    by reflexivity.
  split; [exact Hl|].
  exact (proj1 (hit_never_rewrites 3600 getCategories_stub
                  (get_as "/api/categories" None) 10 warm_store no_faults)
           eq_refl eq_refl eq_refl Hl).
Defined.






(** The stores the layer produces are decodable: the middleware only
    writes what the codec printed, and reads of a decodable store never
    meet a text that does not parse. *)
Lemma cacheMiddleware_keeps_decodable `{JsonCodec payload} ttl
    (handler : request → response payload) req t c f :
  is_Some (JSON_parse (body (handler req))) →
  decodable c →
  decodable (client (run (cacheMiddleware ttl handler req) t c f).2).
Proof.
  intros Hrt Hdec k e He Hne.
  pose proof (cacheMiddleware_store ttl handler req t c f) as S.
  cbv zeta in S.
  destruct S as [[Hdb _]|(_ & _ & _ & _ & _ & [Hdb|Hdb])];
    rewrite Hdb in He; try by apply (Hdec k e).
  destruct (decide (cacheKey req = k)) as [<-|Hk].
  - rewrite lookup_insert_eq in He. by injection He as <-.
  - rewrite lookup_insert_ne in He by done. by apply (Hdec k e).
Qed.

Lemma decodable_lookup_live `{JsonCodec payload} t c k s :
  decodable c → lookup_live t c k = Some s → s ≠ EmptyString →
  is_Some (JSON_parse s).
Proof.
  intros Hdec Hl Hs. unfold lookup_live in Hl.
  destruct (db c !! k) as [e|] eqn:He; [|done].
  destruct (live t e); [|done]. injection Hl as <-. by apply (Hdec k e).
Qed.

Lemma empty_store_decodable `{JsonCodec payload} : decodable empty_store.
Proof. intros k e He. simpl in He. by rewrite lookup_empty in He. Qed.

(** ** Invalidation *)

(** The patterns of the specification, on keys of the documented form. *)
Example glob_principal_42 :
  glob_match "cache:*:42" "cache:/api/categories:42" = true.
Proof. reflexivity. Qed.

Example glob_analytics_any_principal :
  glob_match "cache:*/analytics*:*" "cache:/api/analytics/monthly?year=2024:7"
  = true.
Proof. reflexivity. Qed.

Example glob_other_principal :
  glob_match "cache:*:7" "cache:/api/categories:17" = false.
Proof. reflexivity. Qed.

Example glob_categories_pattern :
  glob_match "cache:*/categories*" "cache:/api/categories?type=income:3" = true.
Proof. reflexivity. Qed.

Lemma elem_of_matching_keys t c pattern k :
  k ∈ matching_keys t c pattern
  ↔ glob_match pattern k = true ∧ is_Some (lookup_live t c k).
Proof.
  unfold matching_keys. rewrite list_elem_of_filter. split.
  - by intros [? _].
  - intros [Hg Hl]. split; [done|].
    unfold lookup_live in Hl.
    destruct (db c !! k) as [e|] eqn:He; [|by destruct Hl].
    apply list_elem_of_fmap. exists (k, e). split; [done|].
    by apply elem_of_map_to_list.
Qed.

Lemma NoDup_matching_keys t c pattern : NoDup (matching_keys t c pattern).
Proof. apply NoDup_filter, NoDup_fst_map_to_list. Qed.

(** A key that is not visible now stays invisible. *)
Lemma lookup_live_mono t t' c k :
  t ≤ t' → lookup_live t c k = None → lookup_live t' c k = None.
Proof.
  unfold lookup_live, live. destruct (db c !! k) as [e|]; [|done].
  destruct (Z.ltb_spec t (e_expiry e)); [done|].
  intros ? _. by destruct (Z.ltb_spec t' (e_expiry e)); [lia|].
Qed.

Lemma size_foldr_delete (m : gmap string entry) ks :
  NoDup ks → (∀ k, k ∈ ks → is_Some (m !! k)) →
  (size (foldr delete m ks) + length ks)%nat = size m.
Proof.
  induction 1 as [|k ks Hk Hnd IH]; intros Hin; simpl; [lia|].
  rewrite map_size_delete.
  rewrite lookup_foldr_delete_not_elem_of by done.
  destruct (Hin k) as [e He]; [set_solver|]. rewrite He.
  assert (size (foldr delete m ks) ≠ 0%nat).
  { intros Hz. apply map_size_empty_inv in Hz.
    pose proof (lookup_foldr_delete_not_elem_of m ks k Hk) as E.
    rewrite Hz, lookup_empty in E. congruence. }
  rewrite <-IH by (intros; apply Hin; set_solver). lia.
Qed.

(** How clearCache runs, case by case. *)
Lemma clearCache_closed pattern w :
  isOpen (client w) = false →
  clearCache pattern w
  = (Returned JsUndefined,
     World (now w) (client w) (env w)
           (trace w ++ [ClearCache pattern; Log LogSkipClear])).
Proof.
  intros Ho. destruct w as [t [o m] f tr]; simpl in *; subst o.
  run_M. by rewrite <-!app_assoc.
Qed.

Lemma clearCache_keys_fails pattern w :
  isOpen (client w) = true → keys_fails (env w) pattern = true →
  clearCache pattern w
  = (Returned JsUndefined,
     World (now w) (client w) (env w)
           (trace w ++ [ClearCache pattern; Keys pattern; Log LogClearError])).
Proof.
  intros Ho Hk. destruct w as [t [o m] f tr]; simpl in *; subst o.
  run_M. rewrite Hk. simpl. by rewrite <-!app_assoc.
Qed.

Lemma clearCache_nothing pattern w :
  isOpen (client w) = true → keys_fails (env w) pattern = false →
  matching_keys (now w) (client w) pattern = [] →
  clearCache pattern w
  = (Returned JsUndefined,
     World (now w) (client w) (env w)
           (trace w ++ [ClearCache pattern; Keys pattern])).
Proof.
  intros Ho Hk Hn. destruct w as [t [o m] f tr]; simpl in *; subst o.
  run_M. rewrite Hk. simpl. rewrite Hn. simpl. by rewrite <-!app_assoc.
Qed.

Lemma clearCache_del_fails pattern w :
  isOpen (client w) = true → keys_fails (env w) pattern = false →
  matching_keys (now w) (client w) pattern ≠ [] →
  del_fails (env w) (matching_keys (now w) (client w) pattern) = true →
  clearCache pattern w
  = (Returned JsUndefined,
     World (now w) (client w) (env w)
           (trace w ++ [ClearCache pattern; Keys pattern;
                        Del (matching_keys (now w) (client w) pattern);
                        Log LogClearError])).
Proof.
  intros Ho Hk Hn Hd. destruct w as [t [o m] f tr]; simpl in *; subst o.
  run_M. rewrite Hk. simpl.
  destruct (matching_keys t (Redis true m) pattern) as [|k ks] eqn:E; [done|].
  simpl. rewrite Hd. simpl. by rewrite <-!app_assoc.
Qed.

Lemma clearCache_deleted pattern w :
  isOpen (client w) = true → keys_fails (env w) pattern = false →
  matching_keys (now w) (client w) pattern ≠ [] →
  del_fails (env w) (matching_keys (now w) (client w) pattern) = false →
  clearCache pattern w
  = (Returned JsUndefined,
     let keys := matching_keys (now w) (client w) pattern in
     World (now w) (Redis true (foldr delete (db (client w)) keys)) (env w)
           (trace w ++ [ClearCache pattern; Keys pattern; Del keys;
                        Log (LogCleared (length keys) pattern)])).
Proof.
  intros Ho Hk Hn Hd. destruct w as [t [o m] f tr]; simpl in *; subst o.
  run_M. rewrite Hk. simpl.
  destruct (matching_keys t (Redis true m) pattern) as [|k ks] eqn:E; [done|].
  simpl. rewrite Hd. simpl. by rewrite <-!app_assoc.
Qed.

(** clearCache always returns [undefined]; it enters with its pattern and
    then only talks to the store and the console. *)
Lemma clearCache_summary pattern w :
  ∃ more c',
    clearCache pattern w
    = (Returned JsUndefined,
       World (now w) c' (env w) (trace w ++ ClearCache pattern :: more))
    ∧ clear_calls more = [] ∧ commits more = [].
Proof.
  destruct (isOpen (client w)) eqn:Ho;
    [|rewrite clearCache_closed by done; by eexists _, _].
  destruct (keys_fails (env w) pattern) eqn:Hk;
    [rewrite clearCache_keys_fails by done; by eexists _, _|].
  destruct (decide (matching_keys (now w) (client w) pattern = [])) as [Hn|Hn];
    [rewrite clearCache_nothing by done; by eexists _, _|].
  destruct (del_fails (env w) (matching_keys (now w) (client w) pattern)) eqn:Hd.
  - rewrite clearCache_del_fails by done. by eexists _, _.
  - rewrite clearCache_deleted by done. by eexists _, _.
Qed.

(** C6, amended: clearCache returns nothing (it resolves to [undefined],
    also when no key matches) and never throws.  With the store connected
    and its commands going through, it deletes every key matching the
    pattern, leaves the other keys alone, and writes the number of keys
    deleted to the console; for a pattern matching no key it sends no
    deletion and leaves the store as it was. *)
Theorem clearCache_deletes_matching (pattern : string)
    (t : Z) (c : redis) (f : faults) :
  let res := run (clearCache pattern) t c f in
  let keys := matching_keys t c pattern in
  res.1 = Returned JsUndefined
  ∧ (keys = [] →
     client res.2 = c ∧ ∀ ks, Del ks ∉ trace res.2)
  ∧ (isOpen c = true → keys_fails f pattern = false →
     del_fails f keys = false →
     (∀ k t', t ≤ t' → glob_match pattern k = true →
              lookup_live t' (client res.2) k = None)
     ∧ (∀ k, glob_match pattern k = false →
             db (client res.2) !! k = db c !! k)
     ∧ (size (db (client res.2)) + length keys)%nat = size (db c)
     ∧ (keys ≠ [] →
        actions (trace res.2) = [ClearCache pattern; Keys pattern; Del keys]
        ∧ Log (LogCleared (length keys) pattern) ∈ trace res.2)).
Proof.
  intros res keys. subst res. unfold run. set (w := World t c f []).
  split; [|split].
  - by destruct (clearCache_summary pattern w) as (more & c' & -> & _).
  - intros Hn.
    destruct (isOpen c) eqn:Ho;
      [|rewrite clearCache_closed by done; split; [done|]; not_in_trace].
    destruct (keys_fails f pattern) eqn:Hk;
      [rewrite clearCache_keys_fails by done; split; [done|]; not_in_trace|].
    rewrite clearCache_nothing by done. simpl.
    split; [by destruct c; simpl in *; subst|]. not_in_trace.
  - intros Ho Hk Hd.
    assert (∀ k t', t ≤ t' → glob_match pattern k = true →
              lookup_live t' (Redis true (foldr delete (db c) keys)) k = None)
      as Hgone.
    { intros k t' Ht Hg. destruct (decide (k ∈ keys)) as [Hin|Hout].
      - unfold lookup_live. simpl. by rewrite lookup_foldr_delete.
      - assert (lookup_live t c k = None) as Hl.
        { destruct (lookup_live t c k) eqn:E; [|done].
          destruct Hout. apply elem_of_matching_keys. by rewrite E. }
        apply (lookup_live_mono t t'); [done|].
        unfold lookup_live in *. simpl.
        by rewrite lookup_foldr_delete_not_elem_of. }
    assert (∀ k, glob_match pattern k = false →
              foldr delete (db c) keys !! k = db c !! k) as Hkept.
    { intros k Hg. apply lookup_foldr_delete_not_elem_of.
      intros Hin%elem_of_matching_keys. destruct Hin. congruence. }
    assert ((size (foldr delete (db c) keys) + length keys)%nat = size (db c))
      as Hsize.
    { apply size_foldr_delete; [apply NoDup_matching_keys|].
      intros k [_ Hl]%elem_of_matching_keys. unfold lookup_live in Hl.
      destruct (db c !! k); [done|by destruct Hl]. }
    destruct (decide (keys = [])) as [Hn|Hn].
    + rewrite clearCache_nothing by done. simpl.
      fold keys in Hgone, Hkept, Hsize. rewrite Hn in *. simpl in *.
      repeat split; try done.
    + rewrite clearCache_deleted by done. simpl. fold keys.
      repeat split; try done.
      apply list_elem_of_In. simpl. tauto.
Qed.

Lemma clearCache_deletes_matching_witness :
  let res := run (clearCache "cache:*/transactions*:7") 10 busy_store no_faults in
  matching_keys 10 busy_store "cache:*/transactions*:7" ≠ []
  ∧ lookup_live 10 (client res.2) "cache:/api/transactions/12:7" = None
  ∧ Log (LogCleared 2 "cache:*/transactions*:7") ∈ trace res.2.
Proof.
  intros res.
  assert (matching_keys 10 busy_store "cache:*/transactions*:7" ≠ []) as Hn
    by (vm_compute; discriminate).
  destruct (clearCache_deletes_matching "cache:*/transactions*:7"
              10 busy_store no_faults) as (_ & _ & Hopen).
  destruct (Hopen eq_refl eq_refl eq_refl) as (Hgone & _ & _ & Hlog).
  split; [exact Hn|]. split.
  - apply Hgone; [lia|reflexivity].
  - exact (proj2 (Hlog Hn)).
Defined.

(** C6, as stated, fails: clearCache has no return value.  For a pattern
    matching no key it resolves to [undefined], not to the number 0, and
    after deleting one key it resolves to [undefined], not to 1. *)
Lemma clearCache_returns_no_count :
  matching_keys 0 empty_store "cache:*:7" = []
  ∧ (run (clearCache "cache:*:7") 0 empty_store no_faults).1
    = Returned JsUndefined
  ∧ (run (clearCache "cache:*:7") 0 empty_store no_faults).1
    ≠ Returned (JsNumber 0)
  ∧ length (matching_keys 10 warm_store "cache:*") = 1%nat
  ∧ (run (clearCache "cache:*") 10 warm_store no_faults).1
    ≠ Returned (JsNumber 1).
Proof. vm_compute. repeat split; discriminate. Qed.

(** Invalidation only removes entries: a decodable store stays so. *)
Lemma clearCache_keeps_decodable `{JsonCodec payload} pattern t c f :
  decodable c → decodable (client (run (clearCache pattern) t c f).2).
Proof.
  intros Hdec k e He Hne. apply (Hdec k e); [|done].
  revert He. unfold run. set (w := World t c f []).
  destruct (isOpen c) eqn:Ho; [|by rewrite clearCache_closed].
  destruct (keys_fails f pattern) eqn:Hk; [by rewrite clearCache_keys_fails|].
  destruct (decide (matching_keys t c pattern = [])) as [Hn|Hn];
    [by rewrite clearCache_nothing|].
  destruct (del_fails f (matching_keys t c pattern)) eqn:Hd;
    [by rewrite clearCache_del_fails|].
  rewrite clearCache_deleted by done. simpl.
  intros He. by apply lookup_foldr_delete_Some in He as [_ ?].
Qed.

(** ** Mutations and their invalidations *)

Lemma clear_calls_app tr1 tr2 :
  clear_calls (tr1 ++ tr2) = clear_calls tr1 ++ clear_calls tr2.
Proof. apply omap_app. Qed.

(** The store clearCache leaves when its commands go through. *)
Lemma clearCache_store pattern w :
  ∃ more c',
    clearCache pattern w
    = (Returned JsUndefined,
       World (now w) c' (env w) (trace w ++ ClearCache pattern :: more))
    ∧ clear_calls more = [] ∧ commits more = []
    ∧ (isOpen (client w) = true → env w = no_faults →
       c' = Redis true (foldr delete (db (client w))
                          (matching_keys (now w) (client w) pattern))).
Proof.
  destruct (isOpen (client w)) eqn:Ho;
    [|rewrite clearCache_closed by done; by eexists _, _].
  destruct (keys_fails (env w) pattern) eqn:Hk.
  { rewrite clearCache_keys_fails by done. eexists _, _.
    repeat split; try done. intros _ E. rewrite E in Hk. done. }
  destruct (decide (matching_keys (now w) (client w) pattern = [])) as [Hn|Hn].
  { rewrite clearCache_nothing by done. eexists _, _.
    repeat split; try done. intros _ _. rewrite Hn. simpl.
    destruct (client w); simpl in *; by subst. }
  destruct (del_fails (env w) (matching_keys (now w) (client w) pattern)) eqn:Hd.
  - rewrite clearCache_del_fails by done. eexists _, _.
    repeat split; try done. intros _ E. rewrite E in Hd. done.
  - rewrite clearCache_deleted by done. by eexists _, _.
Qed.

Lemma cleared_gone t t' c c' pattern k :
  c' = Redis true (foldr delete (db c) (matching_keys t c pattern)) →
  t ≤ t' → glob_match pattern k = true →
  lookup_live t' c' k = None.
Proof.
  intros -> Ht Hg.
  destruct (decide (k ∈ matching_keys t c pattern)) as [Hin|Hout].
  - unfold lookup_live. simpl. by rewrite lookup_foldr_delete.
  - assert (lookup_live t c k = None) as Hl.
    { destruct (lookup_live t c k) eqn:E; [|done].
      destruct Hout. apply elem_of_matching_keys. by rewrite E. }
    apply (lookup_live_mono t t'); [done|].
    unfold lookup_live in *. simpl.
    by rewrite lookup_foldr_delete_not_elem_of.
Qed.

Lemma deleted_stays_gone t c c' ks k :
  c' = Redis true (foldr delete (db c) ks) →
  lookup_live t c k = None →
  lookup_live t c' k = None.
Proof.
  intros -> Hl. unfold lookup_live in *. simpl.
  destruct (decide (k ∈ ks)).
  - by rewrite lookup_foldr_delete.
  - by rewrite lookup_foldr_delete_not_elem_of.
Qed.

(** Stepping through a controller: unfold its body, then split on each
    answer of the database, each test, and each call of clearCache. *)
Ltac run_controller :=
  unfold run, mutate, createTransaction, updateTransaction, deleteTransaction,
    createCategory, updateCategory, deleteCategory, deleteUser,
    check_category, pool_query, positive_count,
    clearTransactionCache, clearAnalyticsCache, clearUserCache,
    console, emit, ask, throw, try_catch, mbind, M_bind, mret, M_ret;
  simpl.

Ltac step_pool pool :=
  match goal with
  | |- context [pool ?q] =>
      let E := fresh "Eq" in destruct (pool q) as [[|? ?]|] eqn:E; simpl
  end.

Ltac step_clear :=
  match goal with
  | |- context [clearCache ?p ?w] =>
      let more := fresh "more" in
      let c' := fresh "c'" in
      let Hc := fresh "Hclear" in
      let Hm := fresh "Hcommit" in
      let Hs := fresh "Hstore" in
      destruct (clearCache_store p w) as (more & c' & -> & Hc & Hm & Hs);
      simpl in *
  end.

Ltac step_branch :=
  match goal with
  | |- context [match m_errors ?r with _ => _ end] =>
      destruct (m_errors r); simpl
  | |- context [match m_target ?r with _ => _ end] =>
      destruct (m_target r); simpl
  | |- context [String.eqb ?a ?b] => destruct (String.eqb a b); simpl
  | |- context [decide ?P] => destruct (decide P); simpl
  | |- context [field "count" ?r] =>
      destruct (field "count" r) as [[]|]; simpl
  | |- context [read_number ?s] => destruct (read_number s) as [[]|]; simpl
  | |- context [bool_decide ?P] => destruct (bool_decide P); simpl
  end.

Ltac crunch pool := repeat first [step_clear | step_pool pool | step_branch].

(** A Commit cannot belong to a trace that shows none; and the one UPDATE
    that hands back no row is not counted. *)
Ltac no_such_commit Hin Hrow :=
  exfalso;
  repeat (apply elem_of_cons in Hin as [Hin|Hin];
          [first [discriminate Hin
                 |injection Hin as ->; simpl in Hrow;
                  repeat match goal with
                         | E : _ = Some _ |- _ => rewrite E in Hrow
                         | E : _ = None |- _ => rewrite E in Hrow
                         end;
                  discriminate Hrow]|]);
  by apply elem_of_nil in Hin.

(** The calls of clearCache come after the write, and with the patterns
    of the touched resource. *)
Lemma mutation_clear_calls op pool req t c f :
  let tr := trace (run (mutate op pool req) t c f).2 in
  clear_calls (before_commit tr) = []
  ∧ (commits tr = [] → clear_calls tr = [])
  ∧ (∀ q, Commit q ∈ tr → row_returned pool q = true →
     clear_calls tr = invalidations op pool req).
Proof.
  destruct op; run_controller; crunch pool.
  all: split; [done|].
  all: split; [done|].
  all: intros q Hin Hrow.
  all: try by no_such_commit Hin Hrow.
  all: unfold invalidations, touched_owner, transaction_patterns,
         clear_calls in *;
       simpl; rewrite ?omap_app; simpl.
  all: repeat match goal with
              | H : omap _ _ = [] |- _ => rewrite H; clear H
              end;
       simpl; try done.
  all: repeat f_equal; assumption.
Qed.

(** Once the clear calls went through, no key of the touched resource
    is visible any more. *)
Lemma mutation_clears_store op pool req t c :
  isOpen c = true →
  let res := run (mutate op pool req) t c no_faults in
  ∀ q, Commit q ∈ trace res.2 → row_returned pool q = true →
  ∀ p k t', p ∈ invalidations op pool req → t ≤ t' →
            glob_match p k = true →
            lookup_live t' (client res.2) k = None.
Proof.
  intros Ho.
  destruct op; run_controller; crunch pool.
  all: intros q Hin Hrow p k t' Hp Ht Hg.
  all: try by no_such_commit Hin Hrow.
  all: unfold invalidations, touched_owner, transaction_patterns in Hp;
       simpl in Hp.
  all: repeat match goal with
              | Ho : isOpen ?c = true,
                H : isOpen ?c = true → no_faults = no_faults → _ |- _ =>
                  specialize (H Ho eq_refl)
              end.
  all: repeat match goal with
              | H1 : ?c1 = Redis true _,
                H : isOpen ?c1 = true → no_faults = no_faults → _ |- _ =>
                  specialize (H ltac:(rewrite H1; reflexivity) eq_refl)
              end.
  all: repeat (apply elem_of_cons in Hp as [->|Hp]);
       try (by apply elem_of_nil in Hp).
  all: match goal with
       | Hg : glob_match ?p ?k = true, Ht : ?t ≤ ?t',
         H2 : ?c2 = Redis true (foldr delete (db ?c1) (matching_keys ?t ?c1 ?p))
         |- lookup_live ?t' ?c2 ?k = None =>
           exact (cleared_gone t t' c1 c2 p k H2 Ht Hg)
       | Hg : glob_match ?p ?k = true, Ht : ?t ≤ ?t',
         H1 : ?c1 = Redis true (foldr delete (db ?c0) (matching_keys ?t ?c0 ?p)),
         H2 : ?c2 = Redis true (foldr delete (db ?c1) ?ks)
         |- lookup_live ?t' ?c2 ?k = None =>
           exact (deleted_stays_gone t' c1 c2 ks k H2
                    (cleared_gone t t' c0 c1 p k H1 Ht Hg))
       end.
Qed.

(** C3, amended: every mutation of the transaction and category
    controllers (create, update, delete) calls clearCache only after its
    INSERT, UPDATE or DELETE went through, and never when the request was
    rejected or the statement failed.  After the write (an UPDATE of a
    transaction handing back its row) the calls are exactly those of the
    touched resource: clearTransactionCache and clearAnalyticsCache for
    the owner of the transaction, or the categories pattern.  With the
    store connected and its commands going through, every key matching
    one of these patterns is absent afterwards. *)
Theorem mutations_invalidate_after_commit (op : mutation) (pool : database)
    (req : mutation_request) (t : Z) (c : redis) (f : faults) :
  let res := run (mutate op pool req) t c f in
  let tr := trace res.2 in
  clear_calls (before_commit tr) = []
  ∧ (commits tr = [] → clear_calls tr = [])
  ∧ (∀ q, Commit q ∈ tr → row_returned pool q = true →
     clear_calls tr = invalidations op pool req
     ∧ (isOpen c = true → f = no_faults →
        ∀ p k t', p ∈ invalidations op pool req → t ≤ t' →
                  glob_match p k = true →
                  lookup_live t' (client res.2) k = None)).
Proof.
  intros res tr.
  destruct (mutation_clear_calls op pool req t c f) as (H1 & H2 & H3).
  split; [done|]. split; [done|].
  intros q Hin Hrow. split; [by apply (H3 q)|].
  intros Ho -> p k t' Hp Ht Hg.
  by apply (mutation_clears_store op pool req t c Ho q Hin Hrow p k t').
Qed.

Lemma mutations_invalidate_after_commit_witness :
  let res := run (createTransaction ledger expense_of_7) 10 busy_store no_faults in
  Commit (INSERT_transaction 7 1) ∈ trace res.2
  ∧ clear_calls (trace res.2)
    = ["cache:*/transactions*:7"; "cache:*/analytics*:7"]
  ∧ lookup_live 10 (client res.2) "cache:/api/transactions?page=1:7" = None
  ∧ lookup_live 10 (client res.2) "cache:/api/analytics/monthly:7" = None.
Proof.
  intros res.
  assert (Commit (INSERT_transaction 7 1) ∈ trace res.2) as Hin
    by (vm_compute; apply list_elem_of_here).
  destruct (mutations_invalidate_after_commit CreateTransaction ledger
              expense_of_7 10 busy_store no_faults) as (_ & _ & H).
  destruct (H (INSERT_transaction 7 1) Hin eq_refl) as [Hcalls Hgone].
  split; [exact Hin|]. split; [exact Hcalls|]. split.
  - apply (Hgone eq_refl eq_refl "cache:*/transactions*:7");
      [apply list_elem_of_here|lia|reflexivity].
  - apply (Hgone eq_refl eq_refl "cache:*/analytics*:7");
      [apply list_elem_of_further, list_elem_of_here|lia|reflexivity].
Defined.

(** C3, as stated, fails.  Creating a transaction for principal 7 does
    not call the clearing of the principal (pattern cache:*:7) but those
    of two resource areas, so a key matching cache:*:7 outside them is
    still served afterwards; and deleteUser, whose listings are cached,
    commits its deletion without any clear call. *)
Lemma mutation_leaves_stale_entries :
  let created := run (createTransaction ledger expense_of_7) 10 busy_store no_faults in
  let removed := run (deleteUser ledger removal_of_7) 10 busy_store no_faults in
  commits (trace created.2) = [INSERT_transaction 7 1]
  ∧ clear_calls (trace created.2)
    = ["cache:*/transactions*:7"; "cache:*/analytics*:7"]
  ∧ glob_match "cache:*:7" "cache:/api/categories:7" = true
  ∧ lookup_live 10 (client created.2) "cache:/api/categories:7" = Some "{}"
  ∧ ttl_of Admin "GET" "/users" = Some 300
  ∧ commits (trace removed.2) = [DELETE_user 7]
  ∧ clear_calls (trace removed.2) = [].
Proof. vm_compute. done. Qed.

(** ** TTLs of the cached routes *)

(** C8, amended: every route that goes through cacheMiddleware is a GET,
    and its TTL is the value of the convention for one of the classes
    the route belongs to: the transactions list 300 seconds; the lookups
    of a transaction and of a user 600; the list and the lookup of
    categories 3600; the analytics routes, the summary of transactions
    and the statistics of categories 900; the administrator's listings
    of users and of transactions 300 and the administrator's statistics
    600.  The tables of cached routes are exactly these.  Where a route
    belongs to two classes of different values, the code follows one of
    them: the lookup of a category is cached as categories, not as a
    single-item lookup; the statistics of categories as an aggregate, not
    as categories; the administrator's statistics within the range of
    the admin routes, not as an aggregate.  Every other cached route has
    the value of each of its classes. *)
Theorem cached_routes_follow_ttl_convention :
  cached Transactions = [("/", 300); ("/summary", 900); ("/:id", 600)]
  ∧ cached Analytics
    = [("/monthly", 900); ("/yearly", 900); ("/categories", 900);
       ("/trends", 900); ("/dashboard", 900)]
  ∧ cached CategoriesRouter = [("/", 3600); ("/stats", 900); ("/:id", 3600)]
  ∧ cached Admin
    = [("/users", 300); ("/stats", 600); ("/users/:id", 600);
       ("/transactions", 300)]
  ∧ ∀ r x ttl, x ∈ routes_of r → r_ttl x = Some ttl →
      r_verb x = "GET"
      ∧ (∃ c, in_class c r (r_path x) = true ∧ conventional c ttl)
      ∧ ∀ c, in_class c r (r_path x) = true →
             conventional c ttl
             ∨ (r = CategoriesRouter ∧ r_path x = "/:id" ∧ c = SingleItem
                ∧ ttl = 3600)
             ∨ (r = CategoriesRouter ∧ r_path x = "/stats" ∧ c = Categories
                ∧ ttl = 900)
             ∨ (r = Admin ∧ r_path x = "/stats" ∧ c = AnalyticsAggregate
                ∧ ttl = 600).
Proof.
  do 4 (split; [reflexivity|]).
  intros r x ttl Hin Hx.
  destruct r; simpl in Hin;
    repeat (apply elem_of_cons in Hin as [->|Hin];
            [simpl in Hx;
             first
               [ discriminate Hx
               | injection Hx as <-;
                 split; [reflexivity|]; split;
                 [first [ by exists TransactionsList
                        | by exists AnalyticsAggregate
                        | by exists Categories
                        | by exists SingleItem
                        | exists AdminListing; split; [reflexivity|simpl; lia] ]
                 |intros [] Hc; try discriminate Hc; simpl;
                  first [ by left | left; lia | tauto ]] ]|]);
    by apply elem_of_nil in Hin.
Qed.

Lemma cached_routes_follow_ttl_convention_witness :
  Route "GET" "/users/:id" (Some 600) ∈ routes_of Admin
  ∧ (in_class SingleItem Admin "/users/:id" = true → conventional SingleItem 600)
  ∧ (in_class AdminListing Admin "/users/:id" = true →
     conventional AdminListing 600).
Proof.
  assert (Route "GET" "/users/:id" (Some 600) ∈ routes_of Admin) as Hin
    by (do 3 apply list_elem_of_further; apply list_elem_of_here).
  split; [exact Hin|].
  destruct cached_routes_follow_ttl_convention as (_ & _ & _ & _ & H).
  destruct (H Admin _ 600 Hin eq_refl) as (_ & _ & Hall).
  split; intros Hc.
  - destruct (Hall SingleItem Hc) as [Hok|[(E & _)|[(E & _)|(_ & E & _)]]];
      [exact Hok|discriminate E..].
  - destruct (Hall AdminListing Hc) as [Hok|[(E & _)|[(E & _)|(_ & E & _)]]];
      [exact Hok|discriminate E..].
Defined.

(** C8, as stated, fails: the lookup of one category by its id is a
    single-item lookup, and it is cached for 3600 seconds, not 600; and
    statistics, an aggregate, are cached for 900 seconds in the
    categories router but for 600 in the admin router. *)
Lemma category_lookup_cached_for_an_hour :
  Route "GET" "/:id" (Some 3600) ∈ routes_of CategoriesRouter
  ∧ in_class SingleItem CategoriesRouter "/:id" = true
  ∧ in_class SingleItem Transactions "/:id" = true
  ∧ ttl_of Transactions "GET" "/:id" = Some 600
  ∧ ttl_of CategoriesRouter "GET" "/:id" = Some 3600
  ∧ ¬ conventional SingleItem 3600
  ∧ in_class AnalyticsAggregate CategoriesRouter "/stats" = true
  ∧ in_class AnalyticsAggregate Admin "/stats" = true
  ∧ ttl_of CategoriesRouter "GET" "/stats" = Some 900
  ∧ ttl_of Admin "GET" "/stats" = Some 600
  ∧ ¬ conventional AnalyticsAggregate 600.
Proof.
  split; [do 2 apply list_elem_of_further; apply list_elem_of_here|].
  repeat split; try reflexivity; simpl; lia.
Qed.

(** ** Glob patterns *)

Lemma glob_match_nil s : glob_match EmptyString s = true ↔ s = EmptyString.
Proof. unfold glob_match. by rewrite bool_decide_eq_true. Qed.

Lemma glob_match_literal_cons c p s :
  c ≠ star →
  glob_match (String c p) s = true
  ↔ ∃ s', s = String c s' ∧ glob_match p s' = true.
Proof.
  intros Hc. unfold glob_match; fold glob_match.
  destruct (decide (c = "*"%char)) as [E|_]; [done|].
  destruct s as [|c' s'].
  { split; [intros [=]|]. intros (s' & E & _). discriminate E. }
  rewrite andb_true_iff, bool_decide_eq_true. split.
  - intros [-> ?]. eauto.
  - intros (s'' & [= -> ->] & ?). done.
Qed.

Lemma glob_match_star p s :
  glob_match (String star p) s = true
  ↔ ∃ pre suf, s = pre +:+ suf ∧ glob_match p suf = true.
Proof.
  unfold glob_match; fold glob_match. unfold star.
  destruct (decide ("*"%char = "*"%char)) as [_|]; [|done].
  induction s as [|c s IH].
  - rewrite orb_false_r. split.
    + intros H. by exists EmptyString, EmptyString.
    + intros (pre & suf & E & H). destruct pre; [|done].
      rewrite string_app_nil_l in E. by subst.
  - rewrite orb_true_iff, IH. split.
    + intros [H|(pre & suf & -> & H)].
      * by exists EmptyString, (String c s).
      * by exists (String c pre), suf.
    + intros (pre & suf & E & H). destruct pre as [|c' pre].
      * left. rewrite string_app_nil_l in E. by subst.
      * right. rewrite string_app_cons in E. injection E as -> ->. eauto.
Qed.

Lemma glob_match_literal lit p s :
  occurs star lit = false →
  glob_match (lit +:+ p) s = true
  ↔ ∃ s', s = lit +:+ s' ∧ glob_match p s' = true.
Proof.
  revert s. induction lit as [|c lit IH]; intros s Hlit.
  - split; [by exists s|]. by intros (s' & -> & ?).
  - simpl in Hlit. destruct (decide (c = star)) as [|Hc]; [done|].
    change (String c lit +:+ p) with (String c (lit +:+ p)).
    rewrite glob_match_literal_cons by done. split.
    + intros (s1 & -> & H). apply IH in H as (s2 & -> & H); [|done].
      by exists s2.
    + intros (s2 & -> & H). exists (lit +:+ s2). split; [done|].
      apply IH; [done|]. by exists s2.
Qed.

Lemma glob_match_exact lit s :
  occurs star lit = false → glob_match lit s = true ↔ s = lit.
Proof.
  intros Hlit. rewrite <-(string_app_nil_r lit) at 1.
  rewrite glob_match_literal by done. split.
  - intros (s' & -> & H%glob_match_nil). subst. by rewrite string_app_nil_r.
  - intros ->. exists EmptyString. by rewrite string_app_nil_r.
Qed.

(** The characters of a decimal numeral: digits, and a leading minus. *)
Lemma occurs_pretty_N_go c x s :
  occurs c (pretty_N_go x s) = true →
  is_Some (digit_of c) ∨ occurs c s = true.
Proof.
  revert s. induction (N.lt_wf_0 x) as [x _ IH]; intros s.
  destruct (decide (x = 0)%N) as [->|Hx]; [rewrite pretty_N_go_0; tauto|].
  rewrite pretty_N_go_step by lia. intros H.
  assert (x `div` 10 < x)%N as Hlt by (apply N.div_lt; lia).
  destruct (IH _ Hlt _ H) as [?|H']; [by left|]. clear H. rename H' into H.
  simpl in H. destruct (decide (pretty_N_char (x `mod` 10) = c)) as [<-|_];
    [|by right].
  left. rewrite digit_of_pretty_N_char by (apply N.mod_lt; lia). done.
Qed.

Lemma occurs_pretty_Z c (z : Z) :
  occurs c (pretty z) = true → is_Some (digit_of c) ∨ c = "-"%char.
Proof.
  destruct z as [|p|p]; unfold pretty, pretty_Z.
  - simpl. destruct (decide _) as [<-|]; [|done]. left. by eexists.
  - unfold pretty, pretty_positive, pretty, pretty_N.
    destruct (decide (N.pos p = 0)%N); [done|].
    intros [?|H]%occurs_pretty_N_go; [by left|done].
  - rewrite occurs_app. simpl. destruct (decide ("-"%char = c)) as [<-|_];
      [by right|]. simpl.
    unfold pretty, pretty_positive, pretty, pretty_N.
    destruct (decide (N.pos p = 0)%N); [done|].
    intros [?|H]%occurs_pretty_N_go; [by left|done].
Qed.

Lemma pretty_Z_star_free (z : Z) : occurs star (pretty z) = false.
Proof.
  destruct (occurs star (pretty z)) eqn:E; [|done].
  by apply occurs_pretty_Z in E as [[d Hd]|Hd]; vm_compute in Hd.
Qed.

(** What the patterns of the invalidation helpers match. *)
Lemma user_pattern_matches n s :
  glob_match (user_pattern n) s = true
  ↔ ∃ mid, s = "cache:" +:+ mid +:+ ":" +:+ pretty n.
Proof.
  change (user_pattern n)
    with ("cache:" +:+ String star (":" +:+ pretty n)).
  rewrite glob_match_literal by done. split.
  - intros (s' & -> & (pre & suf & -> & H)%glob_match_star).
    apply glob_match_exact in H as ->.
    + by exists pre.
    + rewrite occurs_app, pretty_Z_star_free. done.
  - intros (mid & ->). eexists. split; [done|].
    apply glob_match_star. exists mid, (":" +:+ pretty n). split; [done|].
    apply glob_match_exact; [|done].
    rewrite occurs_app, pretty_Z_star_free. done.
Qed.

Lemma area_pattern_matches frag n s :
  occurs star frag = false →
  glob_match (area_pattern frag (Some n)) s = true
  ↔ ∃ a b, s = "cache:" +:+ a +:+ frag +:+ b +:+ ":" +:+ pretty n.
Proof.
  intros Hfrag.
  change (area_pattern frag (Some n))
    with ("cache:" +:+ String star (frag +:+ String star (":" +:+ pretty n))).
  rewrite glob_match_literal by done. split.
  - intros (s' & -> & (a & s1 & -> & H)%glob_match_star).
    apply glob_match_literal in H as (s2 & -> & H); [|done].
    apply glob_match_star in H as (b & s3 & -> & H).
    apply glob_match_exact in H as ->.
    + by exists a, b.
    + rewrite occurs_app, pretty_Z_star_free. done.
  - intros (a & b & ->). eexists. split; [done|].
    apply glob_match_star. eexists a, _. split; [done|].
    apply glob_match_literal; [done|]. eexists. split; [done|].
    apply glob_match_star. eexists b, _. split; [done|].
    apply glob_match_exact; [|done].
    rewrite occurs_app, pretty_Z_star_free. done.
Qed.

Lemma area_pattern_any_matches frag s a b seg :
  occurs star frag = false →
  s = "cache:" +:+ a +:+ frag +:+ b +:+ ":" +:+ seg →
  glob_match (area_pattern frag None) s = true.
Proof.
  intros Hfrag ->.
  change (area_pattern frag None)
    with ("cache:" +:+ String star (frag +:+ String star (":" +:+ String star EmptyString))).
  apply glob_match_literal; [done|]. eexists. split; [done|].
  apply glob_match_star. eexists a, _. split; [done|].
  apply glob_match_literal; [done|]. eexists. split; [done|].
  apply glob_match_star. eexists b, _. split; [done|].
  apply (glob_match_literal ":"); [done|]. eexists. split; [done|].
  apply glob_match_star. exists seg, EmptyString.
  split; [by rewrite string_app_nil_r|]. by apply glob_match_nil.
Qed.

(** ** Keys, patterns and the store *)

(** What clearCache does to the store: keys outside the pattern are left
    alone whatever happens; with the store answering, the keys inside are
    gone for good. *)
Lemma clearCache_effect pattern t c f :
  let w' := (run (clearCache pattern) t c f).2 in
  (∀ k, glob_match pattern k = false → db (client w') !! k = db c !! k)
  ∧ (isOpen c = true → f = no_faults →
     ∀ k t', t ≤ t' → glob_match pattern k = true →
             lookup_live t' (client w') k = None)
  ∧ isOpen (client w') = isOpen c.
Proof.
  intros w'. subst w'. unfold run. set (w := World t c f []).
  destruct (isOpen c) eqn:Ho.
  2: { rewrite clearCache_closed by done. simpl. repeat split; try done. }
  destruct (keys_fails f pattern) eqn:Hk.
  { rewrite clearCache_keys_fails by done. simpl.
    repeat split; try done. intros _ ->. done. }
  destruct (decide (matching_keys t c pattern = [])) as [Hn|Hn].
  { rewrite clearCache_nothing by done. simpl. repeat split; try done.
    intros _ _ k t' Ht Hg.
    apply (cleared_gone t t' c c pattern k); [|done..].
    rewrite Hn. simpl. destruct c; simpl in *; by subst. }
  destruct (del_fails f (matching_keys t c pattern)) eqn:Hd.
  { rewrite clearCache_del_fails by done. simpl.
    repeat split; try done. intros _ ->. done. }
  rewrite clearCache_deleted by done. simpl. repeat split.
  - intros k Hg. apply lookup_foldr_delete_not_elem_of.
    intros Hin%elem_of_matching_keys. destruct Hin. congruence.
  - intros _ _ k t' Ht Hg. by apply (cleared_gone t t' c _ pattern k).
Qed.

(** A request that finds nothing to serve is answered by the handler,
    which runs once. *)
Lemma miss_runs_handler `{JsonCodec payload} ttl
    (handler : request → response payload) req t c f :
  truthy_string (lookup_live t c (cacheKey req)) = false →
  ∃ w', run (cacheMiddleware ttl handler req) t c f
        = (Returned (handler req), w')
      ∧ handler_calls (trace w') = 1%nat.
Proof.
  intros Hl. unfold run. set (w := World t c f []).
  destruct (cacheMiddleware_cases ttl handler req w) as
    [?|?|?|s d ? ? ? Hs|s ? ? ? Hs| | |]; try by eexists.
  all: simpl in Hs; rewrite Hs in Hl; simpl in Hl.
  all: by destruct (String.eqb_spec s EmptyString).
Qed.

Lemma table_segment r n :
  table_principal r →
  principal_segment (req_user r) = pretty n ↔ principal r = Some (IdNumber n).
Proof.
  unfold table_principal, principal.
  destruct (req_user r) as [[[m|s] ?]|]; simpl; try done.
  - intros Hm. destruct (Z.eqb_spec m 0); [done|]. simpl. split.
    + intros E. by apply (inj pretty) in E as ->.
    + by intros [= ->].
  - intros _. split; [|done]. intros E. by destruct (pretty_Z_not_anonymous n).
Qed.

Lemma clearUserCache_pattern n : clearUserCache n = clearCache (user_pattern n).
Proof. reflexivity. Qed.

Lemma user_pattern_key n req :
  table_principal req →
  glob_match (user_pattern n) (cacheKey req) = true
  ↔ principal req = Some (IdNumber n).
Proof.
  intros Ht. rewrite user_pattern_matches, <-table_segment by done.
  unfold cacheKey. split.
  - intros (mid & E). apply (inj (String.app "cache:")) in E.
    apply split_last_colon in E as [_ ?]; [done| |apply pretty_Z_no_colon].
    by apply principal_segment_no_colon.
  - intros <-. by eexists.
Qed.

(** X1: clearUserCache(n) removes exactly the entries of principal n.
    Among requests whose principal is absent or a non-zero integer id, the
    pattern cache:*:n matches the key of a request exactly when its
    principal is n, whatever the path and query; with the store answering,
    such a key is absent after the call, and the key of any other such
    request keeps its entry in every run. *)
Theorem clearUserCache_exact (n : Z) (req : request)
    (t : Z) (c : redis) (f : faults) :
  table_principal req →
  let w' := (run (clearUserCache n) t c f).2 in
  (glob_match (user_pattern n) (cacheKey req) = true
   ↔ principal req = Some (IdNumber n))
  ∧ (principal req = Some (IdNumber n) → isOpen c = true → f = no_faults →
     ∀ t', t ≤ t' → lookup_live t' (client w') (cacheKey req) = None)
  ∧ (principal req ≠ Some (IdNumber n) →
     db (client w') !! cacheKey req = db c !! cacheKey req).
Proof.
  intros Ht w'. subst w'. rewrite clearUserCache_pattern.
  destruct (clearCache_effect (user_pattern n) t c f) as (Hkept & Hgone & _).
  split; [by apply user_pattern_key|]. split.
  - intros Hp Ho Hf t' Hle. apply Hgone; [done..|]. by apply user_pattern_key.
  - intros Hp. apply Hkept.
    destruct (glob_match (user_pattern n) (cacheKey req)) eqn:E; [|done].
    by apply user_pattern_key in E.
Qed.

Lemma clearUserCache_exact_witness :
  let w' := (run (clearUserCache 7) 10 two_principals no_faults).2 in
  table_principal (get_as "/api/transactions?page=1" (Some carol))
  ∧ table_principal (get_as "/api/transactions?page=1" (Some dave))
  ∧ lookup_live 10 (client w')
      (cacheKey (get_as "/api/transactions?page=1" (Some carol))) = None
  ∧ db (client w') !! cacheKey (get_as "/api/transactions?page=1" (Some dave))
    = db two_principals
        !! cacheKey (get_as "/api/transactions?page=1" (Some dave)).
Proof.
  intros w'.
  assert (table_principal (get_as "/api/transactions?page=1" (Some carol)))
    as Hc by (vm_compute; discriminate).
  assert (table_principal (get_as "/api/transactions?page=1" (Some dave)))
    as Hd by (vm_compute; discriminate).
  split; [exact Hc|]. split; [exact Hd|]. split.
  - apply (clearUserCache_exact 7 _ 10 two_principals no_faults Hc);
      [reflexivity..|lia].
  - apply (clearUserCache_exact 7 _ 10 two_principals no_faults Hd).
    vm_compute. discriminate.
Defined.

Lemma strip_prefix_Some frag s r :
  strip_prefix frag s = Some r ↔ s = frag +:+ r.
Proof.
  revert s. induction frag as [|c frag IH]; intros s.
  - simpl. rewrite string_app_nil_l. split; [by intros [= ->]|by intros ->].
  - destruct s as [|c' s]; [done|]. simpl. rewrite string_app_cons.
    destruct (decide (c = c')) as [->|Hc].
    + rewrite IH. split; [by intros ->|by intros [= ->]].
    + split; [done|]. intros [= E]. by destruct Hc.
Qed.

Lemma infix_contains frag s :
  infix frag s = true ↔ ∃ a b, s = a +:+ frag +:+ b.
Proof.
  induction s as [|c s IH].
  - simpl. rewrite orb_false_r. split.
    + destruct (strip_prefix frag EmptyString) as [r|] eqn:E; [|done].
      intros _. apply strip_prefix_Some in E. by exists EmptyString, r.
    + intros (a & b & E). destruct a; [|done]. rewrite string_app_nil_l in E.
      apply strip_prefix_Some in E. by rewrite E.
  - simpl. rewrite orb_true_iff, IH. split.
    + intros [H|(a & b & ->)].
      * destruct (strip_prefix frag (String c s)) as [r|] eqn:E; [|done].
        apply strip_prefix_Some in E. by exists EmptyString, r.
      * by exists (String c a), b.
    + intros (a & b & E). destruct a as [|c' a].
      * left. rewrite string_app_nil_l in E.
        apply strip_prefix_Some in E. by rewrite E.
      * right. rewrite string_app_cons in E. injection E as -> ->. eauto.
Qed.

Lemma area_pattern_key frag n req :
  occurs star frag = false → table_principal req →
  glob_match (area_pattern frag (Some n)) (cacheKey req) = true
  ↔ infix frag (originalUrl req) = true ∧ principal req = Some (IdNumber n).
Proof.
  intros Hfrag Ht.
  rewrite area_pattern_matches, <-table_segment, infix_contains by done.
  unfold cacheKey. split.
  - intros (a & b & E). apply (inj (String.app "cache:")) in E.
    rewrite <-(string_app_assoc frag b), <-(string_app_assoc a) in E.
    apply split_last_colon in E as [-> ->];
      [|by apply principal_segment_no_colon|apply pretty_Z_no_colon].
    split; [|done]. by exists a, b.
  - intros [(a & b & ->) <-]. exists a, b.
    by rewrite !string_app_assoc.
Qed.

Lemma area_pattern_any_key frag req :
  occurs star frag = false → infix frag (originalUrl req) = true →
  glob_match (area_pattern frag None) (cacheKey req) = true.
Proof.
  intros Hfrag (a & b & E)%infix_contains.
  apply (area_pattern_any_matches frag _ a b (principal_segment (req_user req)));
    [done|].
  unfold cacheKey. rewrite E. by rewrite !string_app_assoc.
Qed.

(** X2: clearTransactionCache and clearAnalyticsCache are clearCache on
    the pattern cache:*<area>*:<id>.  Called for principal n, the pattern
    matches the key of a request (principal absent or a non-zero integer
    id) exactly when the path and query contain the area fragment and the
    principal is n: with the store answering these entries are gone
    afterwards, and every other such entry stays.  Called without
    argument, the pattern matches the key of every request whose path and
    query contain the fragment, whoever asks. *)
Theorem area_clear_exact (fragment : string) (n : Z) (req : request)
    (t : Z) (c : redis) (f : faults) :
  occurs star fragment = false →
  let w' := (run (clearCache (area_pattern fragment (Some n))) t c f).2 in
  (∀ u, clearTransactionCache u = clearCache (area_pattern "/transactions" u))
  ∧ (∀ u, clearAnalyticsCache u = clearCache (area_pattern "/analytics" u))
  ∧ (infix fragment (originalUrl req) = true →
     glob_match (area_pattern fragment None) (cacheKey req) = true)
  ∧ (table_principal req →
     (infix fragment (originalUrl req) = true →
      principal req = Some (IdNumber n) →
      isOpen c = true → f = no_faults →
      ∀ t', t ≤ t' → lookup_live t' (client w') (cacheKey req) = None)
     ∧ (¬ (infix fragment (originalUrl req) = true
           ∧ principal req = Some (IdNumber n)) →
        db (client w') !! cacheKey req = db c !! cacheKey req)).
Proof.
  intros Hfrag w'. subst w'.
  destruct (clearCache_effect (area_pattern fragment (Some n)) t c f)
    as (Hkept & Hgone & _).
  split; [done|]. split; [done|].
  split; [by apply area_pattern_any_key|].
  intros Ht. split.
  - intros Hc Hp Ho Hf t' Hle. apply Hgone; [done..|].
    by apply area_pattern_key.
  - intros Hno. apply Hkept.
    destruct (glob_match (area_pattern fragment (Some n)) (cacheKey req)) eqn:E;
      [|done].
    by apply area_pattern_key in E.
Qed.

Lemma area_clear_exact_witness :
  let w' := (run (clearTransactionCache (Some 7)) 10 busy_store no_faults).2 in
  occurs star "/transactions" = false
  ∧ lookup_live 10 (client w')
      (cacheKey (get_as "/api/transactions?page=1" (Some carol))) = None
  ∧ db (client w') !! cacheKey (get_as "/api/categories" (Some carol))
    = db busy_store !! cacheKey (get_as "/api/categories" (Some carol)).
Proof.
  intros w'.
  assert (table_principal (get_as "/api/transactions?page=1" (Some carol)))
    as H1 by (vm_compute; discriminate).
  assert (table_principal (get_as "/api/categories" (Some carol)))
    as H2 by (vm_compute; discriminate).
  split; [reflexivity|].
  destruct (area_clear_exact "/transactions" 7
              (get_as "/api/transactions?page=1" (Some carol))
              10 busy_store no_faults eq_refl) as (_ & _ & _ & Hexact).
  destruct (area_clear_exact "/transactions" 7
              (get_as "/api/categories" (Some carol))
              10 busy_store no_faults eq_refl) as (_ & _ & _ & Hother).
  split.
  - apply (proj1 (Hexact H1)); [reflexivity..|lia].
  - apply (proj2 (Hother H2)). intros [E _]. vm_compute in E. discriminate E.
Defined.

(** ** The middleware over time *)

(** X3: no stale read after an invalidation.  Once clearCache has run on
    a pattern matching the key of a request, with the store answering, the
    request is not served from the cache at any later time: the
    downstream handler runs, once, and its answer is returned, whatever
    happens to the store during that request. *)
Theorem invalidated_entry_is_recomputed `{JsonCodec payload} (ttl : Z)
    (handler : request → response payload) (req : request)
    (pattern : string) (t t' : Z) (c : redis) (f : faults) :
  isOpen c = true → glob_match pattern (cacheKey req) = true → t ≤ t' →
  let cleared := client (run (clearCache pattern) t c no_faults).2 in
  lookup_live t' cleared (cacheKey req) = None
  ∧ ∃ w', run (cacheMiddleware ttl handler req) t' cleared f
          = (Returned (handler req), w')
        ∧ handler_calls (trace w') = 1%nat.
Proof.
  intros Ho Hg Ht cleared.
  assert (lookup_live t' cleared (cacheKey req) = None) as Hl.
  { by apply (clearCache_effect pattern t c no_faults). }
  split; [done|]. apply miss_runs_handler. by rewrite Hl.
Qed.

Lemma invalidated_entry_is_recomputed_witness :
  let cleared := client (run (clearCache "cache:*/categories*") 10 warm_store
                           no_faults).2 in
  ∃ w', run (cacheMiddleware 3600 getCategories_stub
               (get_as "/api/categories" None)) 20 cleared no_faults
        = (Returned (getCategories_stub (get_as "/api/categories" None)), w')
      ∧ handler_calls (trace w') = 1%nat.
Proof.
  intros cleared.
  apply (invalidated_entry_is_recomputed 3600 getCategories_stub
           (get_as "/api/categories" None) "cache:*/categories*" 10 20
           warm_store no_faults); [reflexivity|reflexivity|lia].
Defined.

(** X4: an entry is served only until its TTL has elapsed.  After a miss
    stored the handler's answer at second t1, the same GET at t1 + ttl or
    later is a miss again: the handler runs once more, its answer is
    returned and stored anew, lapsing ttl seconds after the second
    request. *)
Theorem lapsed_entry_is_recomputed `{JsonCodec payload} (ttl : Z)
    (handler : request → response payload) (req : request)
    (t1 t2 : Z) (c : redis) :
  method req = "GET" → isOpen c = true →
  truthy_string (lookup_live t1 c (cacheKey req)) = false →
  t1 + ttl ≤ t2 →
  let first := run (cacheMiddleware ttl handler req) t1 c no_faults in
  let second :=
    run (cacheMiddleware ttl handler req) t2 (client first.2) no_faults in
  db (client first.2) !! cacheKey req
  = Some (Entry (body (handler req)) (t1 + ttl))
  ∧ second.1 = Returned (handler req)
  ∧ handler_calls (trace second.2) = 1%nat
  ∧ db (client second.2) !! cacheKey req
    = Some (Entry (body (handler req)) (t2 + ttl)).
Proof.
  intros Hm Ho Hl Ht first second. subst second first. unfold run.
  rewrite (run_miss_stored ttl handler req (World t1 c no_faults [])) by done.
  simpl. split; [by rewrite lookup_insert_eq|].
  rewrite run_miss_stored; simpl; try done.
  - by rewrite lookup_insert_eq.
  - unfold lookup_live. simpl. rewrite lookup_insert_eq. unfold live. simpl.
    by destruct (Z.ltb_spec t2 (t1 + ttl)); [lia|].
Qed.

Lemma lapsed_entry_is_recomputed_witness :
  let req := get_as "/api/categories" None in
  let first := run (cacheMiddleware 3600 getCategories_stub req)
                   0 empty_store no_faults in
  let second := run (cacheMiddleware 3600 getCategories_stub req)
                    3600 (client first.2) no_faults in
  second.1 = Returned (getCategories_stub req)
  ∧ handler_calls (trace second.2) = 1%nat.
Proof.
  intros req.
  destruct (lapsed_entry_is_recomputed 3600 getCategories_stub req 0 3600
              empty_store eq_refl eq_refl eq_refl ltac:(lia))
    as (_ & Hr & Hc & _).
  split; [exact Hr|exact Hc].
Defined.

(** X5: the status of an answer is not cached.  When a miss stored the
    handler's answer, whatever its status, the same GET before the TTL
    has elapsed is answered with status 200 and the decoded payload. *)
Theorem replay_answers_200 `{JsonCodec payload} (ttl : Z)
    (handler : request → response payload) (req : request)
    (t1 t2 : Z) (c : redis) (d' : payload) :
  method req = "GET" → isOpen c = true →
  truthy_string (lookup_live t1 c (cacheKey req)) = false →
  body (handler req) ≠ EmptyString →
  JSON_parse (body (handler req)) = Some d' →
  t2 < t1 + ttl →
  let first := run (cacheMiddleware ttl handler req) t1 c no_faults in
  let second :=
    run (cacheMiddleware ttl handler req) t2 (client first.2) no_faults in
  first.1 = Returned (handler req)
  ∧ second.1 = Returned (Response 200 d')
  ∧ handler_calls (trace second.2) = 0%nat.
Proof.
  intros Hm Ho Hl Hne Hp Ht first second. subst second first. unfold run.
  rewrite (run_miss_stored ttl handler req (World t1 c no_faults [])) by done.
  simpl. split; [done|].
  rewrite (run_hit ttl handler req _ (body (handler req)) d'); simpl; try done.
  unfold lookup_live. simpl. rewrite lookup_insert_eq. unfold live. simpl.
  by destruct (Z.ltb_spec t2 (t1 + ttl)); [|lia].
Qed.

Lemma replay_answers_200_witness :
  let req := get_as "/api/categories/99" (Some alice) in
  let first := run (cacheMiddleware 3600 not_found_stub req)
                   0 empty_store no_faults in
  let second := run (cacheMiddleware 3600 not_found_stub req)
                    60 (client first.2) no_faults in
  first.1 = Returned (Response 404 (answer false "Category not found"))
  ∧ second.1 = Returned (Response 200 (answer false "Category not found")).
Proof.
  intros req.
  destruct (replay_answers_200 (H := json_codec) 3600 not_found_stub req
              0 60 empty_store
              (answer false "Category not found")
              eq_refl eq_refl eq_refl
              (json_stringify_nonempty (answer false "Category not found"))
              (json_parse_stringify (answer false "Category not found"))
              ltac:(lia))
    as (H1 & H2 & _).
  split; [exact H1|exact H2].
Defined.

(** X6: every answer is either the handler's, computed by one run of the
    handler, or the decoded text of a live cache entry, sent with status
    200 without running the handler and without touching the store. *)
Theorem answer_is_handlers_or_cached `{JsonCodec payload} (ttl : Z)
    (handler : request → response payload) (req : request)
    (t : Z) (c : redis) (f : faults) :
  let res := run (cacheMiddleware ttl handler req) t c f in
  (res.1 = Returned (handler req) ∧ handler_calls (trace res.2) = 1%nat)
  ∨ (∃ s d, method req = "GET"
       ∧ lookup_live t c (cacheKey req) = Some s
       ∧ JSON_parse s = Some d
       ∧ res.1 = Returned (Response 200 d)
       ∧ handler_calls (trace res.2) = 0%nat
       ∧ client res.2 = c).
Proof.
  intros res. subst res. unfold run. set (w := World t c f []).
  destruct (cacheMiddleware_cases ttl handler req w) as
    [?|?|?|s d ? ? ? Hs ? Hd|s ? ? ? Hs| | |]; try by left.
  right. exists s, d. done.
Qed.

(** A run sees the store only through its connection state and the
    entry under its own key. *)
Lemma cacheMiddleware_same_view `{JsonCodec payload} ttl
    (handler : request → response payload) req t c1 c2 f :
  isOpen c1 = isOpen c2 →
  lookup_live t c1 (cacheKey req) = lookup_live t c2 (cacheKey req) →
  (run (cacheMiddleware ttl handler req) t c1 f).1
  = (run (cacheMiddleware ttl handler req) t c2 f).1
  ∧ trace (run (cacheMiddleware ttl handler req) t c1 f).2
    = trace (run (cacheMiddleware ttl handler req) t c2 f).2.
Proof.
  intros Ho Hl. unfold run.
  set (w1 := World t c1 f []). set (w2 := World t c2 f []).
  destruct (cacheMiddleware_cases ttl handler req w1) as
    [Hm|Hm Ho1|Hm Ho1 Hg|s d Hm Ho1 Hg Hs Hne Hd|s Hm Ho1 Hg Hs Hne Hd
    |Hm Ho1 Hg Hs Hd|Hm Ho1 Hg Hs Hd Hx|Hm Ho1 Hg Hs Hd Hx];
    simpl in *.
  - by rewrite run_not_GET.
  - rewrite run_closed; [done|done|]. simpl. congruence.
  - rewrite run_get_fails; [done|done| |done]. simpl. congruence.
  - rewrite (run_hit ttl handler req w2 s d); simpl; try done; congruence.
  - rewrite (run_corrupt ttl handler req w2 s); simpl; try done; congruence.
  - rewrite run_miss_dropped; simpl; try done; congruence.
  - rewrite run_miss_set_fails; simpl; try done; congruence.
  - rewrite run_miss_stored; simpl; try done; congruence.
Qed.

Lemma cacheMiddleware_keeps_connection `{JsonCodec payload} ttl
    (handler : request → response payload) req t c f :
  drops_midway f = false →
  isOpen (client (run (cacheMiddleware ttl handler req) t c f).2) = isOpen c.
Proof.
  intros Hd. unfold run. set (w := World t c f []).
  destruct (cacheMiddleware_cases ttl handler req w); simpl;
    rewrite ?Hd; try done; by rewrite ?andb_true_r.
Qed.

Lemma cacheMiddleware_other_keys `{JsonCodec payload} ttl
    (handler : request → response payload) req t c f k :
  k ≠ cacheKey req →
  db (client (run (cacheMiddleware ttl handler req) t c f).2) !! k = db c !! k.
Proof.
  intros Hk.
  pose proof (cacheMiddleware_store ttl handler req t c f) as S.
  cbv zeta in S.
  destruct S as [[-> _]|(_ & _ & _ & _ & _ & [->| ->])]; try done.
  by rewrite lookup_insert_ne.
Qed.

Lemma cacheKey_table_inj r1 r2 :
  table_principal r1 → table_principal r2 → cacheKey r1 = cacheKey r2 →
  originalUrl r1 = originalUrl r2 ∧ principal r1 = principal r2.
Proof.
  intros T1 T2. unfold cacheKey. intros E.
  apply (inj (String.app "cache:")) in E.
  apply split_last_colon in E as [Hu Hp];
    [|by apply principal_segment_no_colon..].
  split; [done|]. by apply principal_segment_inj.
Qed.

(** X7: a request is invisible to the requests of other principals and
    to requests for another path or query.  Among requests whose
    principal is absent or a non-zero integer id, if two differ in
    path+query or in principal, then what the second is answered, and
    what its run does, is the same whether or not the first went through
    the middleware before it (the connection staying as it was during
    the first). *)
Theorem other_requests_are_invisible `{JsonCodec payload}
    (ttl_p ttl_q : Z) (handler_p handler_q : request → response payload)
    (req_p req_q : request) (t1 t2 : Z) (c : redis) (f1 f2 : faults) :
  table_principal req_p → table_principal req_q →
  originalUrl req_p ≠ originalUrl req_q ∨ principal req_p ≠ principal req_q →
  drops_midway f1 = false →
  let after := client (run (cacheMiddleware ttl_p handler_p req_p) t1 c f1).2 in
  (run (cacheMiddleware ttl_q handler_q req_q) t2 after f2).1
  = (run (cacheMiddleware ttl_q handler_q req_q) t2 c f2).1
  ∧ trace (run (cacheMiddleware ttl_q handler_q req_q) t2 after f2).2
    = trace (run (cacheMiddleware ttl_q handler_q req_q) t2 c f2).2.
Proof.
  intros Tp Tq Hdiff Hd after.
  assert (cacheKey req_q ≠ cacheKey req_p) as Hk.
  { intros E. destruct (cacheKey_table_inj _ _ Tq Tp E) as [Hu Hp].
    destruct Hdiff as [Hdiff|Hdiff]; by destruct Hdiff. }
  apply cacheMiddleware_same_view.
  - by apply cacheMiddleware_keeps_connection.
  - unfold lookup_live. subst after.
    by rewrite cacheMiddleware_other_keys.
Qed.

Lemma other_requests_are_invisible_witness :
  let p := get_as "/api/transactions?page=1" (Some carol) in
  let q := get_as "/api/transactions?page=1" (Some dave) in
  let after := client (run (cacheMiddleware 300 getCategories_stub p)
                           0 empty_store no_faults).2 in
  (run (cacheMiddleware 300 not_found_stub q) 5 after no_faults).1
  = (run (cacheMiddleware 300 not_found_stub q) 5 empty_store no_faults).1.
Proof.
  intros p q.
  apply (other_requests_are_invisible 300 300 getCategories_stub
           not_found_stub p q 0 5 empty_store no_faults no_faults).
  - vm_compute. discriminate.
  - vm_compute. discriminate.
  - right. vm_compute. discriminate.
  - reflexivity.
Defined.

(** ** Controllers: who may write what *)

Lemma commits_nil : commits [] = [].
Proof. reflexivity. Qed.

Lemma commits_app tr1 tr2 : commits (tr1 ++ tr2) = commits tr1 ++ commits tr2.
Proof. apply omap_app. Qed.

Lemma commits_cons e tr :
  commits (e :: tr)
  = match e with Commit q => q :: commits tr | _ => commits tr end.
Proof. by destruct e. Qed.

Lemma clear_calls_cons e tr :
  clear_calls (e :: tr)
  = match e with ClearCache p => p :: clear_calls tr | _ => clear_calls tr end.
Proof. by destruct e. Qed.

Lemma commit_in_trace q tr : Commit q ∈ tr ↔ q ∈ commits tr.
Proof.
  unfold commits. rewrite list_elem_of_omap. split.
  - intros Hin. by exists (Commit q).
  - intros ([] & Hin & [= ->]). done.
Qed.

(** The writes of a run, read off its trace. *)
Ltac read_commits H :=
  repeat first
    [ rewrite commits_cons in H; cbv beta iota in H
    | rewrite commits_app in H
    | rewrite commits_nil in H
    | match goal with
      | E : commits _ = [] |- _ => rewrite E in H
      end
    | rewrite app_nil_r in H
    | rewrite app_nil_l in H ].

Ltac run_controller' :=
  unfold run, createTransactionForUser;
  run_controller.

Ltac one_commit Hin :=
  apply commit_in_trace in Hin; read_commits Hin;
  first [ by apply elem_of_nil in Hin
        | apply list_elem_of_singleton in Hin; subst ].

(** X8: createTransaction writes only for a permitted owner.  Whenever it
    inserts a row, the request passed validation, the category exists and
    has the type of the transaction, and the row belongs to the caller, or
    to the user an administrator named in user_id, whom the database
    knows.  A user_id sent by anybody else is ignored. *)
Theorem createTransaction_owner (pool : database) (req : mutation_request)
    (t : Z) (c : redis) (f : faults) (q : statement) :
  Commit q ∈ trace (run (createTransaction pool req) t c f).2 →
  m_errors req = []
  ∧ (∃ category rest,
       pool (SELECT_category (m_category_id req)) = Some (category :: rest)
       ∧ field_string "type" category = Some (m_type req))
  ∧ (q = INSERT_transaction (m_user_id req) (m_category_id req)
     ∨ ∃ target found rest,
         q = INSERT_transaction target (m_category_id req)
         ∧ m_role req = "admin" ∧ m_target req = Some target
         ∧ pool (SELECT_user target) = Some (found :: rest)).
Proof.
  run_controller.
  destruct (String.eqb_spec (m_role req) "admin") as [Hr|Hr]; simpl;
    crunch pool; intros Hin.
  all: try (exfalso; congruence).
  all: one_commit Hin; repeat split; eauto 10.
Qed.

Lemma createTransaction_owner_witness :
  Commit (INSERT_transaction 8 1)
    ∈ trace (run (createTransaction books expense_of_8_for_7)
                 10 busy_store no_faults).2
  ∧ m_errors expense_of_8_for_7 = [].
Proof.
  assert (Hin : Commit (INSERT_transaction 8 1)
                  ∈ trace (run (createTransaction books expense_of_8_for_7)
                               10 busy_store no_faults).2)
    by (vm_compute; apply list_elem_of_here).
  split; [exact Hin|].
  exact (proj1 (createTransaction_owner _ _ _ _ _ _ Hin)).
Defined.

(** X9: a transaction is changed or removed only after the ownership
    query found it: for an administrator any transaction with that id,
    for everybody else one that belongs to the caller. *)
Theorem transaction_change_needs_access (op : mutation) (pool : database)
    (req : mutation_request) (t : Z) (c : redis) (f : faults) (q : statement) :
  op = UpdateTransaction ∨ op = DeleteTransaction →
  Commit q ∈ trace (run (mutate op pool req) t c f).2 →
  (q = UPDATE_transaction (m_param_id req) (m_category_id req)
   ∨ q = DELETE_transaction (m_param_id req))
  ∧ ∃ found rest,
      pool (SELECT_transaction_owner (m_param_id req)
              (if String.eqb (m_role req) "admin" then None
               else Some (m_user_id req)))
      = Some (found :: rest).
Proof.
  intros [-> | ->]; run_controller; unfold owner_filter;
    destruct (String.eqb (m_role req) "admin"); simpl;
    crunch pool; intros Hin.
  all: try (exfalso; congruence).
  all: one_commit Hin; split; eauto.
Qed.

Lemma transaction_change_needs_access_witness :
  Commit (DELETE_transaction 12)
    ∈ trace (run (mutate DeleteTransaction books change_12_as_7)
                 10 busy_store no_faults).2
  ∧ ∃ found rest,
      books (SELECT_transaction_owner 12 (Some 7)) = Some (found :: rest).
Proof.
  assert (Hin : Commit (DELETE_transaction 12)
                  ∈ trace (run (mutate DeleteTransaction books change_12_as_7)
                               10 busy_store no_faults).2)
    by (vm_compute; apply list_elem_of_here).
  split; [exact Hin|].
  exact (proj2 (transaction_change_needs_access DeleteTransaction _ _ _ _ _ _
                  (or_intror eq_refl) Hin)).
Defined.

(** X10: deleteUser leaves the cache alone.  Whatever the database
    answers, it sends no command to the store, calls clearCache for no
    pattern, and the store is afterwards what it was: entries computed for
    the removed user stay until they lapse. *)
Theorem deleteUser_leaves_cache (pool : database) (req : mutation_request)
    (t : Z) (c : redis) (f : faults) :
  let res := run (deleteUser pool req) t c f in
  client res.2 = c
  ∧ store_commands (trace res.2) = []
  ∧ clear_calls (trace res.2) = [].
Proof.
  run_controller; crunch pool; done.
Qed.

(** X11: deleteUser removes only another, existing account: the DELETE is
    sent only for the id of the route, only when the database knows that
    user, and never for the caller's own id. *)
Theorem deleteUser_guards (pool : database) (req : mutation_request)
    (t : Z) (c : redis) (f : faults) (q : statement) :
  Commit q ∈ trace (run (deleteUser pool req) t c f).2 →
  q = DELETE_user (m_param_id req)
  ∧ m_param_id req ≠ m_user_id req
  ∧ ∃ found rest, pool (SELECT_user (m_param_id req)) = Some (found :: rest).
Proof.
  run_controller; crunch pool; intros Hin.
  all: try (exfalso; congruence).
  all: one_commit Hin; repeat split; eauto.
Qed.

Lemma deleteUser_guards_witness :
  Commit (DELETE_user 7)
    ∈ trace (run (deleteUser books (admin_on 7)) 10 busy_store no_faults).2
  ∧ m_param_id (admin_on 7) ≠ m_user_id (admin_on 7).
Proof.
  assert (Hin : Commit (DELETE_user 7)
                  ∈ trace (run (deleteUser books (admin_on 7))
                               10 busy_store no_faults).2)
    by (vm_compute; apply list_elem_of_here).
  split; [exact Hin|].
  exact (proj1 (proj2 (deleteUser_guards _ _ _ _ _ _ Hin))).
Defined.

(** X12: createCategory inserts a category only when the request passed
    validation and no category of that name was found. *)
Theorem createCategory_unique_name (pool : database) (req : mutation_request)
    (t : Z) (c : redis) (f : faults) (q : statement) :
  Commit q ∈ trace (run (createCategory pool req) t c f).2 →
  q = INSERT_category (m_name req)
  ∧ m_errors req = []
  ∧ pool (SELECT_category_by_name (m_name req)) = Some [].
Proof.
  run_controller; crunch pool; intros Hin.
  all: try (exfalso; congruence).
  all: one_commit Hin; repeat split; eauto.
Qed.

Lemma createCategory_unique_name_witness :
  Commit (INSERT_category "Travel")
    ∈ trace (run (createCategory books (admin_on 0)) 10 busy_store no_faults).2
  ∧ books (SELECT_category_by_name "Travel") = Some [].
Proof.
  assert (Hin : Commit (INSERT_category "Travel")
                  ∈ trace (run (createCategory books (admin_on 0))
                               10 busy_store no_faults).2)
    by (vm_compute; apply list_elem_of_here).
  split; [exact Hin|].
  exact (proj2 (proj2 (createCategory_unique_name _ _ _ _ _ _ Hin))).
Defined.

(** X13: updateCategory renames only an existing category, and only when
    the request passed validation and no other category carries the new
    name. *)
Theorem updateCategory_guards (pool : database) (req : mutation_request)
    (t : Z) (c : redis) (f : faults) (q : statement) :
  Commit q ∈ trace (run (updateCategory pool req) t c f).2 →
  q = UPDATE_category (m_param_id req) (m_name req)
  ∧ m_errors req = []
  ∧ (∃ found rest,
       pool (SELECT_category (m_param_id req)) = Some (found :: rest))
  ∧ pool (SELECT_other_category_by_name (m_name req) (m_param_id req))
    = Some [].
Proof.
  run_controller; crunch pool; intros Hin.
  all: try (exfalso; congruence).
  all: one_commit Hin; repeat split; eauto.
Qed.

Lemma updateCategory_guards_witness :
  Commit (UPDATE_category 2 "Travel")
    ∈ trace (run (updateCategory books (admin_on 2)) 10 busy_store no_faults).2
  ∧ books (SELECT_other_category_by_name "Travel" 2) = Some [].
Proof.
  assert (Hin : Commit (UPDATE_category 2 "Travel")
                  ∈ trace (run (updateCategory books (admin_on 2))
                               10 busy_store no_faults).2)
    by (vm_compute; apply list_elem_of_here).
  split; [exact Hin|].
  exact (proj2 (proj2 (proj2 (updateCategory_guards _ _ _ _ _ _ Hin)))).
Defined.

(** X14: deleteCategory removes only an existing category that no
    transaction uses: the DELETE is sent only when the category was found
    and the count of its transactions was read and is not positive. *)
Theorem deleteCategory_guards (pool : database) (req : mutation_request)
    (t : Z) (c : redis) (f : faults) (q : statement) :
  Commit q ∈ trace (run (deleteCategory pool req) t c f).2 →
  q = DELETE_category (m_param_id req)
  ∧ (∃ found rest,
       pool (SELECT_category (m_param_id req)) = Some (found :: rest))
  ∧ ∃ counted,
      pool (COUNT_transactions_of_category (m_param_id req)) = Some counted
      ∧ ∀ w, (positive_count counted w).1 = Returned false.
Proof.
  run_controller.
  destruct (pool (SELECT_category (m_param_id req))) as [[|found rest]|] eqn:E1;
    simpl; try (intros Hin; by one_commit Hin).
  destruct (pool (COUNT_transactions_of_category (m_param_id req)))
    as [[|counted rest']|] eqn:E2; simpl; try (intros Hin; by one_commit Hin).
  match goal with
  | |- context [if ?b then _ else _] => destruct b eqn:E3
  end; simpl; try (intros Hin; by one_commit Hin).
  crunch pool; intros Hin.
  all: try (exfalso; congruence).
  all: one_commit Hin; repeat split; eauto.
  all: eexists; split; [reflexivity|]; intros w; simpl; by rewrite E3.
Qed.

Lemma deleteCategory_guards_witness :
  Commit (DELETE_category 2)
    ∈ trace (run (deleteCategory books (admin_on 2)) 10 busy_store no_faults).2
  ∧ ∃ found rest, books (SELECT_category 2) = Some (found :: rest).
Proof.
  assert (Hin : Commit (DELETE_category 2)
                  ∈ trace (run (deleteCategory books (admin_on 2))
                               10 busy_store no_faults).2)
    by (vm_compute; apply list_elem_of_here).
  split; [exact Hin|].
  exact (proj1 (proj2 (deleteCategory_guards _ _ _ _ _ _ Hin))).
Defined.

Ltac read_commits_goal :=
  repeat first
    [ rewrite commits_cons; cbv beta iota
    | rewrite commits_app
    | rewrite commits_nil
    | match goal with
      | E : commits _ = [] |- _ => rewrite E
      end
    | rewrite app_nil_r
    | rewrite app_nil_l ].

(** X15: a mutation always answers, and its status tells whether the
    write went through.  No mutation of the transaction and category
    controllers raises; each sends at most one writing statement; and it
    answers its success status (201 for a creation, 200 otherwise)
    exactly when that statement went through (an UPDATE of a transaction
    handing back its row).  A failure of the cache never turns a
    successful write into an error. *)
Theorem mutation_answers (op : mutation) (pool : database)
    (req : mutation_request) (t : Z) (c : redis) (f : faults) :
  let res := run (mutate op pool req) t c f in
  ∃ r, res.1 = Returned r
       ∧ (length (commits (trace res.2)) ≤ 1)%nat
       ∧ (status r = success_status op
          ↔ ∃ q, commits (trace res.2) = [q] ∧ row_returned pool q = true).
Proof.
  destruct op; run_controller; crunch pool.
  all: eexists; split; [reflexivity|]; read_commits_goal; simpl.
  all: split; [lia|].
  all: split; [intros Hs|intros (q & Hq & Hrow)]; try done.
  all: try (eexists; split; [reflexivity|]; simpl;
            repeat match goal with
                   | E : _ = Some _ |- _ => rewrite E
                   end; reflexivity).
  all: injection Hq as <-; simpl in Hrow;
       repeat match goal with
              | E : _ = Some _ |- _ => rewrite E in Hrow
              | E : _ = None |- _ => rewrite E in Hrow
              end; done.
Qed.

(** X16: createTransactionForUser books for the user of the route, and
    clears that user's lists.  It raises nothing; it answers 201 exactly
    when its INSERT went through; the INSERT is for the user named in the
    route, whom the database knows, with an existing category of the
    transaction's type; clearCache is called only after the INSERT, for
    the transactions and analytics patterns of that user and for nothing
    of the administrator who called; and with the store connected and its
    commands going through no key matching these patterns is left. *)
Theorem createTransactionForUser_invalidates (pool : database)
    (req : mutation_request) (t : Z) (c : redis) (f : faults) :
  let res := run (createTransactionForUser pool req) t c f in
  let tr := trace res.2 in
  let target := m_param_id req in
  (∃ r, res.1 = Returned r
        ∧ (status r = 201
           ↔ commits tr = [INSERT_transaction target (m_category_id req)]))
  ∧ clear_calls (before_commit tr) = []
  ∧ (commits tr = [] → clear_calls tr = [])
  ∧ (∀ q, Commit q ∈ tr →
     q = INSERT_transaction target (m_category_id req)
     ∧ m_errors req = []
     ∧ (∃ found rest, pool (SELECT_user target) = Some (found :: rest))
     ∧ (∃ category rest,
          pool (SELECT_category (m_category_id req)) = Some (category :: rest)
          ∧ field_string "type" category = Some (m_type req))
     ∧ clear_calls tr = transaction_patterns (Some target)
     ∧ (isOpen c = true → f = no_faults →
        ∀ p k t', p ∈ transaction_patterns (Some target) → t ≤ t' →
                  glob_match p k = true →
                  lookup_live t' (client res.2) k = None)).
Proof.
  run_controller'; crunch pool.
  all: split;
    [eexists; split; [reflexivity|]; read_commits_goal; simpl;
     split; [intros Hs|intros Hq]; done|].
  all: split; [done|].
  all: split; [read_commits_goal; simpl; try done|].
  all: intros q Hin; try (by one_commit Hin).
  all: pose proof Hin as Hin'; one_commit Hin'.
  all: repeat (split; [by eauto|]).
  all: split;
    [repeat first
       [ rewrite clear_calls_cons; cbv beta iota
       | rewrite clear_calls_app
       | match goal with
         | E : clear_calls _ = [] |- _ => rewrite E
         end ]; reflexivity|].
  all: intros Ho -> p k t' Hp Ht Hg.
  all: unfold transaction_patterns in Hp; simpl in Hp.
  all: repeat match goal with
              | Ho : isOpen ?c = true,
                H : isOpen ?c = true → no_faults = no_faults → _ |- _ =>
                  specialize (H Ho eq_refl)
              end.
  all: repeat match goal with
              | H1 : ?c1 = Redis true _,
                H : isOpen ?c1 = true → no_faults = no_faults → _ |- _ =>
                  specialize (H ltac:(rewrite H1; reflexivity) eq_refl)
              end.
  all: repeat (apply elem_of_cons in Hp as [->|Hp]);
       try (by apply elem_of_nil in Hp).
  all: match goal with
       | Hg : glob_match ?p ?k = true, Ht : ?t ≤ ?t',
         H2 : ?c2 = Redis true (foldr delete (db ?c1) (matching_keys ?t ?c1 ?p))
         |- lookup_live ?t' ?c2 ?k = None =>
           exact (cleared_gone t t' c1 c2 p k H2 Ht Hg)
       | Hg : glob_match ?p ?k = true, Ht : ?t ≤ ?t',
         H1 : ?c1 = Redis true (foldr delete (db ?c0) (matching_keys ?t ?c0 ?p)),
         H2 : ?c2 = Redis true (foldr delete (db ?c1) ?ks)
         |- lookup_live ?t' ?c2 ?k = None =>
           exact (deleted_stays_gone t' c1 c2 ks k H2
                    (cleared_gone t t' c0 c1 p k H1 Ht Hg))
       end.
Qed.

Lemma createTransactionForUser_invalidates_witness :
  Commit (INSERT_transaction 7 1)
    ∈ trace (run (createTransactionForUser books (admin_on 7))
                 10 busy_store no_faults).2
  ∧ clear_calls (trace (run (createTransactionForUser books (admin_on 7))
                            10 busy_store no_faults).2)
    = transaction_patterns (Some 7).
Proof.
  assert (Hin : Commit (INSERT_transaction 7 1)
                  ∈ trace (run (createTransactionForUser books (admin_on 7))
                               10 busy_store no_faults).2)
    by (vm_compute; apply list_elem_of_here).
  split; [exact Hin|].
  pose proof (createTransactionForUser_invalidates books (admin_on 7)
                10 busy_store no_faults) as H.
  cbv zeta in H. destruct H as (_ & _ & _ & H).
  destruct (H _ Hin) as (_ & _ & _ & _ & Hc & _). exact Hc.
Defined.

(** ** Authentication and the role guards *)

Lemma split_on_head sep s :
  ∃ piece pieces,
    split_on sep s = piece :: pieces
    ∧ occurs sep piece = false
    ∧ ((pieces = [] ∧ s = piece)
       ∨ ∃ s', s = piece +:+ String sep s' ∧ pieces = split_on sep s').
Proof.
  induction s as [|a s (piece & pieces & E & Hp & IH)]; simpl.
  - exists EmptyString, []. repeat split. by left.
  - destruct (decide (a = sep)) as [->|Hne].
    + exists EmptyString, (split_on sep s). repeat split. right. by exists s.
    + rewrite E. exists (String a piece), pieces. repeat split.
      * simpl. by destruct (decide (a = sep)).
      * destruct IH as [[-> ->]|(s' & -> & ->)]; [by left|right].
        by exists s'.
Qed.

(** The pieces of a string that starts with a piece free of the
    separator. *)
Lemma split_on_app sep piece s :
  occurs sep piece = false →
  split_on sep (piece +:+ String sep s) = piece :: split_on sep s.
Proof.
  induction piece as [|a piece IH]; simpl; intros H.
  - change (EmptyString +:+ String sep s) with (String sep s). simpl.
    by destruct (decide (sep = sep)).
  - destruct (decide (a = sep)) as [|Hne]; [done|].
    change (String a piece +:+ String sep s)
      with (String a (piece +:+ String sep s)).
    simpl. destruct (decide (a = sep)); [done|]. by rewrite IH.
Qed.

Lemma split_on_piece sep piece :
  occurs sep piece = false → split_on sep piece = [piece].
Proof.
  induction piece as [|a piece IH]; simpl; intros H; [done|].
  destruct (decide (a = sep)); [done|]. by rewrite IH.
Qed.

(** The second piece of a header, when there is one. *)
Lemma split_on_second sep header token :
  split_on sep header !! 1%nat = Some token ↔
  ∃ scheme rest,
    header = scheme +:+ String sep (token +:+ rest)
    ∧ occurs sep scheme = false ∧ occurs sep token = false
    ∧ (rest = EmptyString ∨ ∃ rest', rest = String sep rest').
Proof.
  split.
  - destruct (split_on_head sep header)
      as (scheme & pieces & E & Hs & [[-> ->]|(s' & -> & ->)]);
      rewrite E; simpl; [done|].
    destruct (split_on_head sep s')
      as (tok & pieces & E' & Ht & [[-> ->]|(s'' & -> & ->)]);
      rewrite E'; simpl; intros [= ->].
    + exists scheme, EmptyString. rewrite string_app_nil_r.
      repeat split; try done. by left.
    + exists scheme, (String sep s''). repeat split; try done.
      right. by exists s''.
  - intros (scheme & rest & -> & Hs & Ht & Hrest).
    rewrite split_on_app by done. simpl.
    destruct Hrest as [->|(rest' & ->)].
    + rewrite string_app_nil_r, split_on_piece; done.
    + rewrite split_on_app; done.
Qed.

(** X17: authenticateToken lets a request through exactly when the
    second blank-separated piece of the Authorization header is a
    non-empty token that verifies and names a user the database knows;
    [req.user] is then the row of the database, not the content of the
    token.  The first piece, the scheme, is never looked at. *)
Theorem authenticateToken_passes (verify : string → verified)
    (users : Z → option (list row)) (authHeader : option string) (u : row) :
  authenticateToken verify users authHeader = Authenticated u ↔
  ∃ scheme token rest userId more,
    authHeader = Some (scheme +:+ String space (token +:+ rest))
    ∧ occurs space scheme = false
    ∧ token ≠ EmptyString ∧ occurs space token = false
    ∧ (rest = EmptyString ∨ ∃ rest', rest = String space rest')
    ∧ verify token = Decoded userId
    ∧ users userId = Some (u :: more).
Proof.
  unfold authenticateToken, token_of. split.
  - destruct authHeader as [header|]; [|done].
    destruct (split_on space header !! 1%nat) as [token|] eqn:E; [|done].
    apply split_on_second in E as (scheme & rest & -> & Hs & Ht & Hrest).
    destruct (decide (token = EmptyString)) as [|Hne]; [done|].
    destruct (verify token) as [userId| | |] eqn:Ev; try done.
    destruct (users userId) as [[|found more]|] eqn:Eu; try done.
    intros [= ->]. by exists scheme, token, rest, userId, more.
  - intros (scheme & token & rest & userId & more
            & -> & Hs & Hne & Ht & Hrest & Ev & Eu).
    assert (split_on space (scheme +:+ String space (token +:+ rest)) !! 1%nat
            = Some token) as ->.
    { apply split_on_second. by exists scheme, rest. }
    rewrite decide_False by done. by rewrite Ev, Eu.
Qed.

Lemma authenticateToken_rejected_status (verify : string → verified)
    (users : Z → option (list row)) (authHeader : option string)
    (r : response json) (logged : bool) :
  authenticateToken verify users authHeader = Rejected r logged →
  status r ∈ [401; 403; 500].
Proof.
  unfold authenticateToken.
  destruct (token_of authHeader) as [token|];
    [destruct (verify token) as [userId| | |];
     [destruct (users userId) as [[|found more]|]|..]|];
    intros [= <- <-]; simpl; rewrite !elem_of_cons; tauto.
Qed.

(** X18: authenticateToken never lets a request through on a failure.
    Every rejection answers 401, 403 or 500; without a token nothing is
    verified and the database is not asked; with a token that does not
    verify the database is not asked either. *)
Theorem authenticateToken_rejects (verify : string → verified)
    (users : Z → option (list row)) (authHeader : option string)
    (r : response json) (logged : bool) :
  authenticateToken verify users authHeader = Rejected r logged →
  status r ∈ [401; 403; 500]
  ∧ (logged = true ↔ status r = 500)
  ∧ (token_of authHeader = None →
     ∀ verify' users',
       authenticateToken verify' users' authHeader = Rejected r logged)
  ∧ (∀ token, token_of authHeader = Some token →
     (∀ userId, verify token ≠ Decoded userId) →
     ∀ users', authenticateToken verify users' authHeader = Rejected r logged).
Proof.
  unfold authenticateToken.
  destruct (token_of authHeader) as [token|] eqn:Et;
    [destruct (verify token) as [userId| | |] eqn:Ev;
     [destruct (users userId) as [[|found more]|] eqn:Eu|..]|];
    intros [= <- <-].
  all: split; [simpl; rewrite !elem_of_cons; tauto|].
  all: split; [done|].
  all: split; [try done|].
  all: try (intros token' [= <-] Hne; try (by destruct (Hne userId));
            intros users'; by rewrite ?Ev).
  all: try done.
Qed.

Lemma authenticateToken_rejects_witness :
  authenticateToken sample_verify sample_users (Some "Bearer")
  = Rejected (Response 401 (answer false "Access token required")) false
  ∧ status (Response 401 (answer false "Access token required"))
    ∈ [401; 403; 500].
Proof.
  assert (H : authenticateToken sample_verify sample_users (Some "Bearer")
              = Rejected (Response 401 (answer false "Access token required"))
                         false) by reflexivity.
  split; [exact H|].
  exact (proj1 (authenticateToken_rejects _ _ _ _ _ H)).
Defined.

Lemma requireRole_admin_pass u :
  requireRole ["admin"] (Some u) = Pass → field_string "role" u = Some "admin".
Proof.
  unfold requireRole. destruct (field_string "role" u) as [role|]; [|done].
  destruct (bool_decide_reflect (role ∈ ["admin"])) as [Hin|]; [|done].
  apply list_elem_of_singleton in Hin. by subst.
Qed.

Lemma requireWriteAccess_pass u :
  requireWriteAccess (Some u) = Pass → field_string "role" u ≠ Some "read-only".
Proof.
  unfold requireWriteAccess.
  by destruct (decide (field_string "role" u = Some "read-only")).
Qed.

Lemma guard_answers_403 g u r :
  guard_verdict g (Some u) = Answer r → status r = 403.
Proof.
  destruct g as [| |roles]; simpl; [done| |].
  - unfold requireWriteAccess.
    destruct (decide (field_string "role" u = Some "read-only")); [|done].
    by intros [= <-].
  - unfold requireRole.
    destruct (match field_string "role" u with
              | Some role => bool_decide (role ∈ roles)
              | None => false
              end); [done|].
    by intros [= <-].
Qed.

(** X19: the handler of a route runs only for a permitted caller.  On
    every route of the four routers the rest of the chain (validation and
    controller, or cacheMiddleware and handler) runs only for a request
    that authenticateToken let through with the row [u], and then: on a
    route that is not a GET the role of [u] is not read-only; on every
    route of the admin router, and on the writing routes and the
    statistics of the categories router, it is admin.  Otherwise the
    request is answered with 401, 403 or 500, or by the rate limiter, and
    nothing else happens. *)
Theorem handler_runs_for_permitted (r : router) (x : route)
    (verify : string → verified) (users : Z → option (list row))
    (limiter : verdict) (rest : row → M (response json))
    (authHeader : option string) :
  x ∈ routes_of r →
  let served :=
    serve verify users (guard_of r (r_verb x) (r_path x)) limiter rest
          authHeader in
  (∃ u, authenticateToken verify users authHeader = Authenticated u
        ∧ served = rest u
        ∧ (r_verb x ≠ "GET" → field_string "role" u ≠ Some "read-only")
        ∧ (r = Admin ∨ r = CategoriesRouter ∧ r_verb x ≠ "GET"
           ∨ r = CategoriesRouter ∧ r_path x = "/stats" →
           field_string "role" u = Some "admin"))
  ∨ (∃ a, served = mret a
          ∧ (status a ∈ [401; 403; 500] ∨ limiter = Answer a)).
Proof.
  intros Hx served. subst served. unfold serve.
  destruct (authenticateToken verify users authHeader) as [u|a logged] eqn:Ea.
  2:{ right. exists a. split; [done|]. left.
      by apply (authenticateToken_rejected_status _ _ _ _ _ Ea). }
  destruct (guard_verdict _ (Some u)) as [|a] eqn:Eg.
  2:{ right. exists a. split; [done|]. left.
      rewrite (guard_answers_403 _ _ _ Eg). rewrite !elem_of_cons. tauto. }
  destruct limiter as [|a]; [|right; exists a; split; [done|by right]].
  left. exists u. split; [done|]. split; [done|].
  destruct r; simpl in Hx;
    repeat (apply elem_of_cons in Hx as [->|Hx];
            [vm_compute in Eg; simpl;
             split;
             [intros Hv; try done;
              try (by apply requireWriteAccess_pass);
              try (rewrite (requireRole_admin_pass u Eg); done)
             |intros [Hr|[[Hr Hv]|[Hr Hv]]]; try done;
              by apply requireRole_admin_pass]|]);
    by apply elem_of_nil in Hx.
Qed.

Lemma handler_runs_for_permitted_witness :
  Route "POST" "/" None ∈ routes_of Transactions
  ∧ ((∃ u, authenticateToken sample_verify sample_users (Some "Bearer tok-7")
           = Authenticated u
           ∧ serve sample_verify sample_users
                   (guard_of Transactions "POST" "/") Pass
                   (λ _, createTransaction books expense_of_8_for_7)
                   (Some "Bearer tok-7")
             = createTransaction books expense_of_8_for_7
           ∧ ("POST" ≠ "GET" → field_string "role" u ≠ Some "read-only")
           ∧ (Transactions = Admin
              ∨ Transactions = CategoriesRouter ∧ "POST" ≠ "GET"
              ∨ Transactions = CategoriesRouter ∧ "/" = "/stats" →
              field_string "role" u = Some "admin"))
     ∨ (∃ a, serve sample_verify sample_users
                   (guard_of Transactions "POST" "/") Pass
                   (λ _, createTransaction books expense_of_8_for_7)
                   (Some "Bearer tok-7")
             = mret a
             ∧ (status a ∈ [401; 403; 500] ∨ Pass = Answer a))).
Proof.
  assert (Hx : Route "POST" "/" None ∈ routes_of Transactions)
    by (do 3 apply list_elem_of_further; apply list_elem_of_here).
  split; [exact Hx|].
  exact (handler_runs_for_permitted Transactions (Route "POST" "/" None)
           sample_verify sample_users Pass
           (λ _, createTransaction books expense_of_8_for_7)
           (Some "Bearer tok-7") Hx).
Defined.

(** ** Listings: pages, filters and sorting *)

(** X20: the page window of getTransactions and getUsers.  The limit is
    never 0 and never above 100, and the page is never 0, so the number
    of pages is never a division by zero; a positive limit or page is
    kept (the limit capped at 100); but a negative one is passed on to
    the statement as it is, with an offset computed from it. *)
Theorem page_window_bounds (page limit : option Z) :
  let w := page_window_of page limit in
  w_limit w ≠ 0 ∧ w_limit w ≤ 100 ∧ w_page w ≠ 0
  ∧ w_offset w = (w_page w - 1) * w_limit w
  ∧ (∀ n, limit = Some n → 0 < n → w_limit w = Z.min n 100)
  ∧ (∀ n, limit = Some n → n < 0 → w_limit w = n)
  ∧ (∀ n, page = Some n → n ≠ 0 → w_page w = n)
  ∧ (w_limit w < 0 ↔ ∃ n, limit = Some n ∧ n < 0).
Proof.
  unfold page_window_of, or_default; simpl.
  destruct page as [p|], limit as [l|]; repeat case_decide; subst;
    repeat split; try lia; try done.
  all: try (intros n [= <-]; lia).
  all: try (intros n [= <-] ?; lia).
  all: try (intros ?; exists l; split; [done|lia]).
  all: try (intros (n & [= <-] & ?); lia).
  all: try (intros (n & [=] & ?)).
Qed.

Lemma page_window_bounds_witness :
  w_limit (page_window_of (Some 3) (Some (-5))) = -5
  ∧ w_offset (page_window_of (Some 3) (Some (-5))) = -10.
Proof.
  pose proof (page_window_bounds (Some 3) (Some (-5))) as H.
  cbv zeta in H. destruct H as (_ & _ & _ & _ & _ & H & _).
  split; [exact (H (-5) eq_refl ltac:(lia))|reflexivity].
Defined.

(** X21: getAllTransactions clamps its page window.  When page and limit
    are numbers, the page is at least 1, the limit between 1 and 100 and
    the offset not negative, whatever was sent. *)
Theorem clamped_window_bounds (page limit : option Z) (w : page_window) :
  clamped_window page limit = Some w →
  1 ≤ w_page w ∧ 1 ≤ w_limit w ≤ 100 ∧ 0 ≤ w_offset w
  ∧ w_offset w = (w_page w - 1) * w_limit w
  ∧ ∃ p l, page = Some p ∧ limit = Some l
           ∧ (1 ≤ p → w_page w = p) ∧ (1 ≤ l ≤ 100 → w_limit w = l).
Proof.
  unfold clamped_window.
  destruct page as [p|], limit as [l|]; simpl; try done.
  intros [= <-]; simpl. repeat split; try lia; try nia.
  exists p, l. repeat split; lia.
Qed.

Lemma clamped_window_bounds_witness :
  clamped_window (Some 3) (Some (-5)) = Some (PageWindow 3 1 2)
  ∧ 1 ≤ w_limit (PageWindow 3 1 2) ≤ 100.
Proof.
  assert (H : clamped_window (Some 3) (Some (-5)) = Some (PageWindow 3 1 2))
    by reflexivity.
  split; [exact H|].
  exact (proj1 (proj2 (clamped_window_bounds _ _ _ H))).
Defined.

Lemma ceil_div_spec a b :
  0 < b → (ceil_div a b - 1) * b < a ≤ ceil_div a b * b.
Proof.
  intros Hb. unfold ceil_div.
  pose proof (Z.div_mod (- a) b ltac:(lia)) as Hd.
  pose proof (Z.mod_pos_bound (- a) b Hb) as Hm.
  nia.
Qed.

(** X22: the pagination object tells the truth about the pages.  With a
    positive limit, a page of at least 1 and a count that is not
    negative: the pages are just enough for the items; hasNextPage holds
    exactly when items lie behind this page's window, and hasPrevPage
    exactly when the window does not start at the first item. *)
Theorem pagination_sound (w : page_window) (total : Z) :
  0 < w_limit w → 1 ≤ w_page w →
  w_offset w = (w_page w - 1) * w_limit w →
  0 ≤ total →
  let p := pagination_of w total in
  (totalPages p - 1) * w_limit w < total ≤ totalPages p * w_limit w
  ∧ 0 ≤ totalPages p
  ∧ (hasNextPage p = true ↔ w_offset w + w_limit w < total)
  ∧ (hasPrevPage p = true ↔ 0 < w_offset w)
  ∧ currentPage p = w_page w ∧ itemsPerPage p = w_limit w
  ∧ totalItems p = total.
Proof.
  intros Hl Hp Ho Ht. simpl.
  pose proof (ceil_div_spec total (w_limit w) Hl) as Hc.
  split; [done|]. split; [nia|].
  rewrite !bool_decide_eq_true, Ho.
  repeat split; try nia; try lia.
Qed.

Lemma pagination_sound_witness :
  0 < w_limit (page_window_of (Some 2) (Some 10))
  ∧ hasNextPage (pagination_of (page_window_of (Some 2) (Some 10)) 25) = true.
Proof.
  assert (Hl : 0 < w_limit (page_window_of (Some 2) (Some 10)))
    by (vm_compute; reflexivity).
  split; [exact Hl|].
  pose proof (pagination_sound (page_window_of (Some 2) (Some 10)) 25 Hl
                ltac:(vm_compute; intros [=])
                eq_refl ltac:(lia)) as H.
  cbv zeta in H. apply (proj1 (proj2 (proj2 H))).
  vm_compute. reflexivity.
Defined.

Lemma aligned_push texts g v b :
  g ∈ texts → aligned texts 0 b → aligned texts 0 (push g v b).
Proof.
  intros Hg (Hlen & Hcount & Hnum). unfold aligned, push; simpl.
  rewrite !length_app; simpl. split; [lia|]. split; [lia|].
  intros i text Hi. apply lookup_app_Some in Hi as [Hi|[Hge Hi]]; [eauto|].
  apply list_lookup_singleton_Some in Hi as [Hi <-].
  exists g. split; [done|]. do 2 f_equal. lia.
Qed.

Lemma aligned_push_then_count texts g v b :
  g ∈ texts → aligned texts 1 b → aligned texts 1 (push_then_count g v b).
Proof.
  intros Hg (Hlen & Hcount & Hnum). unfold aligned, push_then_count; simpl.
  rewrite !length_app; simpl. split; [lia|]. split; [lia|].
  intros i text Hi. apply lookup_app_Some in Hi as [Hi|[Hge Hi]]; [eauto|].
  apply list_lookup_singleton_Some in Hi as [Hi <-].
  exists g. split; [done|]. do 2 f_equal. lia.
Qed.

Lemma aligned_if texts first (c : bool) (f : where_builder → where_builder) b :
  (aligned texts first b → aligned texts first (f b)) →
  aligned texts first b → aligned texts first (if c then f b else b).
Proof. destruct c; auto. Qed.

Lemma getTransactions_where_aligned parseInt role own q :
  aligned transaction_conditions 0 (getTransactions_where parseInt role own q).
Proof.
  unfold getTransactions_where.
  repeat (apply aligned_if;
          [apply aligned_push; unfold transaction_conditions;
           rewrite !elem_of_cons; auto 10|]).
  split; [done|]. split; [done|].
  intros [|i] text; [|done]. intros [= <-].
  exists by_user. split; [apply list_elem_of_here|reflexivity].
Qed.

Lemma getTransactions_where_head parseInt role own q :
  let b := getTransactions_where parseInt role own q in
  whereConditions b !! 0%nat = Some "t.user_id = $1"
  ∧ queryParams b !! 0%nat = Some (PNumber (listed_user parseInt role own q)).
Proof.
  unfold getTransactions_where, push; simpl.
  repeat match goal with
         | |- context [if ?c then _ else _] => destruct c; simpl
         end; done.
Qed.

(** X23: the filters of getTransactions.  Whatever the query holds, the
    statement is restricted to one user, by its first condition and first
    parameter; for a caller who is not an administrator that user is the
    caller, a user_id in the query being ignored.  Conditions and
    parameters stay aligned: there are as many of the one as of the
    other, the condition at position i uses the placeholder i + 1, and
    the LIMIT and OFFSET placeholders number the two parameters that are
    appended for them. *)
Theorem getTransactions_filters (parseInt : string → option Z)
    (role : string) (own : Z) (q : listing_query) (w : page_window) :
  let b := getTransactions_where parseInt role own q in
  let s := getTransactions_page b w in
  whereConditions b !! 0%nat = Some "t.user_id = $1"
  ∧ queryParams b !! 0%nat = Some (PNumber (listed_user parseInt role own q))
  ∧ (role ≠ "admin" → listed_user parseInt role own q = Some own)
  ∧ length (whereConditions b) = length (queryParams b)
  ∧ (∀ i text, whereConditions b !! i = Some text →
               ∃ g, g ∈ transaction_conditions
                    ∧ text = g (placeholder (S i)))
  ∧ sent_params s !! (limit_placeholder s - 1)%nat
    = Some (PNumber (Some (w_limit w)))
  ∧ sent_params s !! (offset_placeholder s - 1)%nat
    = Some (PNumber (Some (w_offset w)))
  ∧ length (sent_params s) = offset_placeholder s.
Proof.
  intros b s.
  destruct (getTransactions_where_aligned parseInt role own q)
    as (Hlen & Hcount & Hnum). fold b in Hlen, Hcount, Hnum.
  destruct (getTransactions_where_head parseInt role own q) as [Hc Hp].
  fold b in Hc, Hp.
  split; [done|]. split; [done|].
  split.
  { intros Hr. unfold listed_user.
    destruct (String.eqb_spec role "admin"); done. }
  split; [done|]. split; [done|].
  unfold s, getTransactions_page; simpl. rewrite Hcount; simpl.
  rewrite length_app; simpl.
  replace (length (queryParams b) + 1 - 1)%nat
    with (length (queryParams b) + 0)%nat by lia.
  replace (length (queryParams b) + 2 - 1)%nat
    with (length (queryParams b) + 1)%nat by lia.
  rewrite !lookup_app_r by lia.
  replace (length (queryParams b) + 0 - length (queryParams b))%nat
    with 0%nat by lia.
  replace (length (queryParams b) + 1 - length (queryParams b))%nat
    with 1%nat by lia.
  done.
Qed.

Lemma getTransactions_filters_witness :
  "user" ≠ "admin"
  ∧ listed_user sample_parseInt "user" 8 all_filters = Some 8.
Proof.
  assert (Hr : "user" ≠ "admin") by (intros [=]).
  split; [exact Hr|].
  pose proof (getTransactions_filters sample_parseInt "user" 8 all_filters
                (page_window_of None None)) as H.
  cbv zeta in H. destruct H as (_ & _ & H & _). exact (H Hr).
Defined.

Lemma getAllTransactions_where_aligned parseInt trim q :
  aligned all_transaction_conditions 1 (getAllTransactions_where parseInt trim q).
Proof.
  unfold getAllTransactions_where.
  repeat (apply aligned_if;
          [apply aligned_push_then_count; unfold all_transaction_conditions;
           rewrite !elem_of_cons; auto 10|]).
  split; [done|]. split; [done|]. by intros [|i] text.
Qed.

(** X24: the filters of getAllTransactions, which counts its placeholders
    the other way round (the counter is incremented after a condition is
    added, and starts at 1).  Conditions and parameters stay aligned all
    the same: as many of the one as of the other, the condition at
    position i uses the placeholder i + 1, and the LIMIT and OFFSET
    placeholders number the two parameters appended for them.  Without a
    filter there is no condition and no parameter. *)
Theorem getAllTransactions_filters (parseInt : string → option Z)
    (trim : string → string) (q : listing_query) (w : page_window) :
  let b := getAllTransactions_where parseInt trim q in
  let s := getAllTransactions_page b w in
  length (whereConditions b) = length (queryParams b)
  ∧ (length (queryParams b) ≤ 6)%nat
  ∧ (∀ i text, whereConditions b !! i = Some text →
               ∃ g, g ∈ all_transaction_conditions
                    ∧ text = g (placeholder (S i)))
  ∧ (∀ i n, queryParams b !! i = Some (PNumber n) → is_Some n)
  ∧ sent_params s !! (limit_placeholder s - 1)%nat
    = Some (PNumber (Some (w_limit w)))
  ∧ sent_params s !! (offset_placeholder s - 1)%nat
    = Some (PNumber (Some (w_offset w)))
  ∧ length (sent_params s) = offset_placeholder s.
Proof.
  intros b s.
  destruct (getAllTransactions_where_aligned parseInt trim q)
    as (Hlen & Hcount & Hnum). fold b in Hlen, Hcount, Hnum.
  split; [done|].
  split.
  { unfold b, getAllTransactions_where, push_then_count; simpl.
    repeat match goal with
           | |- context [if ?c then _ else _] => destruct c; simpl
           end; rewrite ?length_app; simpl; lia. }
  split; [done|].
  split.
  { unfold b, getAllTransactions_where, push_then_count, is_number; simpl.
    intros i n.
    destruct (parseInt (given (q_category_id q))) as [cat|] eqn:Ec;
      destruct (parseInt (given (q_user_id q))) as [uid|] eqn:Eu; simpl;
      rewrite ?andb_false_r;
      repeat match goal with
             | |- context [if ?c then _ else _] => destruct c; simpl
             end;
      repeat (destruct i as [|i]; simpl; [intros [=]; by subst|]);
      done. }
  unfold s, getAllTransactions_page; simpl. rewrite Hcount; simpl.
  rewrite length_app; simpl.
  replace (length (queryParams b) - 0)%nat
    with (length (queryParams b) + 0)%nat by lia.
  replace (length (queryParams b) + 1 - 0)%nat
    with (length (queryParams b) + 1)%nat by lia.
  rewrite !lookup_app_r by lia.
  replace (length (queryParams b) + 0 - length (queryParams b))%nat
    with 0%nat by lia.
  replace (length (queryParams b) + 1 - length (queryParams b))%nat
    with 1%nat by lia.
  split; [done|]. split; [done|]. lia.
Qed.

(** X25: the ORDER BY clause of getAllTransactions is one of ten fixed
    texts, whatever sort_by and sort_order the request carries and
    whatever toLowerCase makes of them: no text of the request reaches
    the statement. *)
Theorem order_by_whitelisted (toLowerCase : string → string)
    (q : listing_query) :
  order_by toLowerCase q
  ∈ [ "t.transaction_date ASC"; "t.transaction_date DESC";
      "t.amount ASC"; "t.amount DESC";
      "t.type ASC"; "t.type DESC";
      "c.name ASC"; "c.name DESC";
      "u.username ASC"; "u.username DESC" ].
Proof.
  unfold order_by.
  destruct (String.eqb (toLowerCase (default "desc" (q_sort_order q))) "asc");
    destruct (bool_decide_reflect
                (default "transaction_date" (q_sort_by q)
                 ∈ ["transaction_date"; "amount"; "type"; "category_name";
                    "username"])) as [Hin|_].
  all: try (repeat (apply elem_of_cons in Hin as [->|Hin];
                    [match goal with
                     | |- ?x ∈ _ =>
                         let y := eval vm_compute in x in change x with y
                     end; rewrite !elem_of_cons; auto 20|]);
            by apply elem_of_nil in Hin).
  all: match goal with
       | |- ?x ∈ _ => let y := eval vm_compute in x in change x with y
       end; rewrite !elem_of_cons; auto 20.
Qed.


(** ** The paginate helper *)

Lemma slice_window {A} (items : list A) (start lim : Z) :
  0 ≤ start → 0 < lim →
  slice items start (start + lim)
  = take (Z.to_nat lim) (drop (Z.to_nat start) items).
Proof.
  intros Hs Hl. unfold slice.
  rewrite !decide_False by lia.
  destruct (decide (start ≤ Z.of_nat (length items))) as [Hle|Hgt].
  - rewrite (Z.min_l start) by lia.
    destruct (decide (start + lim ≤ Z.of_nat (length items))) as [Hin|Hout].
    + rewrite Z.min_l by lia. do 2 f_equal. lia.
    + rewrite Z.min_r by lia.
      rewrite !take_ge; [done|rewrite length_drop; lia..].
  - rewrite !Z.min_r by lia.
    rewrite !drop_ge by lia. by rewrite !take_nil.
Qed.

Lemma windows_concat {A} (items : list A) (n m : nat) :
  concat ((λ k, take n (drop (k * n) items)) <$> seq 0 m) = take (m * n) items.
Proof.
  induction m as [|m IH]; [by rewrite take_0|].
  rewrite seq_S, fmap_app, concat_app, IH. simpl.
  rewrite app_nil_r, take_take_drop. f_equal. lia.
Qed.

Lemma paginate_in_range {A} (items : list A) (page limit : Z) :
  0 < limit → 1 ≤ page ≤ ceil_div (Z.of_nat (length items)) limit →
  (paginate items page limit).1
  = take (Z.to_nat limit) (drop (Z.to_nat ((page - 1) * limit)) items).
Proof.
  intros Hl Hp. unfold paginate; simpl.
  rewrite Z.min_l, Z.max_r by lia.
  apply slice_window; nia.
Qed.

(** X26: the pages of paginate make up the list.  With a positive limit,
    the pages 1 to totalPages, one after the other, are the items, each
    once and in order; every page but the last holds limit items. *)
Theorem paginate_pages_cover {A} (items : list A) (limit : Z) :
  0 < limit →
  let pages := totalPages (paginate items 1 limit).2 in
  concat ((λ page, (paginate items page limit).1) <$> seqZ 1 pages) = items
  ∧ ∀ page, 1 ≤ page < pages →
            Z.of_nat (length (paginate items page limit).1) = limit.
Proof.
  intros Hl pages. unfold pages.
  change (totalPages (paginate items 1 limit).2)
    with (ceil_div (Z.of_nat (length items)) limit).
  pose proof (ceil_div_spec (Z.of_nat (length items)) limit Hl) as Hc.
  set (m := ceil_div (Z.of_nat (length items)) limit) in *.
  assert (0 ≤ m) as Hm by nia.
  split.
  - unfold seqZ. rewrite <-list_fmap_compose.
    rewrite (Forall_fmap_ext_1 _
               (λ k, take (Z.to_nat limit) (drop (k * Z.to_nat limit) items))).
    + rewrite windows_concat. apply take_ge. nia.
    + apply Forall_forall. intros k Hk. apply elem_of_seq in Hk.
      unfold compose. rewrite paginate_in_range by (fold m; lia).
      do 2 f_equal. nia.
  - intros page Hp. rewrite paginate_in_range by (fold m; lia).
    rewrite length_take, length_drop. nia.
Qed.

Lemma paginate_pages_cover_witness :
  0 < 2
  ∧ concat ((λ page, (paginate [1; 2; 3; 4; 5] page 2).1) <$> seqZ 1 3)
    = [1; 2; 3; 4; 5].
Proof.
  assert (H : 0 < 2) by lia.
  split; [exact H|].
  exact (proj1 (paginate_pages_cover [1; 2; 3; 4; 5] 2 H)).
Defined.

(** X27: paginate never leaves the list.  With a positive limit the
    page asked for is brought into the range of the pages, so that a
    list that is not empty never gives an empty page; the page holds at
    most limit items, those from position (currentPage - 1) * limit on;
    and hasNextPage holds exactly when items lie behind it. *)
Theorem paginate_window {A} (items : list A) (page limit : Z) :
  0 < limit →
  let result := paginate items page limit in
  let p := result.2 in
  result.1 = take (Z.to_nat limit)
                  (drop (Z.to_nat ((currentPage p - 1) * limit)) items)
  ∧ Z.of_nat (length result.1) ≤ limit
  ∧ (1 ≤ page ≤ totalPages p → currentPage p = page)
  ∧ (items ≠ [] → 1 ≤ currentPage p ≤ totalPages p ∧ result.1 ≠ [])
  ∧ (items = [] → currentPage p = 1 ∧ totalPages p = 0 ∧ result.1 = [])
  ∧ (hasNextPage p = true
     ↔ currentPage p * limit < Z.of_nat (length items)).
Proof.
  intros Hl result p. unfold p, result, paginate; simpl.
  pose proof (ceil_div_spec (Z.of_nat (length items)) limit Hl) as Hc.
  set (m := ceil_div (Z.of_nat (length items)) limit) in *.
  assert (0 ≤ m) as Hm by nia.
  set (cur := Z.max 1 (Z.min page m)).
  assert (1 ≤ cur) as Hcur by lia.
  rewrite slice_window by nia.
  split; [done|].
  split; [rewrite length_take; lia|].
  split; [lia|].
  split.
  { intros Hne. assert (0 < length items)%nat as Hlen
      by (destruct items; [done|simpl; lia]).
    assert (1 ≤ m) by nia. split; [lia|].
    intros E. apply (f_equal length) in E.
    rewrite length_take, length_drop in E. simpl in E. nia. }
  split.
  { intros ->. simpl in *. assert (m = 0) as Hz by nia.
    split; [subst cur; lia|]. split; [exact Hz|].
    by rewrite drop_nil, take_nil. }
  rewrite bool_decide_eq_true. subst cur. nia.
Qed.

Lemma paginate_window_witness :
  0 < 2 ∧ currentPage (paginate [1; 2; 3; 4; 5] 9 2).2 = 3
  ∧ (paginate [1; 2; 3; 4; 5] 9 2).1 ≠ [].
Proof.
  assert (H : 0 < 2) by lia.
  split; [exact H|]. split; [reflexivity|].
  pose proof (paginate_window [1; 2; 3; 4; 5] 9 2 H) as Hw.
  cbv zeta in Hw. destruct Hw as (_ & _ & _ & Hne & _).
  exact (proj2 (Hne ltac:(discriminate))).
Defined.
